(** * drow: growing the last section of the executable segment of an ELF64 image

    A shallow embedding of [src/elfio.c].  The image is the mapped byte
    buffer [ctx->elf]; the ELF headers are not a separate data structure but
    little-endian integers read and written in place at the offsets that
    <elf.h> fixes for [Elf64_Ehdr], [Elf64_Shdr] and [Elf64_Phdr].  An access
    outside the buffer has no defined result in C and is a fault ([None]).
    [ctx->size] is the length of the buffer, as [load_elf] sets it (lines
    42 and 55-56), and [payload->size] the length of the payload (lines 87
    and 100-101).  What the program prints is not modelled. *)

From Stdlib Require Import ZArith List Lia Bool.
From Stdlib Require String.
From coqutil Require Import Byte Word.LittleEndianList.
Import ListNotations.
Local Open Scope Z_scope.

(** ** Machine integers *)

Definition wrap (w : Z) (z : Z) : Z := z mod 2 ^ w.

(** [(int)x] for a value that does not fit: the low 32 bits, read as signed. *)
Definition to_int (z : Z) : Z := (z + 2 ^ 31) mod 2 ^ 32 - 2 ^ 31.

(** ** The mapped buffer *)

Definition image := list byte.

Definition in_bounds (n : nat) (m : image) (off : Z) : bool :=
  (0 <=? off) && (off + Z.of_nat n <=? Z.of_nat (length m)).

(** [*(uintN_t * )(elf + off)] for [N = 8 * n]. *)
Definition load (n : nat) (m : image) (off : Z) : option Z :=
  if in_bounds n m off
  then Some (le_combine (firstn n (skipn (Z.to_nat off) m)))
  else None.

(** [*(uintN_t * )(elf + off) = v]; the value is cut to [n] bytes. *)
Definition store (n : nat) (m : image) (off : Z) (v : Z) : option image :=
  if in_bounds n m off
  then Some (firstn (Z.to_nat off) m ++ le_split n v
               ++ skipn (Z.to_nat off + n) m)
  else None.

(** A small error monad for faulting code. *)
Definition bind {A B} (x : option A) (f : A -> option B) : option B :=
  match x with Some a => f a | None => None end.

Notation "x <- c ;; k" := (bind c (fun x => k))
  (at level 61, c at next level, right associativity).
Notation "' p <- c ;; k" := (bind c (fun p => k))
  (at level 61, p pattern, c at next level, right associativity).

(** ** Layout of the ELF64 structures

    Field offsets and sizes of <elf.h>: [Elf64_Ehdr] is 64 bytes,
    [Elf64_Shdr] 64 bytes, [Elf64_Phdr] 56 bytes.  The functions ending in
    [_p] give the position of a field of entry [i] of a table that starts at
    buffer offset [tbl] (the C expression [&tbl[i].field]). *)

Definition PF_X : Z := 1.

Definition e_phoff_p : Z := 32.
Definition e_shoff_p : Z := 40.

Definition e_phoff (m : image) : option Z := load 8 m e_phoff_p.
Definition e_shoff (m : image) : option Z := load 8 m e_shoff_p.
Definition e_phnum (m : image) : option Z := load 2 m 56.
Definition e_shnum (m : image) : option Z := load 2 m 60.
Definition e_shstrndx (m : image) : option Z := load 2 m 62.

Definition sh_name_p (tbl i : Z) : Z := tbl + 64 * i.
Definition sh_addr_p (tbl i : Z) : Z := tbl + 64 * i + 16.
Definition sh_offset_p (tbl i : Z) : Z := tbl + 64 * i + 24.
Definition sh_size_p (tbl i : Z) : Z := tbl + 64 * i + 32.

Definition p_flags_p (tbl i : Z) : Z := tbl + 56 * i + 4.
Definition p_offset_p (tbl i : Z) : Z := tbl + 56 * i + 8.
Definition p_vaddr_p (tbl i : Z) : Z := tbl + 56 * i + 16.
Definition p_filesz_p (tbl i : Z) : Z := tbl + 56 * i + 32.
Definition p_memsz_p (tbl i : Z) : Z := tbl + 56 * i + 40.

(** Typed reads of the fields ([tbl[i].field]). *)
Definition sh_name (m : image) (tbl i : Z) := load 4 m (sh_name_p tbl i).
Definition sh_addr (m : image) (tbl i : Z) := load 8 m (sh_addr_p tbl i).
Definition sh_offset (m : image) (tbl i : Z) := load 8 m (sh_offset_p tbl i).
Definition sh_size (m : image) (tbl i : Z) := load 8 m (sh_size_p tbl i).

Definition p_flags (m : image) (tbl i : Z) := load 4 m (p_flags_p tbl i).
Definition p_offset (m : image) (tbl i : Z) := load 8 m (p_offset_p tbl i).
Definition p_vaddr (m : image) (tbl i : Z) := load 8 m (p_vaddr_p tbl i).
Definition p_filesz (m : image) (tbl i : Z) := load 8 m (p_filesz_p tbl i).
Definition p_memsz (m : image) (tbl i : Z) := load 8 m (p_memsz_p tbl i).

(** ** What the program takes from its surroundings

    [getpagesize()], the constant [MAX_SH_NAMELEN] and the size of
    [struct shinfo] (both of [elfio.h], which is not part of the sources),
    whether [malloc] gives memory for a request of a given size, whether
    [open] gives a descriptor, and what the [k]-th [write] of the exporter
    returns when asked for [count] bytes. *)

Record env := {
  getpagesize : Z;
  MAX_SH_NAMELEN : nat;
  sizeof_shinfo : Z;
  malloc_ok : Z -> bool;
  open_ok : bool;
  write_ret : nat -> Z -> Z
}.

(** Modelled from the spec: [struct shinfo] is declared in [elfio.h], which
    is not among the sources.  Section 3 of the spec gives its content (the
    display name, a reference to the size field, a reference to the offset
    field, the slack); the code assigns the two references with casts to
    [uint32_t *] (lines 270-271), so what is read and written through them
    is four bytes.  A reference is a position in the buffer. *)
Module shinfo.
Record t := {
  name : list byte;
  offset : Z;
  size : Z;
  slackspace : Z
}.
End shinfo.

(** Modelled from the spec: [struct patchinfo] is declared in [elfio.h]
    too.  Section 3 of the spec gives its content ([base] and the reserved
    size); the code prints [base] with [%u] and compares it with
    [(uint32_t)n] (lines 193-195), and prints [size] with [%lu] (line 141):
    [base] is a [uint32_t] and [size] a [size_t]. *)
Module patchinfo.
Record t := {
  base : Z;
  size : Z
}.
End patchinfo.

(** [e_shnum] and [e_phnum] are 16-bit, so no loop below runs more than
    65535 times; the bound is re-read from the buffer on every round as the
    C loops do. *)
Definition loop_fuel : nat := Z.to_nat 65537.

(** ** [expand_section] *)

(** Lines 147-152. *)
Fixpoint adjust_sections (fuel : nat) (m : image)
         (shtable base adjust i : Z) : option image :=
  match fuel with
  | O => None
  | S fuel =>
      shnum <- e_shnum m ;;
      if i <? shnum then
        sh_offset <- sh_offset m shtable i ;;
        if sh_offset <? base then
          adjust_sections fuel m shtable base adjust (i + 1)
        else
          let newoff := wrap 32 (wrap 64 (sh_offset + adjust)) in
          m <- store 8 m (sh_offset_p shtable i) newoff ;;
          adjust_sections fuel m shtable base adjust (i + 1)
      else Some m
  end.

(** Lines 157-164, the body of the second loop. *)
Definition adjust_segment (m : image) (phdr base psize i : Z) : option image :=
  p_offset <- p_offset m phdr i ;;
  m <- (if base <? p_offset
        then store 8 m (p_offset_p phdr i) (wrap 64 (p_offset + psize))
        else Some m) ;;
  p_flags <- p_flags m phdr i ;;
  if Z.land p_flags PF_X =? 0 then Some m
  else
    p_filesz <- p_filesz m phdr i ;;
    m <- store 8 m (p_filesz_p phdr i) (wrap 64 (p_filesz + psize)) ;;
    p_memsz <- p_memsz m phdr i ;;
    store 8 m (p_memsz_p phdr i) (wrap 64 (p_memsz + psize)).

(** Lines 156-165. *)
Fixpoint adjust_segments (fuel : nat) (m : image)
         (phdr base psize i : Z) : option image :=
  match fuel with
  | O => None
  | S fuel =>
      phnum <- e_phnum m ;;
      if i <? phnum then
        m <- adjust_segment m phdr base psize i ;;
        adjust_segments fuel m phdr base psize (i + 1)
      else Some m
  end.

Definition expand_section (e : env) (m : image) (sinfo : shinfo.t)
  : option (image * patchinfo.t) :=
  (* Set patch information *)
  size <- load 4 m (shinfo.size sinfo) ;;
  offset <- load 4 m (shinfo.offset sinfo) ;;
  let base := wrap 32 (wrap 64 (offset + size)) in
  let psize := wrap 64 (getpagesize e) in
  (* Fix up size *)
  m <- store 4 m (shinfo.size sinfo)
         (wrap 64 (size + shinfo.slackspace sinfo)) ;;
  let adjust := wrap 64 (getpagesize e) in
  shtable <- e_shoff m ;;
  m <- adjust_sections loop_fuel m shtable base adjust 0 ;;
  phdr <- e_phoff m ;;
  m <- adjust_segments loop_fuel m phdr base psize 0 ;;
  shoff <- e_shoff m ;;
  m <- (if base <? shoff
        then store 8 m e_shoff_p (wrap 64 (shoff + psize))
        else Some m) ;;
  phoff <- e_phoff m ;;
  m <- (if base <? phoff
        then store 8 m e_phoff_p (wrap 64 (phoff + psize))
        else Some m) ;;
  Some (m, {| patchinfo.base := base; patchinfo.size := psize |}).

(** ** [find_exe_seg_last_section] *)

(** [strncpy(dest, elf + src, n)]: bytes up to the first NUL, then NULs up
    to [n] bytes in all. *)
Fixpoint strncpy (n : nat) (m : image) (src : Z) : option (list byte) :=
  match n with
  | O => Some []
  | S n' =>
      c <- load 1 m src ;;
      if c =? 0 then Some (repeat Byte.x00 n)
      else
        rest <- strncpy n' m (src + 1) ;;
        Some (byte.of_Z c :: rest)
  end.

(** A loop of the locator either runs on with the descriptor found so far
    or has executed [return]. *)
Inductive scan :=
| Scanning (sinfo : option shinfo.t)
| Returned (r : option shinfo.t).

(** Lines 261-274. *)
Fixpoint find_sections (fuel : nat) (e : env) (m : image)
         (shtable shstr segment_end j : Z) (sinfo : option shinfo.t)
  : option scan :=
  match fuel with
  | O => None
  | S fuel =>
      shnum <- e_shnum m ;;
      if j <? shnum then
        sh_addr <- sh_addr m shtable j ;;
        sh_size <- sh_size m shtable j ;;
        if wrap 64 (sh_addr + sh_size) =? segment_end then
          if malloc_ok e (sizeof_shinfo e) then
            sh_name <- sh_name m shtable j ;;
            nm <- strncpy (MAX_SH_NAMELEN e) m (shstr + sh_name) ;;
            find_sections fuel e m shtable shstr segment_end (j + 1)
              (Some {| shinfo.name := nm;
                       shinfo.offset := sh_offset_p shtable j;
                       shinfo.size := sh_size_p shtable j;
                       shinfo.slackspace := getpagesize e |})
          else Some (Returned None)
        else find_sections fuel e m shtable shstr segment_end (j + 1) sinfo
      else Some (Scanning sinfo)
  end.

(** Lines 256-276. *)
Fixpoint find_segments (fuel : nat) (e : env) (m : image)
         (phdr shtable shstr i : Z) (sinfo : option shinfo.t)
  : option scan :=
  match fuel with
  | O => None
  | S fuel =>
      phnum <- e_phnum m ;;
      if i <? phnum then
        p_flags <- p_flags m phdr i ;;
        if Z.land p_flags PF_X =? 0 then
          find_segments fuel e m phdr shtable shstr (i + 1) sinfo
        else
          p_vaddr <- p_vaddr m phdr i ;;
          p_memsz <- p_memsz m phdr i ;;
          let segment_end := wrap 32 (wrap 64 (p_vaddr + p_memsz)) in
          r <- find_sections loop_fuel e m shtable shstr segment_end 0 sinfo ;;
          match r with
          | Scanning sinfo =>
              find_segments fuel e m phdr shtable shstr (i + 1) sinfo
          | Returned v => Some (Returned v)
          end
      else Some (Scanning sinfo)
  end.

(** The result is [None] for a fault, [Some None] for [NULL]. *)
Definition find_exe_seg_last_section (e : env) (m : image)
  : option (option shinfo.t) :=
  phdr <- e_phoff m ;;
  shtable <- e_shoff m ;;
  shstrndx <- e_shstrndx m ;;
  shstr <- sh_offset m shtable shstrndx ;;
  r <- find_segments loop_fuel e m phdr shtable shstr 0 None ;;
  match r with
  | Scanning sinfo => Some sinfo
  | Returned v => Some v
  end.

(** ** [export_elf_file] *)

(** The [k]-th [write(fd, buf, count)]: [buf] is what lies between the
    pointer and the end of its object, and must hold [count] bytes.  The
    file grows by as many bytes as the call reports. *)
Definition write (e : env) (k : nat) (file buf : list byte) (count : Z)
  : option (list byte * Z) :=
  if count <=? Z.of_nat (length buf) then
    let r := write_ret e k count in
    Some (file ++ firstn (Z.to_nat r) (firstn (Z.to_nat count) buf), r)
  else None.

(** What the exporter leaves behind: its return value and the file at
    [outfile] ([None] when it was not created). *)
Record exported := {
  rv : bool;
  outfile : option (list byte)
}.

Definition export_elf_file (e : env) (m : image) (payload : list byte)
           (pinfo : patchinfo.t) : option exported :=
  let done (r : bool) (f : list byte) :=
    Some {| rv := r; outfile := Some f |} in
  let base := patchinfo.base pinfo in
  let payload_size := Z.of_nat (length payload) in
  let ctx_size := Z.of_nat (length m) in
  if negb (open_ok e) then Some {| rv := false; outfile := None |}
  else
    '(f, n) <- write e 0 [] m base ;;
    if negb (wrap 32 (to_int n) =? base) then done false f
    else
      '(f, n) <- write e 1 f payload payload_size ;;
      if negb (wrap 64 (to_int n) =? payload_size) then done false f
      else
        let padsize := wrap 64 (patchinfo.size pinfo - payload_size) in
        if negb (malloc_ok e padsize) then done false f
        else
          '(f, n) <- write e 2 f (repeat Byte.x00 (Z.to_nat padsize)) padsize ;;
          if negb (wrap 64 (to_int n) =? padsize) then done false f
          else
            let remaining := wrap 64 (ctx_size - base) in
            if remaining =? 0 then done true f
            else
              '(f, n) <- write e 3 f (skipn (Z.to_nat base) m) remaining ;;
              if negb (wrap 64 (to_int n) =? remaining) then done false f
              else done true f.

(** ** Vocabulary of the statements

    Nothing below is executed by the program; these definitions name what
    the theorems talk about. *)

(** What the first loop of [expand_section] leaves in an [sh_offset] that
    held [o], and what the second loop leaves in a [p_offset] that held [o]
    and in the [p_filesz] or [p_memsz] [v] of an entry with flags [fl]. *)
Definition shifted_sh_offset (base adjust o : Z) : Z :=
  if o <? base then o else wrap 32 (wrap 64 (o + adjust)).

Definition shifted_p_offset (base psize o : Z) : Z :=
  if base <? o then wrap 64 (o + psize) else o.

Definition grown (psize fl v : Z) : Z :=
  if Z.land fl PF_X =? 0 then v else wrap 64 (v + psize).

(** The range of [k] bytes at [off] misses the fields of entry [t] of the
    program header table that the second loop may write: [p_offset], and
    [p_filesz] with [p_memsz] behind it. *)
Definition off_phdr_fields (phdr t : Z) (k : nat) (off : Z) : Prop :=
  (off + Z.of_nat k <= p_offset_p phdr t \/ p_offset_p phdr t + 8 <= off) /\
  (off + Z.of_nat k <= p_filesz_p phdr t \/ p_filesz_p phdr t + 16 <= off).

(** The two sides of the comparison of line 262: the 64-bit sum
    [sh_addr + sh_size], and [segment_end], the sum [p_vaddr + p_memsz]
    stored in a [uint32_t] (line 260). *)
Definition sh_end (m : image) (tbl j : Z) : option Z :=
  a <- sh_addr m tbl j ;; s <- sh_size m tbl j ;; Some (wrap 64 (a + s)).

Definition segment_end (m : image) (tbl i : Z) : option Z :=
  v <- p_vaddr m tbl i ;; s <- p_memsz m tbl i ;;
  Some (wrap 32 (wrap 64 (v + s))).

(** The test of line 257. *)
Definition executable (m : image) (tbl i : Z) : option bool :=
  fl <- p_flags m tbl i ;; Some (negb (Z.land fl PF_X =? 0)).

(** Segment [i] and section [j] pass the tests of lines 257 and 262. *)
Definition matches (m : image) (phdr shtable i j : Z) : Prop :=
  executable m phdr i = Some true /\
  exists v, sh_end m shtable j = Some v /\ segment_end m phdr i = Some v.

(** The name copied at line 269 and the descriptor filled in at lines
    269-272 for section [j]. *)
Definition section_name (e : env) (m : image) (tbl shstr j : Z)
  : option (list byte) :=
  n <- sh_name m tbl j ;; strncpy (MAX_SH_NAMELEN e) m (shstr + n).

Definition descriptor (e : env) (tbl j : Z) (nm : list byte) : shinfo.t :=
  {| shinfo.name := nm;
     shinfo.offset := sh_offset_p tbl j;
     shinfo.size := sh_size_p tbl j;
     shinfo.slackspace := getpagesize e |}.

(** [sinfo] points at the [sh_offset] and [sh_size] of section [j] of the
    image and carries one page of slack. *)
Definition describes (e : env) (m : image) (j : Z) (sinfo : shinfo.t) : bool :=
  match e_shoff m, e_shnum m with
  | Some shoff, Some shnum =>
      (0 <=? j) && (j <? shnum)
      && (shinfo.offset sinfo =? sh_offset_p shoff j)
      && (shinfo.size sinfo =? sh_size_p shoff j)
      && (shinfo.slackspace sinfo =? getpagesize e)
  | _, _ => false
  end.

(** The ELF header is followed, inside the buffer, by a program header
    table and a section header table that overlap neither the header nor
    each other. *)
Definition tables_ok (m : image) : bool :=
  match e_phoff m, e_phnum m, e_shoff m, e_shnum m with
  | Some phoff, Some phnum, Some shoff, Some shnum =>
      (64 <=? phoff) && (phoff + 56 * phnum <=? Z.of_nat (length m))
      && (64 <=? shoff) && (shoff + 64 * shnum <=? Z.of_nat (length m))
      && ((phoff + 56 * phnum <=? shoff) || (shoff + 64 * shnum <=? phoff))
  | _, _, _, _ => false
  end.

(** [getpagesize()] is a positive [int]. *)
Definition page_ok (e : env) : bool :=
  (0 <? getpagesize e) && (getpagesize e <? 2 ^ 31).

(** The locator can run to its end: [malloc] gives it its descriptor, the
    entry [e_shstrndx] of the section table is in the buffer, and so is
    the name of every section. *)
Definition locator_ok (e : env) (m : image) : bool :=
  malloc_ok e (sizeof_shinfo e) &&
  match e_shoff m, e_shnum m, e_shstrndx m with
  | Some shoff, Some shnum, Some ndx =>
      match sh_offset m shoff ndx with
      | Some shstr =>
          forallb (fun j => match section_name e m shoff shstr j with
                            | Some _ => true
                            | None => false
                            end)
                  (map Z.of_nat (seq 0 (Z.to_nat shnum)))
      | None => false
      end
  | _, _, _ => false
  end.

(** The boundary that [expand_section] will compute from a descriptor
    (lines 136-137). *)
Definition patch_base (m : image) (sinfo : shinfo.t) : option Z :=
  size <- load 4 m (shinfo.size sinfo) ;;
  offset <- load 4 m (shinfo.offset sinfo) ;;
  Some (wrap 32 (wrap 64 (offset + size))).

(** The first two stages one after the other: the relocator runs on the
    descriptor that the locator returned. *)
Definition locate_and_expand (e : env) (m : image)
  : option (image * patchinfo.t) :=
  r <- find_exe_seg_last_section e m ;;
  match r with
  | Some sinfo => expand_section e m sinfo
  | None => None
  end.

(** What the locator's loops keep true of the descriptor they carry: it is
    the descriptor of a section of the table; a [return] inside the loops
    returns [NULL]. *)
Definition is_site (e : env) (shtable shnum : Z) (s : option shinfo.t)
  : Prop :=
  forall x, s = Some x ->
            exists j nm, 0 <= j < shnum /\ x = descriptor e shtable j nm.

Definition is_site_scan (e : env) (shtable shnum : Z) (r : scan) : Prop :=
  match r with
  | Scanning s => is_site e shtable shnum s
  | Returned v => v = None
  end.

(** ** Concrete images

    Builders for the three ELF64 structures (unused fields zero) and a small
    but complete image: header, two program headers, the contents of
    [.text], [.data] and [.shstrtab], and four section headers at the end of
    the file as linkers place them. *)

Definition mk_ehdr (phoff shoff phnum shnum shstrndx : Z) : list byte :=
  le_split 4 0x464c457f ++ le_split 4 0x00010102 ++ le_split 8 0
  ++ le_split 2 2 ++ le_split 2 62 ++ le_split 4 1 ++ le_split 8 0
  ++ le_split 8 phoff ++ le_split 8 shoff ++ le_split 4 0
  ++ le_split 2 64 ++ le_split 2 56 ++ le_split 2 phnum
  ++ le_split 2 64 ++ le_split 2 shnum ++ le_split 2 shstrndx.

Definition mk_phdr (flags offset vaddr filesz memsz : Z) : list byte :=
  le_split 4 1 ++ le_split 4 flags ++ le_split 8 offset ++ le_split 8 vaddr
  ++ le_split 8 vaddr ++ le_split 8 filesz ++ le_split 8 memsz
  ++ le_split 8 4096.

Definition mk_shdr (name addr offset size : Z) : list byte :=
  le_split 4 name ++ le_split 4 1 ++ le_split 8 0 ++ le_split 8 addr
  ++ le_split 8 offset ++ le_split 8 size ++ le_split 4 0 ++ le_split 4 0
  ++ le_split 8 1 ++ le_split 8 0.

(** [\0.text\0.data\0.shstrtab\0], padded to 24 bytes. *)
Definition shstrtab_bytes : list byte :=
  map byte.of_Z
      [0; 46; 116; 101; 120; 116; 0; 46; 100; 97; 116; 97; 0;
       46; 115; 104; 115; 116; 114; 116; 97; 98; 0; 0].

(** An image whose executable segment starts at [vaddr] and ends with
    [.text]; [.data] follows directly in the file.  [text_off] and
    [data_off] are the [sh_offset] fields written for [.text] and [.data]
    (176 and 192 in a well-formed file). *)
Definition mk_image (vaddr text_off data_off : Z) : image :=
  mk_ehdr 64 224 2 4 3
  ++ mk_phdr 5 0 vaddr 192 192
  ++ mk_phdr 6 192 (vaddr + 0x200000 + 192) 8 8
  ++ map byte.of_Z (repeat 0x90 15 ++ [0xc3])
  ++ le_split 8 0x1122334455667788
  ++ shstrtab_bytes
  ++ mk_shdr 0 0 0 0
  ++ mk_shdr 1 (vaddr + 176) text_off 16
  ++ mk_shdr 7 (vaddr + 0x200000 + 192) data_off 8
  ++ mk_shdr 13 0 200 24.

Definition sample_image : image := mk_image 0x400000 176 192.

(** Surroundings in which everything succeeds: 4 KiB pages, every [write]
    complete, [malloc] refusing only what exceeds [PTRDIFF_MAX]. *)
Definition sample_env : env := {|
  getpagesize := 4096;
  MAX_SH_NAMELEN := 32;
  sizeof_shinfo := 56;
  malloc_ok := fun n => n <=? 2 ^ 63 - 1;
  open_ok := true;
  write_ret := fun _ count => count
|}.

(** Three images that differ from [sample_image] in one field each: the
    [sh_offset] of [.data] is 2^32; the [sh_offset] of [.text] is
    2^32 + 176; the image is linked at the address 2^32. *)
Definition image_data_offset_4G : image := mk_image 0x400000 176 0x100000000.
Definition image_text_offset_4G : image := mk_image 0x400000 0x1000000b0 192.
Definition image_linked_at_4G : image := mk_image 0x100000000 176 192.

(** The descriptor of [.text], section 1 of [sample_image]. *)
Definition sample_site : shinfo.t :=
  descriptor sample_env 224 1
    (map byte.of_Z [46; 116; 101; 120; 116] ++ repeat Byte.x00 27).

(** A three-byte payload ([nop; nop; ret]). *)
Definition sample_payload : list byte := map byte.of_Z [0x90; 0x90; 0xc3].

(** ** The loaders: [_get_file_size], [load_elf], [load_payload], [unload_elf]

    These functions talk to the operating system.  What it answers is
    given by [os]; what the process holds afterwards (open descriptors,
    mappings, heap blocks) is threaded through the calls as a [process]. *)

(** [(void * )-1], what a failed [mmap] returns. *)
Definition MAP_FAILED : Z := 2 ^ 64 - 1.

(** [stat_size path] is [st_size] ([None] when [stat] fails); [open_fd] is
    what [open] returns, -1 or a descriptor; [mmap_addr size fd] what
    [mmap(NULL, size, ..., fd, 0)] returns, [MAP_FAILED] or an address;
    [malloc_addr n] what [malloc(n)] returns, 0 for [NULL].  The two sizes
    are those of [drow_ctx_t] and [payload_t], declared in [drow.h], which
    is not part of the sources. *)
Record os := {
  stat_size : String.string -> option Z;
  open_fd : String.string -> Z;
  mmap_addr : Z -> Z -> Z;
  malloc_addr : Z -> Z;
  sizeof_drow_ctx : Z;
  sizeof_payload : Z
}.

Record process := {
  fds : list Z;
  maps : list (Z * Z);
  heap : list Z
}.

(** Removes the first occurrence of [x]. *)
Fixpoint remove_first {A} (eqb : A -> A -> bool) (x : A) (l : list A)
  : list A :=
  match l with
  | [] => []
  | y :: l' => if eqb x y then l' else y :: remove_first eqb x l'
  end.

Definition sys_open (o : os) (path : String.string) (p : process)
  : Z * process :=
  let fd := open_fd o path in
  (fd, if fd =? -1 then p
       else {| fds := fd :: fds p; maps := maps p; heap := heap p |}).

(** [close] of a descriptor that is not open changes nothing ([EBADF]). *)
Definition sys_close (fd : Z) (p : process) : process :=
  {| fds := remove_first Z.eqb fd (fds p); maps := maps p; heap := heap p |}.

Definition sys_mmap (o : os) (size fd : Z) (p : process) : Z * process :=
  let a := mmap_addr o size fd in
  (a, if a =? MAP_FAILED then p
      else {| fds := fds p; maps := (a, size) :: maps p; heap := heap p |}).

Definition pair_eqb (x y : Z * Z) : bool :=
  (fst x =? fst y) && (snd x =? snd y).

(** [munmap] of [MAP_FAILED], or of a range that is not mapped, changes
    nothing. *)
Definition sys_munmap (a size : Z) (p : process) : process :=
  if a =? MAP_FAILED then p
  else {| fds := fds p;
          maps := remove_first pair_eqb (a, size) (maps p);
          heap := heap p |}.

Definition sys_malloc (o : os) (n : Z) (p : process) : Z * process :=
  let a := malloc_addr o n in
  (a, if a =? 0 then p
      else {| fds := fds p; maps := maps p; heap := a :: heap p |}).

(** [free(NULL)] does nothing. *)
Definition sys_free (a : Z) (p : process) : process :=
  if a =? 0 then p
  else {| fds := fds p; maps := maps p;
          heap := remove_first Z.eqb a (heap p) |}.

(** Modelled from the spec: [drow_ctx_t] and [payload_t] are declared in
    [drow.h], which is not among the sources.  Section 3 of the spec gives
    their content (the mapped buffer and its length); the fields are the
    ones the code assigns at lines 54-56 and 99-101. *)
Module drow_ctx.
Record t := {
  fd : Z;
  size : Z;
  elf : Z
}.
End drow_ctx.

Module payload_t.
Record t := {
  fd : Z;
  data : Z;
  size : Z
}.
End payload_t.

(** Lines 14-20; the [off_t] [st_size] is returned as an [int]. *)
Definition _get_file_size (o : os) (filepath : String.string) : Z :=
  match stat_size o filepath with
  | None => -1
  | Some st_size => to_int st_size
  end.

(** Lines 22-65.  The result is the returned flag, the pointer left in
    [*ctx] with what it points to ([None] for [NULL]), and the process. *)
Definition load_elf (o : os) (elffile : String.string) (p : process)
  : bool * option (Z * drow_ctx.t) * process :=
  let size := _get_file_size o elffile in
  if size <? 0 then (false, None, p)
  else
    let '(fd, p) := sys_open o elffile p in
    if fd =? -1 then (false, None, p)
    else
      let '(elf, p) := sys_mmap o size fd p in
      if elf =? 0 then
        (* error: *ctx is still NULL *)
        let p := sys_free 0 p in
        let p := if elf =? 0 then p else sys_munmap elf size p in
        let p := if fd =? -1 then p else sys_close fd p in
        (false, None, p)
      else
        let '(ctx, p) := sys_malloc o (sizeof_drow_ctx o) p in
        if ctx =? 0 then
          (* error: *ctx is the NULL that malloc returned *)
          let p := sys_free ctx p in
          let p := if elf =? 0 then p else sys_munmap elf size p in
          let p := if fd =? -1 then p else sys_close fd p in
          (false, None, p)
        else
          (true,
           Some (ctx, {| drow_ctx.fd := fd; drow_ctx.size := size;
                         drow_ctx.elf := elf |}),
           p).

(** Lines 67-110. *)
Definition load_payload (o : os) (payload_file : String.string) (p : process)
  : bool * option (Z * payload_t.t) * process :=
  let size := _get_file_size o payload_file in
  if size <? 0 then (false, None, p)
  else
    let '(fd, p) := sys_open o payload_file p in
    if fd =? -1 then (false, None, p)
    else
      let '(data, p) := sys_mmap o size fd p in
      if data =? 0 then
        let p := sys_free 0 p in
        let p := if data =? 0 then p else sys_munmap data size p in
        let p := if fd =? -1 then p else sys_close fd p in
        (false, None, p)
      else
        let '(payload, p) := sys_malloc o (sizeof_payload o) p in
        if payload =? 0 then
          let p := sys_free payload p in
          let p := if data =? 0 then p else sys_munmap data size p in
          let p := if fd =? -1 then p else sys_close fd p in
          (false, None, p)
        else
          (true,
           Some (payload, {| payload_t.fd := fd; payload_t.data := data;
                             payload_t.size := size |}),
           p).

(** Lines 112-122; [ctx] is [None] for [NULL]. *)
Definition unload_elf (ctx : option drow_ctx.t) (p : process) : process :=
  match ctx with
  | None => p
  | Some c =>
      let p := if drow_ctx.elf c =? 0 then p
               else sys_munmap (drow_ctx.elf c) (drow_ctx.size c) p in
      if drow_ctx.fd c =? -1 then p else sys_close (drow_ctx.fd c) p
  end.

(** ** More vocabulary of the statements *)

(** The range of [k] bytes at [off] misses everything [expand_section] may
    write for the descriptor of section [j]: [e_phoff] and [e_shoff], the
    low half of the target's [sh_size], every [sh_offset], and the
    [p_offset], [p_filesz] and [p_memsz] of every program header. *)
Definition untouched (phoff phnum shoff shnum j : Z) (k : nat) (off : Z)
  : Prop :=
  (off + Z.of_nat k <= e_phoff_p \/ e_shoff_p + 8 <= off) /\
  (off + Z.of_nat k <= sh_size_p shoff j \/ sh_size_p shoff j + 4 <= off) /\
  (forall t, 0 <= t < shnum ->
             off + Z.of_nat k <= sh_offset_p shoff t \/
             sh_offset_p shoff t + 8 <= off) /\
  (forall t, 0 <= t < phnum -> off_phdr_fields phoff t k off).

(** The complete output file for an image, a payload and a patch info. *)
Definition layout (m : image) (payload : list byte) (pinfo : patchinfo.t)
  : list byte :=
  firstn (Z.to_nat (patchinfo.base pinfo)) m
  ++ payload
  ++ repeat Byte.x00
       (Z.to_nat (patchinfo.size pinfo - Z.of_nat (length payload)))
  ++ skipn (Z.to_nat (patchinfo.base pinfo)) m.

(** The bytes of section [t] as the table at [tbl] places them in the
    file: [sh_size] bytes from [sh_offset] on. *)
Definition section_bytes (m : image) (tbl t : Z) : option (list byte) :=
  o <- sh_offset m tbl t ;;
  s <- sh_size m tbl t ;;
  if o + s <=? Z.of_nat (length m)
  then Some (firstn (Z.to_nat s) (skipn (Z.to_nat o) m))
  else None.

(** [write] returns -1 or the number of bytes written, at most [count]. *)
Definition posix_writes (e : env) : Prop :=
  forall k count, 0 <= count -> -1 <= write_ret e k count <= count.

(** An operating system that answers every call of the loaders with
    success, for a file of 480 bytes; the same with a failing [malloc];
    and the same with a failing [mmap]. *)
Definition sample_os : os := {|
  stat_size := fun _ => Some 480;
  open_fd := fun _ => 3;
  mmap_addr := fun _ _ => 0x7f0000000000;
  malloc_addr := fun _ => 0x55550000;
  sizeof_drow_ctx := 24;
  sizeof_payload := 24
|}.

Definition sample_os_no_memory : os := {|
  stat_size := fun _ => Some 480;
  open_fd := fun _ => 3;
  mmap_addr := fun _ _ => 0x7f0000000000;
  malloc_addr := fun _ => 0;
  sizeof_drow_ctx := 24;
  sizeof_payload := 24
|}.

Definition sample_os_no_mapping : os := {|
  stat_size := fun _ => Some 480;
  open_fd := fun _ => 3;
  mmap_addr := fun _ _ => MAP_FAILED;
  malloc_addr := fun _ => 0x55550000;
  sizeof_drow_ctx := 24;
  sizeof_payload := 24
|}.

(** A file of 4 GiB and 480 bytes. *)
Definition sample_os_huge_file : os := {|
  stat_size := fun _ => Some (2 ^ 32 + 480);
  open_fd := fun _ => 3;
  mmap_addr := fun _ _ => 0x7f0000000000;
  malloc_addr := fun _ => 0x55550000;
  sizeof_drow_ctx := 24;
  sizeof_payload := 24
|}.

(** The two file names of a run. *)
Module paths.
Import String.
Definition elf : string := "a.out"%string.
Definition blob : string := "payload.bin"%string.
End paths.

(** A process that already holds the three standard descriptors. *)
Definition sample_process : process :=
  {| fds := [0; 1; 2]; maps := []; heap := [] |}.

(** Surroundings like [sample_env] in which [malloc] always fails. *)
Definition sample_env_no_memory : env := {|
  getpagesize := 4096;
  MAX_SH_NAMELEN := 32;
  sizeof_shinfo := 56;
  malloc_ok := fun _ => false;
  open_ok := true;
  write_ret := fun _ count => count
|}.

(** The descriptor of [.shstrtab], section 3 of [sample_image], which ends
    where the section header table starts. *)
Definition sample_site_shstrtab : shinfo.t :=
  descriptor sample_env 224 3
    (map byte.of_Z [46; 115; 104; 115; 116; 114; 116; 97; 98]
     ++ repeat Byte.x00 23).

(** The descriptor of the empty section 0 of [sample_image]. *)
Definition sample_site_null : shinfo.t :=
  descriptor sample_env 224 0 (repeat Byte.x00 32).

(** Surroundings like [sample_env] whose [malloc(0)] returns [NULL], as
    the C standard allows, and a payload of exactly one page. *)
Definition sample_env_no_empty_block : env := {|
  getpagesize := 4096;
  MAX_SH_NAMELEN := 32;
  sizeof_shinfo := 56;
  malloc_ok := fun n => (0 <? n) && (n <=? 2 ^ 63 - 1);
  open_ok := true;
  write_ret := fun _ count => count
|}.

Definition sample_page_payload : list byte := repeat (byte.of_Z 0x90) 4096.

(** Closes a conjunction of comparisons between concrete numbers. *)
Ltac by_bounds :=
  vm_compute; repeat split; first [reflexivity | discriminate].

(** Closes a goal about concrete data by evaluation. *)
Ltac by_computation :=
  vm_compute; first [reflexivity | discriminate | intros; reflexivity].

(** ** Facts about [load] and [store] *)

Section Memory.

Implicit Types (m : image) (n : nat) (off v : Z).

Lemma firstn_skipn_prefix (l : image) (a b k : nat) :
  (b + k <= a)%nat ->
  firstn k (skipn b (firstn a l)) = firstn k (skipn b l).
Proof.
  intros H. destruct (Nat.le_gt_cases (length l) a) as [L|L].
  - rewrite (firstn_all2 l L). reflexivity.
  - rewrite <- (firstn_skipn a l) at 2.
    rewrite skipn_app, firstn_app, length_skipn, length_firstn.
    replace (k - (Nat.min a (length l) - b))%nat with 0%nat by lia.
    now rewrite firstn_O, app_nil_r.
Qed.

Lemma in_bounds_spec n m off :
  in_bounds n m off = true <->
  0 <= off /\ off + Z.of_nat n <= Z.of_nat (length m).
Proof.
  unfold in_bounds. rewrite andb_true_iff, Z.leb_le, Z.leb_le. tauto.
Qed.

Lemma load_Some n m off :
  0 <= off -> off + Z.of_nat n <= Z.of_nat (length m) ->
  exists v, load n m off = Some v.
Proof.
  intros H0 H1. unfold load.
  replace (in_bounds n m off) with true; eauto.
  symmetry. apply in_bounds_spec. lia.
Qed.

Lemma load_inv n m off v :
  load n m off = Some v ->
  0 <= off /\ off + Z.of_nat n <= Z.of_nat (length m) /\
  0 <= v < 2 ^ (8 * Z.of_nat n).
Proof.
  unfold load. destruct (in_bounds n m off) eqn:E; [|discriminate].
  apply in_bounds_spec in E. intros [= <-].
  repeat split; try lia.
  - apply le_combine_bound.
  - eapply Z.lt_le_trans; [apply le_combine_bound|].
    apply Z.pow_le_mono_r; [lia|].
    rewrite length_firstn. lia.
Qed.

Lemma store_Some n m off v :
  0 <= off -> off + Z.of_nat n <= Z.of_nat (length m) ->
  exists m', store n m off v = Some m'.
Proof.
  intros H0 H1. unfold store.
  replace (in_bounds n m off) with true; eauto.
  symmetry. apply in_bounds_spec. lia.
Qed.

Lemma store_inv n m off v m' :
  store n m off v = Some m' ->
  0 <= off /\ off + Z.of_nat n <= Z.of_nat (length m) /\
  length m' = length m.
Proof.
  unfold store. destruct (in_bounds n m off) eqn:E; [|discriminate].
  apply in_bounds_spec in E. intros [= <-].
  repeat split; try lia.
  rewrite !length_app, length_firstn, length_le_split, length_skipn. lia.
Qed.

Lemma store_length n m off v m' :
  store n m off v = Some m' -> length m' = length m.
Proof. intros H. apply store_inv in H. tauto. Qed.

(** Reading back what was just written gives the value cut to [n] bytes. *)
Lemma load_store_same n m off v m' :
  store n m off v = Some m' ->
  load n m' off = Some (v mod 2 ^ (Z.of_nat n * 8)).
Proof.
  intros H. pose proof (store_inv _ _ _ _ _ H) as (H0 & H1 & HL).
  unfold load. replace (in_bounds n m' off) with true
    by (symmetry; apply in_bounds_spec; lia).
  unfold store in H. destruct (in_bounds n m off); [|discriminate].
  injection H as <-. f_equal.
  rewrite skipn_app, length_firstn.
  replace (Nat.min (Z.to_nat off) (length m)) with (Z.to_nat off) by lia.
  rewrite Nat.sub_diag, skipn_O.
  rewrite skipn_all2 by (rewrite length_firstn; lia).
  cbn [app]. rewrite firstn_app, length_le_split, Nat.sub_diag, firstn_O.
  rewrite app_nil_r, firstn_all2 by (rewrite length_le_split; lia).
  apply le_combine_split.
Qed.

(** A write leaves every disjoint range as it was. *)
Lemma load_store_other n m off v m' k off' :
  store n m off v = Some m' ->
  off' + Z.of_nat k <= off \/ off + Z.of_nat n <= off' ->
  load k m' off' = load k m off'.
Proof.
  intros H D. pose proof (store_inv _ _ _ _ _ H) as (H0 & H1 & HL).
  unfold load, in_bounds. rewrite HL.
  destruct ((0 <=? off') && (off' + Z.of_nat k <=? Z.of_nat (length m)))
    eqn:E; [|reflexivity].
  apply andb_true_iff in E. rewrite !Z.leb_le in E. destruct E as [E0 E1].
  unfold store in H. destruct (in_bounds n m off); [|discriminate].
  injection H as <-. do 2 f_equal.
  set (a := Z.to_nat off). set (b := Z.to_nat off').
  destruct D as [D|D].
  - (* the read lies before the write *)
    rewrite skipn_app, firstn_app.
    rewrite length_skipn, !length_firstn.
    replace (k - (Nat.min a (length m) - b))%nat with 0%nat by lia.
    rewrite firstn_O, app_nil_r.
    apply firstn_skipn_prefix. lia.
  - (* the read lies after the write *)
    rewrite app_assoc, skipn_app.
    rewrite skipn_all2
      by (rewrite length_app, length_firstn, length_le_split; lia).
    cbn [app]. rewrite length_app, length_firstn, length_le_split.
    rewrite skipn_skipn. do 2 f_equal. lia.
Qed.

End Memory.

(** ** The first loop of [expand_section] *)

Section Relocator.

Implicit Types (m : image).

Lemma wrap_range w z : 0 <= w -> 0 <= wrap w z < 2 ^ w.
Proof. intros. apply Z.mod_pos_bound. apply Z.pow_pos_nonneg; lia. Qed.

Lemma wrap_small w z : 0 <= z < 2 ^ w -> wrap w z = z.
Proof. apply Z.mod_small. Qed.

Lemma wrap32_wrap64 z : wrap 32 (wrap 64 z) = wrap 32 z.
Proof.
  unfold wrap. apply Z.mod_mod_divide. exists (2 ^ 32). reflexivity.
Qed.

Lemma load8_store8 m off v m' :
  store 8 m off v = Some m' -> 0 <= v < 2 ^ 64 -> load 8 m' off = Some v.
Proof.
  intros H R. rewrite (load_store_same _ _ _ _ _ H).
  f_equal. apply Z.mod_small. exact R.
Qed.

Lemma adjust_sections_spec fuel : forall m shtable base adjust i shnum,
  e_shnum m = Some shnum ->
  64 <= shtable ->
  shtable + 64 * shnum <= Z.of_nat (length m) ->
  0 <= i ->
  (Z.to_nat (shnum - i) < fuel)%nat ->
  exists m',
    adjust_sections fuel m shtable base adjust i = Some m' /\
    length m' = length m /\
    (forall k off,
        (forall t, i <= t < shnum ->
                   off + Z.of_nat k <= sh_offset_p shtable t \/
                   sh_offset_p shtable t + 8 <= off) ->
        load k m' off = load k m off) /\
    (forall t o, i <= t < shnum ->
                 sh_offset m shtable t = Some o ->
                 sh_offset m' shtable t
                 = Some (shifted_sh_offset base adjust o)).
Proof.
  induction fuel as [|fuel IH]; intros m shtable base adjust i shnum
    Hn Hlo Hhi Hi Hf; [lia|].
  cbn [adjust_sections]. rewrite Hn. cbn [bind].
  destruct (i <? shnum) eqn:Ei.
  2:{ apply Z.ltb_ge in Ei. exists m. repeat split; auto; intros; lia. }
  apply Z.ltb_lt in Ei.
  destruct (load_Some 8 m (sh_offset_p shtable i)) as [o Ho];
    [unfold sh_offset_p; lia | unfold sh_offset_p; lia |].
  unfold sh_offset at 1. rewrite Ho. cbn [bind].
  destruct (o <? base) eqn:Eo.
  - destruct (IH m shtable base adjust (i + 1) shnum) as (m' & R & L & F & V);
      auto; try lia.
    exists m'. repeat split; auto.
    + intros k off D. apply F. intros t Ht. apply D. lia.
    + intros t o' Ht Ht'. destruct (Z.eq_dec t i) as [->|Hne].
      * unfold sh_offset in *. rewrite F.
        -- rewrite Ht'. unfold shifted_sh_offset.
           replace o' with o by congruence. now rewrite Eo.
        -- intros t Ht2. unfold sh_offset_p. lia.
      * apply V; auto. lia.
  - set (newoff := wrap 32 (wrap 64 (o + adjust))).
    assert (Rn : 0 <= newoff < 2 ^ 64).
    { pose proof (wrap_range 32 (wrap 64 (o + adjust))). fold newoff in H.
      change (2 ^ 64) with (2 ^ 32 * 2 ^ 32). lia. }
    destruct (store_Some 8 m (sh_offset_p shtable i) newoff) as [m1 Hs];
      [unfold sh_offset_p; lia | unfold sh_offset_p; lia |].
    rewrite Hs. cbn [bind].
    pose proof (store_length _ _ _ _ _ Hs) as L1.
    destruct (IH m1 shtable base adjust (i + 1) shnum) as (m' & R & L & F & V);
      auto; try lia.
    { unfold e_shnum. rewrite (load_store_other _ _ _ _ _ 2%nat 60 Hs); auto.
      unfold sh_offset_p. lia. }
    exists m'. repeat split; auto; try congruence.
    + intros k off D. rewrite F.
      * apply (load_store_other _ _ _ _ _ k off Hs).
        destruct (D i); lia.
      * intros t Ht. apply D. lia.
    + intros t o' Ht Ht'. destruct (Z.eq_dec t i) as [->|Hne].
      * unfold sh_offset in *. rewrite F.
        -- rewrite (load8_store8 _ _ _ _ Hs Rn).
           unfold shifted_sh_offset.
           replace o' with o by congruence. now rewrite Eo.
        -- intros t Ht2. unfold sh_offset_p. lia.
      * apply V; [lia|]. unfold sh_offset in *.
        rewrite (load_store_other _ _ _ _ _ 8%nat _ Hs); auto.
        unfold sh_offset_p. lia.
Qed.

Lemma adjust_segment_spec m phdr base psize i :
  0 <= phdr + 56 * i ->
  phdr + 56 * i + 56 <= Z.of_nat (length m) ->
  exists m' o fl fs ms,
    adjust_segment m phdr base psize i = Some m' /\
    length m' = length m /\
    (forall k off, off_phdr_fields phdr i k off ->
                   load k m' off = load k m off) /\
    p_offset m phdr i = Some o /\ p_flags m phdr i = Some fl /\
    p_filesz m phdr i = Some fs /\ p_memsz m phdr i = Some ms /\
    p_offset m' phdr i = Some (shifted_p_offset base psize o) /\
    p_filesz m' phdr i = Some (grown psize fl fs) /\
    p_memsz m' phdr i = Some (grown psize fl ms).
Proof.
  intros Hlo Hhi.
  destruct (load_Some 8 m (p_offset_p phdr i)) as [o Ho];
    [unfold p_offset_p; lia | unfold p_offset_p; lia |].
  destruct (load_Some 4 m (p_flags_p phdr i)) as [fl Hfl];
    [unfold p_flags_p; lia | unfold p_flags_p; lia |].
  destruct (load_Some 8 m (p_filesz_p phdr i)) as [fs Hfs];
    [unfold p_filesz_p; lia | unfold p_filesz_p; lia |].
  destruct (load_Some 8 m (p_memsz_p phdr i)) as [ms Hms];
    [unfold p_memsz_p; lia | unfold p_memsz_p; lia |].
  (* the write of p_offset *)
  assert (exists m1,
    (if base <? o
     then store 8 m (p_offset_p phdr i) (wrap 64 (o + psize))
     else Some m) = Some m1 /\
    length m1 = length m /\
    (forall k off,
        off + Z.of_nat k <= p_offset_p phdr i \/ p_offset_p phdr i + 8 <= off ->
        load k m1 off = load k m off) /\
    load 8 m1 (p_offset_p phdr i) = Some (shifted_p_offset base psize o))
    as (m1 & E1 & L1 & F1 & V1).
  { unfold shifted_p_offset. destruct (base <? o).
    - destruct (store_Some 8 m (p_offset_p phdr i) (wrap 64 (o + psize)))
        as [m1 Hs]; [unfold p_offset_p; lia | unfold p_offset_p; lia |].
      exists m1. repeat split; auto.
      + eapply store_length; eauto.
      + intros. eapply load_store_other; eauto.
      + apply (load8_store8 _ _ _ _ Hs). apply wrap_range. lia.
    - exists m. repeat split; auto. }
  assert (Hfl1 : load 4 m1 (p_flags_p phdr i) = Some fl).
  { rewrite F1; auto. unfold p_flags_p, p_offset_p. lia. }
  assert (Hfs1 : load 8 m1 (p_filesz_p phdr i) = Some fs).
  { rewrite F1; auto. unfold p_filesz_p, p_offset_p. lia. }
  assert (Hms1 : load 8 m1 (p_memsz_p phdr i) = Some ms).
  { rewrite F1; auto. unfold p_memsz_p, p_offset_p. lia. }
  unfold p_offset, p_flags, p_filesz, p_memsz, grown.
  assert (Hrun : forall r,
    (if Z.land fl PF_X =? 0 then Some m1
     else
       m2 <- store 8 m1 (p_filesz_p phdr i) (wrap 64 (fs + psize)) ;;
       p_memsz <- load 8 m2 (p_memsz_p phdr i) ;;
       store 8 m2 (p_memsz_p phdr i) (wrap 64 (p_memsz + psize))) = r ->
    adjust_segment m phdr base psize i = r).
  { intros r <-. unfold adjust_segment, p_offset, p_flags, p_filesz, p_memsz.
    rewrite Ho. cbn [bind]. rewrite E1. cbn [bind]. rewrite Hfl1. cbn [bind].
    destruct (Z.land fl PF_X =? 0); [reflexivity|].
    rewrite Hfs1. reflexivity. }
  destruct (Z.land fl PF_X =? 0) eqn:Efl.
  - exists m1, o, fl, fs, ms. rewrite Efl. repeat split; auto.
    intros k off [D1 D2]. auto.
  - destruct (store_Some 8 m1 (p_filesz_p phdr i) (wrap 64 (fs + psize)))
      as [m2 Hs2]; [unfold p_filesz_p; lia | unfold p_filesz_p; lia |].
    pose proof (store_length _ _ _ _ _ Hs2) as L2.
    assert (Hms2 : load 8 m2 (p_memsz_p phdr i) = Some ms).
    { rewrite (load_store_other _ _ _ _ _ 8%nat _ Hs2); auto.
      unfold p_memsz_p, p_filesz_p. lia. }
    destruct (store_Some 8 m2 (p_memsz_p phdr i) (wrap 64 (ms + psize)))
      as [m3 Hs3]; [unfold p_memsz_p; lia | unfold p_memsz_p; lia |].
    pose proof (store_length _ _ _ _ _ Hs3) as L3.
    exists m3, o, fl, fs, ms. rewrite Efl.
    repeat split; auto; try congruence.
    + apply Hrun. rewrite Hs2. cbn [bind]. rewrite Hms2. exact Hs3.
    + intros k off [D1 D2].
      rewrite (load_store_other _ _ _ _ _ k off Hs3)
        by (unfold p_memsz_p, p_filesz_p in *; lia).
      rewrite (load_store_other _ _ _ _ _ k off Hs2)
        by (unfold p_memsz_p, p_filesz_p in *; lia).
      auto.
    + rewrite (load_store_other _ _ _ _ _ 8%nat _ Hs3)
        by (unfold p_memsz_p, p_offset_p; lia).
      rewrite (load_store_other _ _ _ _ _ 8%nat _ Hs2)
        by (unfold p_filesz_p, p_offset_p; lia).
      exact V1.
    + rewrite (load_store_other _ _ _ _ _ 8%nat _ Hs3)
        by (unfold p_memsz_p, p_filesz_p; lia).
      apply (load8_store8 _ _ _ _ Hs2). apply wrap_range. lia.
    + apply (load8_store8 _ _ _ _ Hs3). apply wrap_range. lia.
Qed.

Lemma adjust_segments_spec fuel : forall m phdr base psize i phnum,
  e_phnum m = Some phnum ->
  64 <= phdr ->
  phdr + 56 * phnum <= Z.of_nat (length m) ->
  0 <= i ->
  (Z.to_nat (phnum - i) < fuel)%nat ->
  exists m',
    adjust_segments fuel m phdr base psize i = Some m' /\
    length m' = length m /\
    (forall k off,
        (forall t, i <= t < phnum -> off_phdr_fields phdr t k off) ->
        load k m' off = load k m off) /\
    (forall t, i <= t < phnum ->
       exists o fl fs ms,
         p_offset m phdr t = Some o /\ p_flags m phdr t = Some fl /\
         p_filesz m phdr t = Some fs /\ p_memsz m phdr t = Some ms /\
         p_offset m' phdr t = Some (shifted_p_offset base psize o) /\
         p_flags m' phdr t = Some fl /\
         p_filesz m' phdr t = Some (grown psize fl fs) /\
         p_memsz m' phdr t = Some (grown psize fl ms)).
Proof.
  induction fuel as [|fuel IH]; intros m phdr base psize i phnum
    Hn Hlo Hhi Hi Hf; [lia|].
  cbn [adjust_segments]. rewrite Hn. cbn [bind].
  destruct (i <? phnum) eqn:Ei.
  2:{ apply Z.ltb_ge in Ei. exists m. repeat split; auto; intros; lia. }
  apply Z.ltb_lt in Ei.
  destruct (adjust_segment_spec m phdr base psize i)
    as (m1 & o & fl & fs & ms & E1 & L1 & F1 & Ho & Hfl & Hfs & Hms
        & Vo & Vfs & Vms); try lia.
  rewrite E1. cbn [bind].
  destruct (IH m1 phdr base psize (i + 1) phnum) as (m' & R & L & F & V);
    auto; try lia.
  { unfold e_phnum. rewrite F1; auto.
    unfold off_phdr_fields, p_offset_p, p_filesz_p. lia. }
  assert (A : forall t, i + 1 <= t < phnum -> forall k off,
             p_flags_p phdr i - 4 <= off ->
             off + Z.of_nat k <= p_flags_p phdr i + 52 ->
             off_phdr_fields phdr t k off).
  { intros t Ht k off. unfold off_phdr_fields, p_flags_p, p_offset_p, p_filesz_p.
    lia. }
  assert (B : forall t, i + 1 <= t < phnum -> forall k off,
             p_flags_p phdr t - 4 <= off ->
             off + Z.of_nat k <= p_flags_p phdr t + 52 ->
             off_phdr_fields phdr i k off).
  { intros t Ht k off. unfold off_phdr_fields, p_flags_p, p_offset_p, p_filesz_p.
    lia. }
  exists m'. repeat split; auto; try congruence.
  - intros k off D. rewrite F.
    + apply F1. apply D. lia.
    + intros t Ht. apply D. lia.
  - intros t Ht. destruct (Z.eq_dec t i) as [->|Hne].
    + exists o, fl, fs, ms. unfold p_offset, p_flags, p_filesz, p_memsz in *.
      rewrite !F by (intros t Ht2; apply A; auto;
                     unfold p_flags_p, p_offset_p, p_filesz_p, p_memsz_p; lia).
      repeat split; auto.
      rewrite F1; auto.
      unfold off_phdr_fields, p_flags_p, p_offset_p, p_filesz_p; lia.
    + destruct (V t) as (o' & fl' & fs' & ms' & Ho' & Hfl' & Hfs' & Hms' & W);
        [lia|].
      exists o', fl', fs', ms'.
      assert (E : forall k off,
                 p_flags_p phdr t - 4 <= off ->
                 off + Z.of_nat k <= p_flags_p phdr t + 52 ->
                 load k m off = load k m1 off).
      { intros k off H1 H2. symmetry. apply F1, (B t); auto. lia. }
      unfold p_offset, p_flags, p_filesz, p_memsz in *.
      rewrite !E
        by (unfold p_flags_p, p_offset_p, p_filesz_p, p_memsz_p; lia).
      tauto.
Qed.

Lemma store_if_spec m (c : bool) off v :
  0 <= off -> off + 8 <= Z.of_nat (length m) -> 0 <= v < 2 ^ 64 ->
  exists m',
    (if c then store 8 m off v else Some m) = Some m' /\
    length m' = length m /\
    (forall k off', off' + Z.of_nat k <= off \/ off + 8 <= off' ->
                    load k m' off' = load k m off') /\
    (forall old, load 8 m off = Some old ->
                 load 8 m' off = Some (if c then v else old)).
Proof.
  intros Hlo Hhi Hv. destruct c.
  - destruct (store_Some 8 m off v) as [m' Hs]; [lia | lia |].
    exists m'. repeat split; auto.
    + eapply store_length; eauto.
    + intros. eapply load_store_other; eauto.
    + intros old _. apply (load8_store8 _ _ _ _ Hs Hv).
  - exists m. repeat split; auto.
Qed.

(** The whole of [expand_section] on an image whose header and tables lie
    in the buffer without overlapping, for the descriptor of section [j]. *)
Lemma expand_section_spec e m sinfo j phoff phnum shoff shnum :
  e_phoff m = Some phoff -> e_phnum m = Some phnum ->
  e_shoff m = Some shoff -> e_shnum m = Some shnum ->
  64 <= phoff -> phoff + 56 * phnum <= Z.of_nat (length m) ->
  64 <= shoff -> shoff + 64 * shnum <= Z.of_nat (length m) ->
  phoff + 56 * phnum <= shoff \/ shoff + 64 * shnum <= phoff ->
  0 <= j < shnum ->
  shinfo.offset sinfo = sh_offset_p shoff j ->
  shinfo.size sinfo = sh_size_p shoff j ->
  0 <= getpagesize e < 2 ^ 64 ->
  exists m' off32 size32,
    load 4 m (sh_offset_p shoff j) = Some off32 /\
    load 4 m (sh_size_p shoff j) = Some size32 /\
    expand_section e m sinfo
    = Some (m', {| patchinfo.base := wrap 32 (off32 + size32);
                   patchinfo.size := getpagesize e |}) /\
    length m' = length m /\
    e_phnum m' = Some phnum /\ e_shnum m' = Some shnum /\
    e_shoff m' = Some (if wrap 32 (off32 + size32) <? shoff
                       then wrap 64 (shoff + getpagesize e) else shoff) /\
    e_phoff m' = Some (if wrap 32 (off32 + size32) <? phoff
                       then wrap 64 (phoff + getpagesize e) else phoff) /\
    (forall t o, 0 <= t < shnum ->
       sh_offset m shoff t = Some o ->
       sh_offset m' shoff t
       = Some (shifted_sh_offset (wrap 32 (off32 + size32))
                                 (getpagesize e) o)) /\
    load 4 m' (sh_size_p shoff j)
    = Some (wrap 32 (size32 + shinfo.slackspace sinfo)) /\
    load 4 m' (sh_size_p shoff j + 4) = load 4 m (sh_size_p shoff j + 4) /\
    (forall t, 0 <= t < phnum ->
       exists o fl fs ms,
         p_offset m phoff t = Some o /\ p_flags m phoff t = Some fl /\
         p_filesz m phoff t = Some fs /\ p_memsz m phoff t = Some ms /\
         p_offset m' phoff t
         = Some (shifted_p_offset (wrap 32 (off32 + size32))
                                  (getpagesize e) o) /\
         p_flags m' phoff t = Some fl /\
         p_filesz m' phoff t = Some (grown (getpagesize e) fl fs) /\
         p_memsz m' phoff t = Some (grown (getpagesize e) fl ms)).
Proof.
  intros Hphoff Hphnum Hshoff Hshnum Pl Ph Sl Sh Dis Hj Eo Es Hpage.
  set (page := getpagesize e) in *.
  assert (Wp : wrap 64 page = page) by (apply wrap_small; lia).
  destruct (load_Some 4 m (sh_size_p shoff j)) as [size32 Hsz];
    [unfold sh_size_p; lia | unfold sh_size_p; lia |].
  destruct (load_Some 4 m (sh_offset_p shoff j)) as [off32 Hof];
    [unfold sh_offset_p; lia | unfold sh_offset_p; lia |].
  set (base := wrap 32 (off32 + size32)).
  (* line 142 *)
  destruct (store_Some 4 m (sh_size_p shoff j)
              (wrap 64 (size32 + shinfo.slackspace sinfo))) as [m1 Hs1];
    [unfold sh_size_p; lia | unfold sh_size_p; lia |].
  pose proof (store_length _ _ _ _ _ Hs1) as L1.
  assert (F1 : forall k off,
             off + Z.of_nat k <= sh_size_p shoff j \/
             sh_size_p shoff j + 4 <= off ->
             load k m1 off = load k m off).
  { intros. eapply load_store_other; eauto. }
  (* lines 147-152 *)
  destruct (adjust_sections_spec loop_fuel m1 shoff base page 0 shnum)
    as (m2 & R2 & L2 & F2 & V2); try lia.
  { unfold e_shnum. rewrite F1; auto. unfold sh_size_p. lia. }
  { apply load_inv in Hshnum. unfold loop_fuel.
    change (2 ^ (8 * Z.of_nat 2)) with 65536 in Hshnum. lia. }
  (* lines 156-165 *)
  destruct (adjust_segments_spec loop_fuel m2 phoff base page 0 phnum)
    as (m3 & R3 & L3 & F3 & V3); try lia.
  { unfold e_phnum. rewrite F2, F1; auto.
    - unfold sh_size_p. lia.
    - intros t Ht. unfold sh_offset_p. lia. }
  { apply load_inv in Hphnum. unfold loop_fuel.
    change (2 ^ (8 * Z.of_nat 2)) with 65536 in Hphnum. lia. }
  assert (F03 : forall k off,
             0 <= off -> off + Z.of_nat k <= 64 ->
             load k m3 off = load k m off).
  { intros k off H0 H64. rewrite F3, F2, F1; auto.
    - unfold sh_size_p. lia.
    - intros t Ht. unfold sh_offset_p. lia.
    - intros t Ht. unfold off_phdr_fields, p_offset_p, p_filesz_p. lia. }
  (* lines 168-169 *)
  destruct (store_if_spec m3 (base <? shoff) e_shoff_p (wrap 64 (shoff + page)))
    as (m4 & R4 & L4 & F4 & V4);
    [unfold e_shoff_p; lia | unfold e_shoff_p; lia | apply wrap_range; lia |].
  (* lines 171-172 *)
  destruct (store_if_spec m4 (base <? phoff) e_phoff_p (wrap 64 (phoff + page)))
    as (m5 & R5 & L5 & F5 & V5);
    [unfold e_phoff_p; lia | unfold e_phoff_p; lia | apply wrap_range; lia |].
  assert (F35 : forall k off, 64 <= off -> load k m5 off = load k m3 off).
  { intros k off H64. rewrite F5, F4; auto; unfold e_shoff_p, e_phoff_p; lia. }
  exists m5, off32, size32.
  split; [exact Hof|]. split; [exact Hsz|]. split.
  { unfold expand_section. rewrite Es, Eo, Hsz. cbn [bind]. rewrite Hof.
    cbn [bind]. rewrite Hs1. cbn [bind].
    replace (e_shoff m1) with (Some shoff)
      by (unfold e_shoff in *; rewrite F1; auto;
          unfold sh_size_p, e_shoff_p; lia).
    cbn [bind]. fold page. rewrite Wp, wrap32_wrap64. fold base.
    rewrite R2. cbn [bind].
    replace (e_phoff m2) with (Some phoff).
    2:{ unfold e_phoff in *. rewrite F2, F1; auto.
        - unfold sh_size_p, e_phoff_p. lia.
        - intros t Ht. unfold sh_offset_p, e_phoff_p. lia. }
    cbn [bind]. rewrite R3. cbn [bind].
    replace (e_shoff m3) with (Some shoff)
      by (unfold e_shoff in *; rewrite F03; auto; unfold e_shoff_p; lia).
    cbn [bind]. rewrite R4. cbn [bind].
    replace (e_phoff m4) with (Some phoff).
    2:{ unfold e_phoff in *. rewrite F4, F03; auto;
        unfold e_shoff_p, e_phoff_p; lia. }
    cbn [bind]. rewrite R5. reflexivity. }
  split; [congruence|].
  split.
  { unfold e_phnum in *. rewrite F5, F4, F03; auto;
      unfold e_shoff_p, e_phoff_p; lia. }
  split.
  { unfold e_shnum in *. rewrite F5, F4, F03; auto;
      unfold e_shoff_p, e_phoff_p; lia. }
  split.
  { unfold e_shoff in *. rewrite F5 by (unfold e_shoff_p, e_phoff_p; lia).
    apply V4. rewrite F03 by (unfold e_shoff_p; lia). auto. }
  split.
  { unfold e_phoff in *. apply V5.
    rewrite F4 by (unfold e_shoff_p, e_phoff_p; lia).
    rewrite F03 by (unfold e_phoff_p; lia). auto. }
  split.
  { intros t o Ht Ho. unfold sh_offset in *.
    rewrite F35 by (unfold sh_offset_p; lia).
    rewrite F3.
    - apply V2; auto. unfold sh_offset. rewrite F1; auto.
      unfold sh_offset_p, sh_size_p. lia.
    - intros u Hu.
      unfold off_phdr_fields, p_offset_p, p_filesz_p, sh_offset_p. lia. }
  split.
  { rewrite F35 by (unfold sh_size_p; lia).
    rewrite F3, F2.
    - rewrite (load_store_same _ _ _ _ _ Hs1). f_equal.
      change (2 ^ (Z.of_nat 4 * 8)) with (2 ^ 32).
      apply wrap32_wrap64.
    - intros t Ht. unfold sh_offset_p, sh_size_p. lia.
    - intros u Hu.
      unfold off_phdr_fields, p_offset_p, p_filesz_p, sh_size_p. lia. }
  split.
  { rewrite F35 by (unfold sh_size_p; lia).
    rewrite F3, F2, F1; auto.
    - unfold sh_size_p. lia.
    - intros t Ht. unfold sh_offset_p, sh_size_p. lia.
    - intros u Hu.
      unfold off_phdr_fields, p_offset_p, p_filesz_p, sh_size_p. lia. }
  intros t Ht.
  assert (E : forall k off,
             p_flags_p phoff t - 4 <= off ->
             off + Z.of_nat k <= p_flags_p phoff t + 52 ->
             load k m2 off = load k m off).
  { intros k off H1 H2. rewrite F2, F1; auto.
    - unfold p_flags_p, sh_size_p in *. lia.
    - intros u Hu. unfold p_flags_p, sh_offset_p in *. lia. }
  destruct (V3 t Ht) as (o & fl & fs & ms & Ho & Hfl & Hfs & Hms
                         & Wo & Wfl & Wfs & Wms).
  exists o, fl, fs, ms.
  unfold p_offset, p_flags, p_filesz, p_memsz in *.
  rewrite !F35 by (unfold p_flags_p, p_offset_p, p_filesz_p, p_memsz_p; lia).
  rewrite <- !E
    by (unfold p_flags_p, p_offset_p, p_filesz_p, p_memsz_p; lia).
  tauto.
Qed.

End Relocator.

(** ** The locator *)

Section Locator.

Variables (e : env) (m : image) (phdr shtable shstr phnum shnum : Z).
Hypothesis Hphnum : e_phnum m = Some phnum.
Hypothesis Hshnum : e_shnum m = Some shnum.
Hypothesis Hph : 0 <= phdr /\ phdr + 56 * phnum <= Z.of_nat (length m).
Hypothesis Hsh : 0 <= shtable /\ shtable + 64 * shnum <= Z.of_nat (length m).
Hypothesis Hmalloc : malloc_ok e (sizeof_shinfo e) = true.
Hypothesis Hnames :
  forall t, 0 <= t < shnum ->
            exists nm, section_name e m shtable shstr t = Some nm.

Lemma sh_end_Some j :
  0 <= j < shnum -> exists v, sh_end m shtable j = Some v.
Proof.
  intros Hj. unfold sh_end, sh_addr, sh_size.
  destruct (load_Some 8 m (sh_addr_p shtable j)) as [a ->];
    [unfold sh_addr_p; lia | unfold sh_addr_p; lia |].
  destruct (load_Some 8 m (sh_size_p shtable j)) as [s ->];
    [unfold sh_size_p; lia | unfold sh_size_p; lia |].
  cbn [bind]. eauto.
Qed.

Lemma find_sections_spec send fuel : forall j s,
  0 <= j -> (Z.to_nat (shnum - j) < fuel)%nat ->
  exists s',
    find_sections fuel e m shtable shstr send j s = Some (Scanning s') /\
    ((s' = s /\
      forall t, j <= t < shnum -> sh_end m shtable t <> Some send)
     \/
     (exists t nm,
         j <= t < shnum /\ sh_end m shtable t = Some send /\
         section_name e m shtable shstr t = Some nm /\
         s' = Some (descriptor e shtable t nm) /\
         forall u, t < u < shnum -> sh_end m shtable u <> Some send)).
Proof.
  induction fuel as [|fuel IH]; intros j s Hj Hf; [lia|].
  cbn [find_sections]. rewrite Hshnum. cbn [bind].
  destruct (j <? shnum) eqn:Ej.
  2:{ apply Z.ltb_ge in Ej. exists s. split; auto. left. split; auto.
      intros; lia. }
  apply Z.ltb_lt in Ej.
  destruct (sh_end_Some j) as [v Hv]; [lia|].
  pose proof Hv as Hv'. unfold sh_end in Hv'.
  destruct (sh_addr m shtable j) as [a|]; [|discriminate].
  destruct (sh_size m shtable j) as [sz|]; [|discriminate].
  cbn [bind] in Hv' |- *. injection Hv' as Hv'. rewrite Hv'.
  destruct (v =? send) eqn:Ev.
  - apply Z.eqb_eq in Ev. subst v. rewrite Hmalloc.
    destruct (Hnames j) as [nm Hnm]; [lia|].
    pose proof Hnm as Hnm'. unfold section_name in Hnm'.
    destruct (sh_name m shtable j) as [n|]; [|discriminate].
    cbn [bind] in Hnm' |- *. rewrite Hnm'. cbn [bind].
    destruct (IH (j + 1) (Some (descriptor e shtable j nm)))
      as (s' & R & [[E N] | (t & nm' & Ht & Et & Hn' & E & N)]); try lia.
    + exists s'. split; [exact R|]. right. exists j, nm.
      repeat split; auto; try lia; try congruence.
      intros u Hu. apply N. lia.
    + exists s'. split; [exact R|]. right. exists t, nm'.
      repeat split; auto; lia.
  - apply Z.eqb_neq in Ev.
    destruct (IH (j + 1) s)
      as (s' & R & [[E N] | (t & nm' & Ht & Et & Hn' & E & N)]); try lia.
    + exists s'. split; [exact R|]. left. split; auto.
      intros t Ht. destruct (Z.eq_dec t j) as [->|Hne].
      * rewrite Hv. congruence.
      * apply N. lia.
    + exists s'. split; [exact R|]. right. exists t, nm'.
      repeat split; auto; lia.
Qed.

Lemma find_segments_spec fuel : forall i s,
  0 <= i -> (Z.to_nat (phnum - i) < fuel)%nat ->
  exists s',
    find_segments fuel e m phdr shtable shstr i s = Some (Scanning s') /\
    ((s' = s /\
      forall i' j', i <= i' < phnum -> 0 <= j' < shnum ->
                    ~ matches m phdr shtable i' j')
     \/
     (exists i0 j0 nm,
         i <= i0 < phnum /\ 0 <= j0 < shnum /\
         matches m phdr shtable i0 j0 /\
         section_name e m shtable shstr j0 = Some nm /\
         s' = Some (descriptor e shtable j0 nm) /\
         forall i' j', i0 <= i' < phnum -> 0 <= j' < shnum ->
                       i0 < i' \/ j0 < j' ->
                       ~ matches m phdr shtable i' j')).
Proof.
  induction fuel as [|fuel IH]; intros i s Hi Hf; [lia|].
  cbn [find_segments]. rewrite Hphnum. cbn [bind].
  destruct (i <? phnum) eqn:Ei.
  2:{ apply Z.ltb_ge in Ei. exists s. split; auto. left. split; auto.
      intros; lia. }
  apply Z.ltb_lt in Ei.
  destruct (load_Some 4 m (p_flags_p phdr i)) as [fl Hfl];
    [unfold p_flags_p; lia | unfold p_flags_p; lia |].
  destruct (load_Some 8 m (p_vaddr_p phdr i)) as [va Hva];
    [unfold p_vaddr_p; lia | unfold p_vaddr_p; lia |].
  destruct (load_Some 8 m (p_memsz_p phdr i)) as [ms Hms];
    [unfold p_memsz_p; lia | unfold p_memsz_p; lia |].
  assert (Hex : executable m phdr i = Some (negb (Z.land fl PF_X =? 0))).
  { unfold executable, p_flags. now rewrite Hfl. }
  assert (Hse : segment_end m phdr i = Some (wrap 32 (wrap 64 (va + ms)))).
  { unfold segment_end, p_vaddr, p_memsz. now rewrite Hva, Hms. }
  unfold p_flags at 1. rewrite Hfl. cbn [bind].
  destruct (Z.land fl PF_X =? 0) eqn:Efl.
  - (* not executable *)
    destruct (IH (i + 1) s)
      as (s' & R & [[E N] | (i0 & j0 & nm & Hi0 & Hj0 & M & Hn & E & N)]);
      try lia.
    + exists s'. split; [exact R|]. left. split; auto.
      intros i' j' Hi' Hj'. destruct (Z.eq_dec i' i) as [->|Hne].
      * intros [X _]. rewrite Hex in X. discriminate.
      * apply N; lia.
    + exists s'. split; [exact R|]. right. exists i0, j0, nm.
      split; [lia|]. split; [lia|]. split; [exact M|].
      split; [exact Hn|]. split; [exact E|].
      intros i' j' Hi' Hj' Hlt. apply N; auto; lia.
  - unfold p_vaddr, p_memsz. rewrite Hva, Hms. cbn [bind].
    destruct (find_sections_spec (wrap 32 (wrap 64 (va + ms))) loop_fuel 0 s)
      as (s1 & R1 & C1); [lia | |].
    { apply load_inv in Hshnum. unfold loop_fuel.
      change (2 ^ (8 * Z.of_nat 2)) with 65536 in Hshnum. lia. }
    rewrite R1. cbn [bind].
    destruct (IH (i + 1) s1)
      as (s' & R & [[E N] | (i0 & j0 & nm & Hi0 & Hj0 & M & Hn & E & N)]);
      try lia.
    + destruct C1 as [[E1 N1] | (t & nm & Ht & Et & Hn & E1 & N1)].
      * exists s'. split; [exact R|]. left. split; [congruence|].
        intros i' j' Hi' Hj'. destruct (Z.eq_dec i' i) as [->|Hne].
        -- intros [_ (v & X & Y)]. rewrite Hse in Y.
           apply (N1 j'); [lia|]. congruence.
        -- apply N; lia.
      * exists s'. split; [exact R|]. right. exists i, t, nm.
        split; [lia|]. split; [lia|]. split; [|split; [exact Hn|split]].
        -- unfold matches. rewrite Hex, Hse. split; [reflexivity|]. eauto.
        -- congruence.
        -- intros i' j' Hi' Hj' Hlt.
           destruct (Z.eq_dec i' i) as [->|Hne].
           ++ intros [_ (v & X & Y)]. rewrite Hse in Y.
              apply (N1 j'); [lia|]. congruence.
           ++ apply N; lia.
    + exists s'. split; [exact R|]. right. exists i0, j0, nm.
      split; [lia|]. split; [lia|]. split; [exact M|].
      split; [exact Hn|]. split; [exact E|].
      intros i' j' Hi' Hj' Hlt. apply N; auto; lia.
Qed.

End Locator.

Section Pipeline.

Implicit Types (m : image) (e : env).

Lemma tables_ok_inv m phoff phnum shoff shnum :
  tables_ok m = true ->
  e_phoff m = Some phoff -> e_phnum m = Some phnum ->
  e_shoff m = Some shoff -> e_shnum m = Some shnum ->
  64 <= phoff /\ phoff + 56 * phnum <= Z.of_nat (length m) /\
  64 <= shoff /\ shoff + 64 * shnum <= Z.of_nat (length m) /\
  (phoff + 56 * phnum <= shoff \/ shoff + 64 * shnum <= phoff) /\
  0 <= phnum /\ 0 <= shnum.
Proof.
  unfold tables_ok. intros T H1 H2 H3 H4. rewrite H1, H2, H3, H4 in T.
  rewrite !andb_true_iff, orb_true_iff, !Z.leb_le in T.
  apply load_inv in H2, H4. lia.
Qed.

Lemma tables_ok_headers m :
  tables_ok m = true ->
  exists phoff phnum shoff shnum,
    e_phoff m = Some phoff /\ e_phnum m = Some phnum /\
    e_shoff m = Some shoff /\ e_shnum m = Some shnum.
Proof.
  unfold tables_ok. intros T.
  destruct (e_phoff m) as [a|]; [|discriminate].
  destruct (e_phnum m) as [b|]; [|discriminate].
  destruct (e_shoff m) as [c|]; [|discriminate].
  destruct (e_shnum m) as [d|]; [|discriminate].
  exists a, b, c, d. auto.
Qed.

Lemma describes_inv e m j sinfo shoff shnum :
  describes e m j sinfo = true ->
  e_shoff m = Some shoff -> e_shnum m = Some shnum ->
  0 <= j < shnum /\
  shinfo.offset sinfo = sh_offset_p shoff j /\
  shinfo.size sinfo = sh_size_p shoff j /\
  shinfo.slackspace sinfo = getpagesize e.
Proof.
  unfold describes. intros D H1 H2. rewrite H1, H2 in D.
  rewrite !andb_true_iff, !Z.leb_le, Z.ltb_lt, !Z.eqb_eq in D. tauto.
Qed.

Lemma page_ok_inv e : page_ok e = true -> 0 < getpagesize e < 2 ^ 31.
Proof.
  unfold page_ok. rewrite andb_true_iff, !Z.ltb_lt. tauto.
Qed.

Lemma describes_descriptor e m shoff shnum j nm :
  e_shoff m = Some shoff -> e_shnum m = Some shnum -> 0 <= j < shnum ->
  describes e m j (descriptor e shoff j nm) = true.
Proof.
  intros H1 H2 Hj. unfold describes. rewrite H1, H2. cbn.
  rewrite !andb_true_iff, !Z.leb_le, Z.ltb_lt, !Z.eqb_eq. lia.
Qed.

(** The locator as a whole: it returns, and what it returns is [NULL] when
    no pair matches and the descriptor of the last matching pair
    otherwise. *)
Lemma find_exe_seg_last_section_spec e m phoff phnum shoff shnum :
  tables_ok m = true -> locator_ok e m = true ->
  e_phoff m = Some phoff -> e_phnum m = Some phnum ->
  e_shoff m = Some shoff -> e_shnum m = Some shnum ->
  exists r,
    find_exe_seg_last_section e m = Some r /\
    ((r = None /\
      forall i j, 0 <= i < phnum -> 0 <= j < shnum ->
                  ~ matches m phoff shoff i j)
     \/
     (exists i j nm,
         0 <= i < phnum /\ 0 <= j < shnum /\
         matches m phoff shoff i j /\
         r = Some (descriptor e shoff j nm) /\
         forall i' j', i <= i' < phnum -> 0 <= j' < shnum ->
                       i < i' \/ j < j' ->
                       ~ matches m phoff shoff i' j')).
Proof.
  intros T Lk H1 H2 H3 H4.
  pose proof (tables_ok_inv _ _ _ _ _ T H1 H2 H3 H4) as B.
  unfold locator_ok in Lk. rewrite H3, H4 in Lk.
  apply andb_true_iff in Lk. destruct Lk as [Hmal Lk].
  destruct (e_shstrndx m) as [ndx|] eqn:Endx; [|discriminate].
  destruct (sh_offset m shoff ndx) as [shstr|] eqn:Estr; [|discriminate].
  assert (Hnames : forall t, 0 <= t < shnum ->
            exists nm, section_name e m shoff shstr t = Some nm).
  { intros t Ht. rewrite forallb_forall in Lk.
    specialize (Lk t). destruct (section_name e m shoff shstr t); eauto.
    assert (false = true); [|discriminate]. apply Lk.
    rewrite <- (Z2Nat.id t) by lia. apply in_map, in_seq. lia. }
  destruct (find_segments_spec e m phoff shoff shstr phnum shnum
              H2 H4 ltac:(lia) ltac:(lia) Hmal Hnames loop_fuel 0 None)
    as (s' & R & C); [lia | |].
  { pose proof (load_inv _ _ _ _ H2) as X. unfold loop_fuel.
    change (2 ^ (8 * Z.of_nat 2)) with 65536 in X. lia. }
  exists s'. split.
  { unfold find_exe_seg_last_section. rewrite H1, H3, Endx. cbn [bind].
    rewrite Estr. cbn [bind]. rewrite R. reflexivity. }
  destruct C as [[E N] | (i & j & nm & Hi & Hj & M & Hn & E & N)].
  - left. split; [exact E | intros i j Hi Hj; apply N; lia].
  - right. exists i, j, nm.
    split; [lia|]. split; [lia|]. split; [exact M|]. split; [exact E|].
    exact N.
Qed.

(** ** The exporter *)

Lemma to_int_small z : - 2 ^ 31 <= z < 2 ^ 31 -> to_int z = z.
Proof. intros H. unfold to_int. rewrite Z.mod_small; lia. Qed.

Lemma wrap32_to_int z : wrap 32 (to_int z) = wrap 32 z.
Proof.
  unfold wrap, to_int.
  rewrite Zminus_mod, Z.mod_mod by lia.
  rewrite <- Zminus_mod. f_equal. lia.
Qed.

Lemma write_complete e k file buf count :
  (forall k c, write_ret e k c = c) ->
  0 <= count <= Z.of_nat (length buf) ->
  write e k file buf count
  = Some (file ++ firstn (Z.to_nat count) buf, count).
Proof.
  intros W H. unfold write.
  replace (count <=? Z.of_nat (length buf)) with true
    by (symmetry; apply Z.leb_le; lia).
  rewrite W, firstn_firstn, Nat.min_id. reflexivity.
Qed.

Lemma export_elf_file_layout e m payload pinfo :
  open_ok e = true ->
  (forall k c, write_ret e k c = c) ->
  0 <= patchinfo.base pinfo <= Z.of_nat (length m) ->
  Z.of_nat (length m) < 2 ^ 31 ->
  Z.of_nat (length payload) <= patchinfo.size pinfo < 2 ^ 31 ->
  malloc_ok e (patchinfo.size pinfo - Z.of_nat (length payload)) = true ->
  export_elf_file e m payload pinfo
  = Some {| rv := true;
            outfile :=
              Some (firstn (Z.to_nat (patchinfo.base pinfo)) m
                    ++ payload
                    ++ repeat Byte.x00
                         (Z.to_nat (patchinfo.size pinfo
                                    - Z.of_nat (length payload)))
                    ++ skipn (Z.to_nat (patchinfo.base pinfo)) m) |}.
Proof.
  intros Ho W Hb Hm Hp Hmal.
  set (base := patchinfo.base pinfo) in *.
  set (psz := Z.of_nat (length payload)) in *.
  set (pad := patchinfo.size pinfo - psz) in *.
  unfold export_elf_file. rewrite Ho. cbn [negb].
  fold base. fold psz.
  rewrite (write_complete e 0 [] m base W) by lia. cbn [bind app].
  rewrite wrap32_to_int, wrap_small, Z.eqb_refl by lia. cbn [negb].
  rewrite (write_complete e 1 _ payload psz W) by lia. cbn [bind].
  rewrite to_int_small, wrap_small, Z.eqb_refl by lia. cbn [negb].
  fold pad. rewrite (wrap_small 64 pad) by lia.
  rewrite Hmal. cbn [negb].
  rewrite (write_complete e 2 _ _ pad W) by (rewrite repeat_length; lia).
  cbn [bind].
  rewrite to_int_small, wrap_small, Z.eqb_refl by lia. cbn [negb].
  unfold psz. rewrite Nat2Z.id, firstn_all.
  rewrite (firstn_all2 (n := Z.to_nat pad)) by (rewrite repeat_length; lia).
  rewrite (wrap_small 64 (Z.of_nat (length m) - base)) by lia.
  destruct (Z.of_nat (length m) - base =? 0) eqn:Er.
  - apply Z.eqb_eq in Er.
    rewrite (skipn_all2 (n := Z.to_nat base)) by lia.
    rewrite !app_nil_r, <- !app_assoc. reflexivity.
  - rewrite (write_complete e 3 _ _ _ W) by (rewrite length_skipn; lia).
    cbn [bind].
    rewrite to_int_small, wrap_small, Z.eqb_refl by lia. cbn [negb].
    rewrite (firstn_all2 (skipn (Z.to_nat base) m))
      by (rewrite length_skipn; lia).
    rewrite <- !app_assoc. reflexivity.
Qed.

(** With a payload larger than the reserved size the exporter has already
    written the bytes before [base] and the whole payload when the pad size
    [size - payload.size] wraps around in [size_t]; if [malloc] then refuses
    that size, those bytes are what the file is left with. *)
Lemma export_elf_file_oversized e (m : image) payload pinfo :
  open_ok e = true ->
  (forall k c, write_ret e k c = c) ->
  0 <= patchinfo.base pinfo <= Z.of_nat (length m) ->
  Z.of_nat (length m) < 2 ^ 31 ->
  0 <= patchinfo.size pinfo < Z.of_nat (length payload) ->
  Z.of_nat (length payload) < 2 ^ 31 ->
  malloc_ok e (2 ^ 64 - (Z.of_nat (length payload) - patchinfo.size pinfo))
  = false ->
  export_elf_file e m payload pinfo
  = Some {| rv := false;
            outfile := Some (firstn (Z.to_nat (patchinfo.base pinfo)) m
                             ++ payload) |}.
Proof.
  intros Ho W Hb Hm Hp Hlen Hmal.
  set (base := patchinfo.base pinfo) in *.
  set (psz := Z.of_nat (length payload)) in *.
  unfold export_elf_file. rewrite Ho. cbn [negb].
  fold base. fold psz.
  rewrite (write_complete e 0 [] m base W) by lia. cbn [bind app].
  rewrite wrap32_to_int.
  destruct (wrap 32 base =? base) eqn:Eb; cbn [negb].
  - rewrite (write_complete e 1 _ payload psz W) by lia. cbn [bind].
    rewrite to_int_small, wrap_small, Z.eqb_refl by lia. cbn [negb].
    replace (wrap 64 (patchinfo.size pinfo - psz))
      with (2 ^ 64 - (psz - patchinfo.size pinfo)).
    + rewrite Hmal. cbn [negb]. unfold psz.
      rewrite Nat2Z.id, firstn_all. reflexivity.
    + unfold wrap. symmetry.
      replace (patchinfo.size pinfo - psz)
        with (2 ^ 64 - (psz - patchinfo.size pinfo) + (-1) * 2 ^ 64) by lia.
      rewrite Z.mod_add by lia. apply Z.mod_small. lia.
  - (* [base] would have to be at least 2^32 *)
    apply Z.eqb_neq in Eb. rewrite wrap_small in Eb by lia. contradiction.
Qed.

End Pipeline.

(** ** What a returned descriptor points at *)

Section LocatorResult.

Variables (e : env) (m : image) (shtable shstr shnum : Z).
Hypothesis Hshnum : e_shnum m = Some shnum.

Lemma find_sections_site send fuel : forall j s r,
  0 <= j ->
  find_sections fuel e m shtable shstr send j s = Some r ->
  is_site e shtable shnum s -> is_site_scan e shtable shnum r.
Proof.
  induction fuel as [|fuel IH]; intros j s r Hj; [discriminate|].
  cbn [find_sections]. rewrite Hshnum. cbn [bind].
  destruct (j <? shnum) eqn:Ej.
  2:{ intros [= <-] Hs. exact Hs. }
  apply Z.ltb_lt in Ej.
  destruct (sh_addr m shtable j) as [a|]; [|discriminate].
  destruct (sh_size m shtable j) as [sz|]; [|discriminate]. cbn [bind].
  destruct (wrap 64 (a + sz) =? send).
  - destruct (malloc_ok e (sizeof_shinfo e)).
    + destruct (sh_name m shtable j) as [n|]; [|discriminate]. cbn [bind].
      destruct (strncpy (MAX_SH_NAMELEN e) m (shstr + n)) as [nm|];
        [|discriminate]. cbn [bind].
      intros R _. refine (IH (j + 1) _ _ _ R _); [lia|].
      intros x [= <-]. exists j, nm. split; [lia | reflexivity].
    + intros [= <-] _. reflexivity.
  - intros R Hs. refine (IH (j + 1) _ _ _ R Hs). lia.
Qed.

Lemma find_segments_site phdr fuel : forall i s r,
  find_segments fuel e m phdr shtable shstr i s = Some r ->
  is_site e shtable shnum s -> is_site_scan e shtable shnum r.
Proof.
  induction fuel as [|fuel IH]; intros i s r; [discriminate|].
  cbn [find_segments].
  destruct (e_phnum m) as [phnum|]; [|discriminate]. cbn [bind].
  destruct (i <? phnum); [|intros [= <-] Hs; exact Hs].
  destruct (p_flags m phdr i) as [fl|]; [|discriminate]. cbn [bind].
  destruct (Z.land fl PF_X =? 0); [apply IH|].
  destruct (p_vaddr m phdr i) as [va|]; [|discriminate].
  destruct (p_memsz m phdr i) as [ms|]; [|discriminate]. cbn [bind].
  destruct (find_sections loop_fuel e m shtable shstr
              (wrap 32 (wrap 64 (va + ms))) 0 s) as [r1|] eqn:R1;
    [|discriminate].
  cbn [bind]. intros R Hs.
  pose proof (find_sections_site _ _ 0 _ _ ltac:(lia) R1 Hs) as H1.
  destruct r1 as [s1|v].
  - apply (IH _ _ _ R H1).
  - injection R as <-. exact H1.
Qed.

End LocatorResult.

Lemma find_exe_seg_last_section_site e m s shoff shnum :
  find_exe_seg_last_section e m = Some (Some s) ->
  e_shoff m = Some shoff -> e_shnum m = Some shnum ->
  exists j nm, 0 <= j < shnum /\ s = descriptor e shoff j nm.
Proof.
  unfold find_exe_seg_last_section. intros F H1 H2.
  destruct (e_phoff m) as [phoff|]; [|discriminate].
  rewrite H1 in F. cbn [bind] in F.
  destruct (e_shstrndx m) as [ndx|]; [|discriminate]. cbn [bind] in F.
  destruct (sh_offset m shoff ndx) as [shstr|]; [|discriminate].
  cbn [bind] in F.
  destruct (find_segments loop_fuel e m phoff shoff shstr 0 None)
    as [r|] eqn:R; [|discriminate].
  cbn [bind] in F.
  pose proof (find_segments_site e m shoff shstr shnum H2 phoff _ _ _ _ R) as S.
  destruct r as [s1|v]; injection F as ->.
  - apply S; [discriminate | reflexivity].
  - cbn in S. specialize (S ltac:(discriminate)). discriminate.
Qed.

(** ** The 32-bit halves of a 64-bit field *)

Lemma load4_of_load8 (m : image) off v :
  load 8 m off = Some v ->
  load 4 m off = Some (v mod 2 ^ 32) /\
  load 4 m (off + 4) = Some (v / 2 ^ 32).
Proof.
  intros H. pose proof (load_inv _ _ _ _ H) as (H0 & H1 & _).
  unfold load in *.
  replace (in_bounds 8 m off) with true in H
    by (symmetry; apply in_bounds_spec; lia).
  replace (in_bounds 4 m off) with true
    by (symmetry; apply in_bounds_spec; lia).
  replace (in_bounds 4 m (off + 4)) with true
    by (symmetry; apply in_bounds_spec; lia).
  set (l := skipn (Z.to_nat off) m) in *.
  assert (Hv : v = le_combine (firstn 8 l)) by congruence.
  clear H. subst v.
  assert (Ll : (8 <= length l)%nat) by (unfold l; rewrite length_skipn; lia).
  assert (E : firstn 8 l = firstn 4 l ++ firstn 4 (skipn 4 l)).
  { rewrite <- (firstn_skipn 4 (firstn 8 l)).
    rewrite firstn_firstn, skipn_firstn_comm. reflexivity. }
  replace (skipn (Z.to_nat (off + 4)) m) with (skipn 4 l)
    by (unfold l; rewrite skipn_skipn; f_equal; lia).
  pose proof (le_combine_bound (firstn 4 l)) as Blo.
  rewrite length_firstn in Blo.
  replace (Nat.min 4 (length l)) with 4%nat in Blo by lia.
  change (2 ^ (8 * Z.of_nat 4)) with (2 ^ 32) in Blo.
  split; f_equal.
  - replace (firstn 4 l) with (firstn 4 (firstn 8 l))
      by (rewrite firstn_firstn; reflexivity).
    apply le_combine_firstn.
  - rewrite E, le_combine_app, length_firstn.
    replace (Nat.min 4 (length l)) with 4%nat by lia.
    change (Z.of_nat 4 * 8) with 32.
    rewrite <- Z.shiftr_div_pow2, Z.shiftr_lor, Z.shiftr_shiftl_l by lia.
    rewrite Z.shiftr_div_pow2, Z.div_small by lia.
    rewrite Z.sub_diag, Z.shiftl_0_r. reflexivity.
Qed.

Lemma load8_of_load4 (m : image) off lo hi :
  load 4 m off = Some lo -> load 4 m (off + 4) = Some hi ->
  exists v, load 8 m off = Some v /\ v mod 2 ^ 32 = lo /\ v / 2 ^ 32 = hi.
Proof.
  intros Hlo Hhi.
  pose proof (load_inv _ _ _ _ Hlo) as (A & _ & _).
  pose proof (load_inv _ _ _ _ Hhi) as (_ & B & _).
  destruct (load_Some 8 m off) as [v Hv]; [lia | lia |].
  exists v. split; [exact Hv|].
  destruct (load4_of_load8 _ _ _ Hv) as [X Y]. split; congruence.
Qed.

(** ** The relocator on a well-formed image *)

Lemma expand_section_ok e m j sinfo phoff phnum shoff shnum :
  tables_ok m = true -> describes e m j sinfo = true -> page_ok e = true ->
  e_phoff m = Some phoff -> e_phnum m = Some phnum ->
  e_shoff m = Some shoff -> e_shnum m = Some shnum ->
  0 <= j < shnum /\
  exists m' off32 size32,
    load 4 m (sh_offset_p shoff j) = Some off32 /\
    load 4 m (sh_size_p shoff j) = Some size32 /\
    expand_section e m sinfo
    = Some (m', {| patchinfo.base := wrap 32 (off32 + size32);
                   patchinfo.size := getpagesize e |}) /\
    length m' = length m /\
    e_phnum m' = Some phnum /\ e_shnum m' = Some shnum /\
    e_shoff m' = Some (if wrap 32 (off32 + size32) <? shoff
                       then wrap 64 (shoff + getpagesize e) else shoff) /\
    e_phoff m' = Some (if wrap 32 (off32 + size32) <? phoff
                       then wrap 64 (phoff + getpagesize e) else phoff) /\
    (forall t o, 0 <= t < shnum ->
       sh_offset m shoff t = Some o ->
       sh_offset m' shoff t
       = Some (shifted_sh_offset (wrap 32 (off32 + size32))
                                 (getpagesize e) o)) /\
    load 4 m' (sh_size_p shoff j)
    = Some (wrap 32 (size32 + getpagesize e)) /\
    load 4 m' (sh_size_p shoff j + 4) = load 4 m (sh_size_p shoff j + 4) /\
    (forall t, 0 <= t < phnum ->
       exists o fl fs ms,
         p_offset m phoff t = Some o /\ p_flags m phoff t = Some fl /\
         p_filesz m phoff t = Some fs /\ p_memsz m phoff t = Some ms /\
         p_offset m' phoff t
         = Some (shifted_p_offset (wrap 32 (off32 + size32))
                                  (getpagesize e) o) /\
         p_flags m' phoff t = Some fl /\
         p_filesz m' phoff t = Some (grown (getpagesize e) fl fs) /\
         p_memsz m' phoff t = Some (grown (getpagesize e) fl ms)).
Proof.
  intros T D P H1 H2 H3 H4.
  pose proof (tables_ok_inv _ _ _ _ _ T H1 H2 H3 H4) as B.
  pose proof (describes_inv _ _ _ _ _ _ D H3 H4) as (Hj & Eo & Es & Esl).
  pose proof (page_ok_inv _ P) as Hp.
  split; [exact Hj|].
  destruct (expand_section_spec e m sinfo j phoff phnum shoff shnum)
    as (m' & off32 & size32 & X); auto; try tauto.
  { change (2 ^ 64) with (2 ^ 31 * 2 ^ 33). lia. }
  rewrite Esl in X. exists m', off32, size32. exact X.
Qed.


(** ** The relocator: program headers, table offsets, 32-bit arithmetic *)

(** C3.  After [expand_section], every program header entry whose
    [p_offset] was strictly greater than [base] has it increased by one
    page and every other entry (equal to [base] included) keeps it; and
    every entry with the executable bit set has both [p_filesz] and
    [p_memsz] increased by one page, wherever its offset lies.  The fields
    are 64-bit: the new value is the 64-bit sum, which is the plain sum
    whenever that fits the field. *)
Theorem expand_section_program_headers e m j sinfo phoff phnum :
  tables_ok m = true -> describes e m j sinfo = true -> page_ok e = true ->
  e_phoff m = Some phoff -> e_phnum m = Some phnum ->
  exists m' pinfo,
    expand_section e m sinfo = Some (m', pinfo) /\
    forall i, 0 <= i < phnum ->
      exists o fl fs ms,
        p_offset m phoff i = Some o /\ p_flags m phoff i = Some fl /\
        p_filesz m phoff i = Some fs /\ p_memsz m phoff i = Some ms /\
        (patchinfo.base pinfo < o ->
         p_offset m' phoff i = Some (wrap 64 (o + getpagesize e)) /\
         (o + getpagesize e < 2 ^ 64 ->
          p_offset m' phoff i = Some (o + getpagesize e))) /\
        (o <= patchinfo.base pinfo -> p_offset m' phoff i = Some o) /\
        (Z.land fl PF_X <> 0 ->
         p_filesz m' phoff i = Some (wrap 64 (fs + getpagesize e)) /\
         p_memsz m' phoff i = Some (wrap 64 (ms + getpagesize e)) /\
         (fs + getpagesize e < 2 ^ 64 ->
          p_filesz m' phoff i = Some (fs + getpagesize e)) /\
         (ms + getpagesize e < 2 ^ 64 ->
          p_memsz m' phoff i = Some (ms + getpagesize e))).
Proof.
  intros T D P H1 H2.
  destruct (tables_ok_headers m T) as (a & b & shoff & shnum & A1 & A2 & H3 & H4).
  pose proof (page_ok_inv _ P) as Hp.
  destruct (expand_section_ok e m j sinfo phoff phnum shoff shnum T D P H1 H2 H3 H4)
    as (_ & m' & off32 & size32 & _ & _ & R & _ & _ & _ & _ & _ & _ & _ & _ & V).
  exists m', {| patchinfo.base := wrap 32 (off32 + size32);
                patchinfo.size := getpagesize e |}.
  split; [exact R|]. cbn [patchinfo.base].
  intros i Hi.
  destruct (V i Hi) as (o & fl & fs & ms & Ho & Hfl & Hfs & Hms
                        & Wo & _ & Wfs & Wms).
  exists o, fl, fs, ms.
  pose proof (load_inv _ _ _ _ Ho) as (_ & _ & Ro).
  pose proof (load_inv _ _ _ _ Hfs) as (_ & _ & Rfs).
  pose proof (load_inv _ _ _ _ Hms) as (_ & _ & Rms).
  change (2 ^ (8 * Z.of_nat 8)) with (2 ^ 64) in *.
  unfold shifted_p_offset in Wo. unfold grown in Wfs, Wms.
  split; [exact Ho|]. split; [exact Hfl|]. split; [exact Hfs|].
  split; [exact Hms|]. split; [|split].
  - intros Hlt. apply Z.ltb_lt in Hlt. rewrite Hlt in Wo.
    split; [exact Wo|]. intros Hfit.
    rewrite wrap_small in Wo by lia. exact Wo.
  - intros Hle. apply Z.ltb_ge in Hle. rewrite Hle in Wo. exact Wo.
  - intros Hx. apply Z.eqb_neq in Hx. rewrite Hx in Wfs, Wms.
    split; [exact Wfs|]. split; [exact Wms|].
    split; intros Hfit.
    + rewrite wrap_small in Wfs by lia. exact Wfs.
    + rewrite wrap_small in Wms by lia. exact Wms.
Qed.


(** C9.  The relocator's arithmetic on section header fields is 32-bit.
    The target section's [sh_offset] and [sh_size] are read through 32-bit
    views, so [base] is computed from their low 32 bits alone and is kept
    modulo 2^32; the grown size is written through the same view, so the
    low 32 bits of [sh_size] become (low 32 bits + one page) mod 2^32 and
    its high 32 bits stay as they were; and every [sh_offset] that was at
    least [base] is replaced by (old + one page) mod 2^32. *)
Theorem expand_section_low_32_bits e m j sinfo shoff shnum :
  tables_ok m = true -> describes e m j sinfo = true -> page_ok e = true ->
  e_shoff m = Some shoff -> e_shnum m = Some shnum ->
  exists m' pinfo off sz sz',
    expand_section e m sinfo = Some (m', pinfo) /\
    sh_offset m shoff j = Some off /\ sh_size m shoff j = Some sz /\
    patchinfo.base pinfo = (off mod 2 ^ 32 + sz mod 2 ^ 32) mod 2 ^ 32 /\
    sh_size m' shoff j = Some sz' /\
    sz' mod 2 ^ 32 = (sz mod 2 ^ 32 + getpagesize e) mod 2 ^ 32 /\
    sz' / 2 ^ 32 = sz / 2 ^ 32 /\
    forall t o, 0 <= t < shnum ->
      sh_offset m shoff t = Some o ->
      patchinfo.base pinfo <= o ->
      sh_offset m' shoff t = Some ((o + getpagesize e) mod 2 ^ 32).
Proof.
  intros T D P H3 H4.
  destruct (tables_ok_headers m T) as (phoff & phnum & c & d & H1 & H2 & A3 & A4).
  pose proof (tables_ok_inv _ _ _ _ _ T H1 H2 H3 H4) as B.
  destruct (expand_section_ok e m j sinfo phoff phnum shoff shnum T D P H1 H2 H3 H4)
    as (Hj & m' & off32 & size32 & Hof & Hsz & R & L & _ & _ & _ & _ & V
        & Slo & Shi & _).
  destruct (load_Some 8 m (sh_offset_p shoff j)) as [off Hoff];
    [unfold sh_offset_p; lia | unfold sh_offset_p; lia |].
  destruct (load_Some 8 m (sh_size_p shoff j)) as [sz Hsize];
    [unfold sh_size_p; lia | unfold sh_size_p; lia |].
  destruct (load4_of_load8 _ _ _ Hoff) as [Olo _].
  destruct (load4_of_load8 _ _ _ Hsize) as [Zlo Zhi].
  rewrite Zhi in Shi.
  destruct (load8_of_load4 _ _ _ _ Slo Shi) as (sz' & Hsz' & Elo & Ehi).
  exists m', {| patchinfo.base := wrap 32 (off32 + size32);
                patchinfo.size := getpagesize e |}, off, sz, sz'.
  cbn [patchinfo.base].
  replace off32 with (off mod 2 ^ 32) in * by congruence.
  replace size32 with (sz mod 2 ^ 32) in * by congruence.
  repeat split; auto.
  intros t o Ht Ho Hge. rewrite (V t o Ht Ho).
  unfold shifted_sh_offset.
  replace (o <? wrap 32 (off mod 2 ^ 32 + sz mod 2 ^ 32)) with false
    by (symmetry; apply Z.ltb_ge; exact Hge).
  rewrite wrap32_wrap64. reflexivity.
Qed.


(** ** The locator's comparison *)

Lemma describes_unique e m j j' s :
  describes e m j s = true -> describes e m j' s = true -> j = j'.
Proof.
  unfold describes.
  destruct (e_shoff m) as [shoff|]; [|discriminate].
  destruct (e_shnum m) as [shnum|]; [|discriminate].
  rewrite !andb_true_iff, !Z.eqb_eq. unfold sh_offset_p.
  intros ((((_ & _) & A) & _) & _) ((((_ & _) & B) & _) & _). lia.
Qed.

(** C10.  The locator keeps each executable segment's end in a 32-bit
    variable and compares it with the 64-bit sum [sh_addr + sh_size]: a
    segment and a section pass its test exactly when the segment is
    executable and the section's 64-bit end equals the segment's end modulo
    2^32.  The locator returns [NULL] exactly when no pair passes that test
    and otherwise the descriptor of the last pair that does.  So a section
    whose 64-bit end equals the true end [p_vaddr + p_memsz] of a segment,
    when that end is at least 2^32, passes the test with no segment and is
    never the section returned. *)
Theorem locator_truncated_segment_end e m phoff phnum shoff shnum :
  tables_ok m = true -> locator_ok e m = true ->
  e_phoff m = Some phoff -> e_phnum m = Some phnum ->
  e_shoff m = Some shoff -> e_shnum m = Some shnum ->
  (forall i j, 0 <= i < phnum -> 0 <= j < shnum ->
     exists fl va ms a sz,
       p_flags m phoff i = Some fl /\
       p_vaddr m phoff i = Some va /\ p_memsz m phoff i = Some ms /\
       sh_addr m shoff j = Some a /\ sh_size m shoff j = Some sz /\
       (matches m phoff shoff i j <->
        Z.land fl PF_X <> 0 /\
        (a + sz) mod 2 ^ 64 = (va + ms) mod 2 ^ 32) /\
       (2 ^ 32 <= va + ms -> (a + sz) mod 2 ^ 64 = va + ms ->
        (forall i', ~ matches m phoff shoff i' j) /\
        (forall s, find_exe_seg_last_section e m = Some (Some s) ->
                   describes e m j s = false)))
  /\
  exists r,
    find_exe_seg_last_section e m = Some r /\
    (r = None <->
     forall i j, 0 <= i < phnum -> 0 <= j < shnum ->
                 ~ matches m phoff shoff i j) /\
    (forall s, r = Some s ->
       exists i j,
         0 <= i < phnum /\ 0 <= j < shnum /\
         matches m phoff shoff i j /\ describes e m j s = true /\
         forall i' j', i <= i' < phnum -> 0 <= j' < shnum ->
                       i < i' \/ j < j' ->
                       ~ matches m phoff shoff i' j').
Proof.
  intros T Lk H1 H2 H3 H4.
  pose proof (tables_ok_inv _ _ _ _ _ T H1 H2 H3 H4) as B.
  destruct (find_exe_seg_last_section_spec e m phoff phnum shoff shnum
              T Lk H1 H2 H3 H4) as (r & R & C).
  assert (Res : forall s, r = Some s ->
       exists i j,
         0 <= i < phnum /\ 0 <= j < shnum /\
         matches m phoff shoff i j /\ describes e m j s = true /\
         forall i' j', i <= i' < phnum -> 0 <= j' < shnum ->
                       i < i' \/ j < j' ->
                       ~ matches m phoff shoff i' j').
  { intros s ->.
    destruct C as [[E _] | (i & j & nm & Hi & Hj & M & E & N)];
      [discriminate|].
    injection E as ->. exists i, j.
    split; [lia|]. split; [lia|]. split; [exact M|]. split; [|exact N].
    apply (describes_descriptor e m shoff shnum); auto. }
  split.
  - intros i j Hi Hj.
    destruct (load_Some 4 m (p_flags_p phoff i)) as [fl Hfl];
      [unfold p_flags_p; lia | unfold p_flags_p; lia |].
    destruct (load_Some 8 m (p_vaddr_p phoff i)) as [va Hva];
      [unfold p_vaddr_p; lia | unfold p_vaddr_p; lia |].
    destruct (load_Some 8 m (p_memsz_p phoff i)) as [ms Hms];
      [unfold p_memsz_p; lia | unfold p_memsz_p; lia |].
    destruct (load_Some 8 m (sh_addr_p shoff j)) as [a Ha];
      [unfold sh_addr_p; lia | unfold sh_addr_p; lia |].
    destruct (load_Some 8 m (sh_size_p shoff j)) as [sz Hsz];
      [unfold sh_size_p; lia | unfold sh_size_p; lia |].
    exists fl, va, ms, a, sz.
    assert (Hend : sh_end m shoff j = Some ((a + sz) mod 2 ^ 64)).
    { unfold sh_end, sh_addr, sh_size. rewrite Ha, Hsz. reflexivity. }
    repeat (split; [assumption|]). split.
    + unfold matches, executable, segment_end, p_flags, p_vaddr, p_memsz.
      rewrite Hend, Hfl, Hva, Hms. cbn [bind]. rewrite wrap32_wrap64.
      unfold wrap. split.
      * intros [X (v & Y & Z)]. split; [|congruence].
        destruct (Z.land fl PF_X =? 0) eqn:Efl; [discriminate|].
        now apply Z.eqb_neq.
      * intros [X Y]. apply Z.eqb_neq in X. rewrite X. split; [reflexivity|].
        exists ((a + sz) mod 2 ^ 64). split; congruence.
    + intros Hbig Heq.
      assert (Nm : forall i', ~ matches m phoff shoff i' j).
      { intros i' [_ (v & X & Y)]. rewrite Hend in X.
        unfold segment_end in Y.
        destruct (p_vaddr m phoff i'); [|discriminate].
        destruct (p_memsz m phoff i'); [|discriminate].
        cbn [bind] in Y.
        pose proof (wrap_range 32 (wrap 64 (z + z0)) ltac:(lia)).
        assert (v = (a + sz) mod 2 ^ 64) by congruence.
        assert (v = wrap 32 (wrap 64 (z + z0))) by congruence. lia. }
      split; [exact Nm|].
      intros s Fs. rewrite R in Fs. injection Fs as ->.
      destruct (Res s eq_refl) as (i0 & j0 & _ & _ & M0 & D0 & _).
      destruct (describes e m j s) eqn:Dj; [|reflexivity].
      rewrite (describes_unique _ _ _ _ _ Dj D0) in Nm.
      destruct (Nm i0 M0).
  - exists r. split; [exact R|]. split; [|exact Res].
    split.
    + intros ->. destruct C as [[_ N] | (i & j & nm & _ & _ & _ & E & _)];
        [exact N | discriminate].
    + intros N. destruct C as [[E _] | (i & j & nm & Hi & Hj & M & _ & _)];
        [exact E|]. destruct (N i j Hi Hj M).
Qed.

(** ** The whole pipeline *)

(** X19.  The three stages one after the other, when the locator finds a
    section.  For every image of less than 2^31 bytes whose header tables
    are laid out properly, on which the locator returns a descriptor whose
    patch boundary [b] lies inside the file, for a positive page size below
    2^31 and every payload of at most one page: the relocator returns, and
    the exporter, when [open] succeeds, every [write] is complete and
    [malloc] gives the pad, returns true and leaves a file of the image's
    length plus one page, made of the bytes of the relocated image before
    [b], the payload, zero bytes up to one page, and the bytes of the
    relocated image from [b] on. *)
Theorem patched_file_layout e m payload sinfo b :
  tables_ok m = true -> page_ok e = true ->
  open_ok e = true -> (forall k c, write_ret e k c = c) ->
  malloc_ok e (getpagesize e - Z.of_nat (length payload)) = true ->
  find_exe_seg_last_section e m = Some (Some sinfo) ->
  patch_base m sinfo = Some b -> b <= Z.of_nat (length m) ->
  Z.of_nat (length m) < 2 ^ 31 ->
  Z.of_nat (length payload) <= getpagesize e ->
  exists m' pinfo out,
    expand_section e m sinfo = Some (m', pinfo) /\
    patchinfo.base pinfo = b /\
    export_elf_file e m' payload pinfo
    = Some {| rv := true; outfile := Some out |} /\
    Z.of_nat (length out) = Z.of_nat (length m) + getpagesize e /\
    out = firstn (Z.to_nat b) m'
          ++ payload
          ++ repeat Byte.x00
               (Z.to_nat (getpagesize e - Z.of_nat (length payload)))
          ++ skipn (Z.to_nat b) m'.
Proof.
  intros T P Hopen W Hmal F Hb Hin Hlen Hpay.
  destruct (tables_ok_headers m T)
    as (phoff & phnum & shoff & shnum & H1 & H2 & H3 & H4).
  destruct (find_exe_seg_last_section_site e m sinfo shoff shnum F H3 H4)
    as (j & nm & Hj & ->).
  pose proof (describes_descriptor e m shoff shnum j nm H3 H4 Hj) as D.
  pose proof (page_ok_inv _ P) as Hp.
  destruct (expand_section_ok e m j _ phoff phnum shoff shnum T D P H1 H2 H3 H4)
    as (_ & m' & off32 & size32 & Hof & Hsz & R & L & _).
  unfold patch_base in Hb. cbn [descriptor shinfo.size shinfo.offset] in Hb.
  rewrite Hsz, Hof in Hb. cbn [bind] in Hb. rewrite wrap32_wrap64 in Hb.
  injection Hb as Hb.
  pose proof (wrap_range 32 (off32 + size32) ltac:(lia)) as Rb.
  rewrite Hb in *.
  set (pinfo := {| patchinfo.base := b; patchinfo.size := getpagesize e |}).
  exists m', pinfo.
  eexists. split; [exact R|]. split; [reflexivity|]. split.
  - apply (export_elf_file_layout e m' payload pinfo);
      cbn [pinfo patchinfo.base patchinfo.size]; auto; try lia.
  - cbn [pinfo patchinfo.base patchinfo.size]. split; [|reflexivity].
    rewrite !length_app, length_firstn, repeat_length, length_skipn. lia.
Qed.

(** ** The program on concrete images *)

(** C2.  The [sh_offset] of [.data] is 2^32, above [base] = 192; after
    [expand_section] it is 4096 and not 2^32 + 4096: the sum went through
    the 32-bit [newoff] of line 150. *)
Theorem section_offset_truncated_to_32_bits :
  sh_offset image_data_offset_4G 224 2 = Some 0x100000000 /\
  exists m' pinfo,
    locate_and_expand sample_env image_data_offset_4G = Some (m', pinfo) /\
    patchinfo.base pinfo = 192 /\
    patchinfo.size pinfo = 4096 /\
    sh_offset m' 224 2 = Some 0x1000.
Proof.
  split; [by_computation|].
  destruct (locate_and_expand sample_env image_data_offset_4G)
    as [[m' pinfo]|] eqn:E; vm_compute in E; [|discriminate].
  injection E as <- <-. eexists _, _. split; [reflexivity|].
  repeat split; by_computation.
Qed.

(** C4.  The [sh_offset] of the target section [.text] is 2^32 + 176 and
    its [sh_size] 16; [expand_section] sets [base] to 192, the sum of the
    low 32 bits, and not to 2^32 + 192. *)
Theorem patch_base_from_low_32_bits :
  sh_offset image_text_offset_4G 224 1 = Some 0x1000000b0 /\
  sh_size image_text_offset_4G 224 1 = Some 16 /\
  exists m' pinfo,
    locate_and_expand sample_env image_text_offset_4G = Some (m', pinfo) /\
    patchinfo.base pinfo = 192.
Proof.
  split; [by_computation|]. split; [by_computation|].
  destruct (locate_and_expand sample_env image_text_offset_4G)
    as [[m' pinfo]|] eqn:E; vm_compute in E; [|discriminate].
  injection E as <- <-. eexists _, _. split; reflexivity.
Qed.

(** C6.  Segment 0 is executable and ends at 2^32 + 192, where section 1
    ends too; the locator, which keeps the segment's end in 32 bits,
    returns [NULL]. *)
Theorem locator_misses_segment_above_4G :
  p_flags image_linked_at_4G 64 0 = Some 5 /\
  p_vaddr image_linked_at_4G 64 0 = Some 0x100000000 /\
  p_memsz image_linked_at_4G 64 0 = Some 192 /\
  sh_addr image_linked_at_4G 224 1 = Some 0x1000000b0 /\
  sh_size image_linked_at_4G 224 1 = Some 16 /\
  find_exe_seg_last_section sample_env image_linked_at_4G = Some None.
Proof. repeat split; by_computation. Qed.

(** C7.  With a payload of one page and one byte the exporter creates the
    file, writes the 192 bytes before [base] and the 4097 bytes of the
    payload, computes the pad size 4096 - 4097 in [size_t], fails in
    [malloc] and returns false, leaving those 4289 bytes in the file. *)
Theorem oversized_payload_leaves_partial_file :
  exists m' pinfo,
    locate_and_expand sample_env sample_image = Some (m', pinfo) /\
    patchinfo.base pinfo = 192 /\
    patchinfo.size pinfo = 4096 /\
    export_elf_file sample_env m' (repeat Byte.x41 4097) pinfo
    = Some {| rv := false;
              outfile := Some (firstn 192 m' ++ repeat Byte.x41 4097) |}.
Proof.
  destruct (locate_and_expand sample_env sample_image)
    as [[m' pinfo]|] eqn:E; vm_compute in E; [|discriminate].
  injection E as <- <-. eexists _, _. split; [reflexivity|].
  repeat split; by_computation.
Qed.

(** C8.  In [sample_image] the data segment (program header 1, 8 bytes)
    and the section [.data] both start at 192, which is [base].  The first
    loop of [expand_section] moves the section's offset to 192 plus one
    page; the second loop, which compares strictly, leaves the segment's
    [p_offset] at 192 and not at 192 plus one page.  [export_elf_file]
    inserts the page at 192: in the exported file the 8 bytes at the
    segment's [p_offset] are the payload and its pad, and the bytes the
    segment held are one page further. *)
Theorem segment_at_base_reads_payload :
  p_offset sample_image 64 1 = Some 192 /\
  p_filesz sample_image 64 1 = Some 8 /\
  sh_offset sample_image 224 2 = Some 192 /\
  firstn 8 (skipn 192 sample_image) = le_split 8 0x1122334455667788 /\
  exists m' pinfo f,
    locate_and_expand sample_env sample_image = Some (m', pinfo) /\
    patchinfo.base pinfo = 192 /\
    patchinfo.size pinfo = 4096 /\
    sh_offset m' 224 2 = Some (192 + 4096) /\
    p_offset m' 64 1 = Some 192 /\
    p_offset m' 64 1 <> Some (192 + 4096) /\
    export_elf_file sample_env m' sample_payload pinfo
    = Some {| rv := true; outfile := Some f |} /\
    p_offset f 64 1 = Some 192 /\
    p_filesz f 64 1 = Some 8 /\
    firstn 8 (skipn 192 f) = sample_payload ++ repeat Byte.x00 5 /\
    firstn 8 (skipn 4288 f) = le_split 8 0x1122334455667788.
Proof.
  split; [by_computation|]. split; [by_computation|].
  split; [by_computation|]. split; [by_computation|].
  destruct (locate_and_expand sample_env sample_image)
    as [[m' pinfo]|] eqn:E; vm_compute in E; [|discriminate].
  injection E as <- <-.
  eexists _, _, _. split; [reflexivity|].
  split; [reflexivity|]. split; [reflexivity|].
  split; [by_computation|]. split; [by_computation|].
  split; [by_computation|].
  split; [vm_compute; reflexivity|].
  repeat split; by_computation.
Qed.

(** C1.  [image_linked_at_4G] is a well-formed ELF64 image with one
    executable segment (program header 0; program header 1 is not
    executable) whose end [p_vaddr + p_memsz] = 2^32 + 192 is the end
    [sh_addr + sh_size] of exactly one section, [.text]; the payload has
    three bytes.  The locator returns [NULL] on it, so the first two stages
    give no relocated image and no patch boundary, and nothing is there to
    export. *)
Theorem pipeline_finds_no_site_above_4G :
  tables_ok image_linked_at_4G = true /\
  e_phoff image_linked_at_4G = Some 64 /\
  e_phnum image_linked_at_4G = Some 2 /\
  e_shoff image_linked_at_4G = Some 224 /\
  e_shnum image_linked_at_4G = Some 4 /\
  executable image_linked_at_4G 64 0 = Some true /\
  executable image_linked_at_4G 64 1 = Some false /\
  p_vaddr image_linked_at_4G 64 0 = Some 0x100000000 /\
  p_memsz image_linked_at_4G 64 0 = Some 192 /\
  (forall j a s,
      0 <= j < 4 ->
      sh_addr image_linked_at_4G 224 j = Some a ->
      sh_size image_linked_at_4G 224 j = Some s ->
      (a + s = 0x100000000 + 192 <-> j = 1)) /\
  Z.of_nat (length sample_payload) <= getpagesize sample_env /\
  find_exe_seg_last_section sample_env image_linked_at_4G = Some None /\
  locate_and_expand sample_env image_linked_at_4G = None.
Proof.
  do 9 (split; [by_computation|]).
  split.
  { intros j a s Hj Ha Hs.
    assert (C : j = 0 \/ j = 1 \/ j = 2 \/ j = 3) by lia.
    destruct C as [ -> | [ -> | [ -> | -> ] ] ];
      vm_compute in Ha, Hs; injection Ha as <-; injection Hs as <-;
      split; intros H; first [reflexivity | discriminate H]. }
  split; [by_computation|]. split; by_computation.
Qed.

(** ** The hypotheses hold on the sample image *)

(** X19, witness: the pipeline on [sample_image] with a three-byte payload. *)
Lemma patched_file_layout_witness :
  exists m' pinfo out,
    expand_section sample_env sample_image sample_site = Some (m', pinfo) /\
    patchinfo.base pinfo = 192 /\
    export_elf_file sample_env m' sample_payload pinfo
    = Some {| rv := true; outfile := Some out |} /\
    Z.of_nat (length out)
    = Z.of_nat (length sample_image) + getpagesize sample_env /\
    out = firstn (Z.to_nat 192) m'
          ++ sample_payload
          ++ repeat Byte.x00
               (Z.to_nat (getpagesize sample_env
                          - Z.of_nat (length sample_payload)))
          ++ skipn (Z.to_nat 192) m'.
Proof.
  apply (patched_file_layout sample_env sample_image sample_payload
           sample_site 192); by_computation.
Defined.

(** C3, witness: the two program headers of [sample_image]. *)
Lemma expand_section_program_headers_witness :
  exists m' pinfo,
    expand_section sample_env sample_image sample_site = Some (m', pinfo) /\
    forall i, 0 <= i < 2 ->
      exists o fl fs ms,
        p_offset sample_image 64 i = Some o /\
        p_flags sample_image 64 i = Some fl /\
        p_filesz sample_image 64 i = Some fs /\
        p_memsz sample_image 64 i = Some ms /\
        (patchinfo.base pinfo < o ->
         p_offset m' 64 i = Some (wrap 64 (o + getpagesize sample_env)) /\
         (o + getpagesize sample_env < 2 ^ 64 ->
          p_offset m' 64 i = Some (o + getpagesize sample_env))) /\
        (o <= patchinfo.base pinfo -> p_offset m' 64 i = Some o) /\
        (Z.land fl PF_X <> 0 ->
         p_filesz m' 64 i = Some (wrap 64 (fs + getpagesize sample_env)) /\
         p_memsz m' 64 i = Some (wrap 64 (ms + getpagesize sample_env)) /\
         (fs + getpagesize sample_env < 2 ^ 64 ->
          p_filesz m' 64 i = Some (fs + getpagesize sample_env)) /\
         (ms + getpagesize sample_env < 2 ^ 64 ->
          p_memsz m' 64 i = Some (ms + getpagesize sample_env))).
Proof.
  apply (expand_section_program_headers sample_env sample_image 1
           sample_site 64 2); by_computation.
Defined.


(** C9, witness: the target section [.text] of [sample_image]. *)
Lemma expand_section_low_32_bits_witness :
  exists m' pinfo off sz sz',
    expand_section sample_env sample_image sample_site = Some (m', pinfo) /\
    sh_offset sample_image 224 1 = Some off /\
    sh_size sample_image 224 1 = Some sz /\
    patchinfo.base pinfo = (off mod 2 ^ 32 + sz mod 2 ^ 32) mod 2 ^ 32 /\
    sh_size m' 224 1 = Some sz' /\
    sz' mod 2 ^ 32 = (sz mod 2 ^ 32 + getpagesize sample_env) mod 2 ^ 32 /\
    sz' / 2 ^ 32 = sz / 2 ^ 32 /\
    forall t o, 0 <= t < 4 ->
      sh_offset sample_image 224 t = Some o ->
      patchinfo.base pinfo <= o ->
      sh_offset m' 224 t = Some ((o + getpagesize sample_env) mod 2 ^ 32).
Proof.
  apply (expand_section_low_32_bits sample_env sample_image 1
           sample_site 224 4); by_computation.
Defined.


(** C10, witness: the locator on [sample_image]. *)
Lemma locator_truncated_segment_end_witness :
  (forall i j, 0 <= i < 2 -> 0 <= j < 4 ->
     exists fl va ms a sz,
       p_flags sample_image 64 i = Some fl /\
       p_vaddr sample_image 64 i = Some va /\
       p_memsz sample_image 64 i = Some ms /\
       sh_addr sample_image 224 j = Some a /\
       sh_size sample_image 224 j = Some sz /\
       (matches sample_image 64 224 i j <->
        Z.land fl PF_X <> 0 /\
        (a + sz) mod 2 ^ 64 = (va + ms) mod 2 ^ 32) /\
       (2 ^ 32 <= va + ms -> (a + sz) mod 2 ^ 64 = va + ms ->
        (forall i', ~ matches sample_image 64 224 i' j) /\
        (forall s,
            find_exe_seg_last_section sample_env sample_image
            = Some (Some s) ->
            describes sample_env sample_image j s = false)))
  /\
  exists r,
    find_exe_seg_last_section sample_env sample_image = Some r /\
    (r = None <->
     forall i j, 0 <= i < 2 -> 0 <= j < 4 ->
                 ~ matches sample_image 64 224 i j) /\
    (forall s, r = Some s ->
       exists i j,
         0 <= i < 2 /\ 0 <= j < 4 /\
         matches sample_image 64 224 i j /\
         describes sample_env sample_image j s = true /\
         forall i' j', i <= i' < 2 -> 0 <= j' < 4 ->
                       i < i' \/ j < j' ->
                       ~ matches sample_image 64 224 i' j').
Proof.
  apply (locator_truncated_segment_end sample_env sample_image 64 2 224 4);
    by_computation.
Defined.

(** ** The loaders *)

Section Loaders.

Implicit Types (o : os) (p : process) (path : String.string).

Lemma pair_eqb_refl x : pair_eqb x x = true.
Proof. unfold pair_eqb. now rewrite !Z.eqb_refl. Qed.

Lemma process_eta p :
  {| fds := fds p; maps := maps p; heap := heap p |} = p.
Proof. now destruct p. Qed.

(** What [open] followed by [close] of the descriptor it gave leaves. *)
Lemma close_after_open o path p :
  open_fd o path <> -1 ->
  sys_close (open_fd o path) (snd (sys_open o path p)) = p.
Proof.
  intros H. apply Z.eqb_neq in H. unfold sys_open, sys_close. rewrite H.
  cbn. rewrite Z.eqb_refl. apply process_eta.
Qed.

Lemma munmap_after_mmap o size fd p :
  sys_munmap (mmap_addr o size fd) size (snd (sys_mmap o size fd p)) = p.
Proof.
  unfold sys_mmap, sys_munmap. destruct (mmap_addr o size fd =? MAP_FAILED).
  - reflexivity.
  - cbn. rewrite pair_eqb_refl. apply process_eta.
Qed.

Lemma load_elf_failure o path p c p' :
  (forall size fd, mmap_addr o size fd <> 0) ->
  load_elf o path p = (false, c, p') ->
  c = None /\ p' = p.
Proof.
  intros Hm. unfold load_elf.
  destruct (_get_file_size o path <? 0); [intros [= <- <-]; auto|].
  destruct (sys_open o path p) as [fd p1] eqn:Eo.
  destruct (fd =? -1) eqn:Efd.
  { intros [= <- <-]. split; [reflexivity|].
    unfold sys_open in Eo. injection Eo as E1 E2. rewrite E1, Efd in E2.
    congruence. }
  destruct (sys_mmap o (_get_file_size o path) fd p1) as [elf p2] eqn:Em.
  assert (Eelf : elf = mmap_addr o (_get_file_size o path) fd)
    by (unfold sys_mmap in Em; congruence).
  destruct (elf =? 0) eqn:E0.
  { apply Z.eqb_eq in E0. rewrite Eelf in E0. destruct (Hm _ _ E0). }
  destruct (sys_malloc o (sizeof_drow_ctx o) p2) as [ctx p3] eqn:Ea.
  destruct (ctx =? 0) eqn:Ec; [|discriminate].
  intros [= <- <-]. split; [reflexivity|].
  unfold sys_malloc in Ea. injection Ea as E1 E2. rewrite E1, Ec in E2.
  subst p3. unfold sys_free. rewrite Ec.
  assert (Ep2 : p2 = snd (sys_mmap o (_get_file_size o path) fd p1))
    by now rewrite Em.
  assert (Ep1 : p1 = snd (sys_open o path p)) by now rewrite Eo.
  assert (Efd' : fd = open_fd o path)
    by (unfold sys_open in Eo; congruence).
  rewrite Ep2, Eelf, munmap_after_mmap, Ep1, Efd'.
  apply close_after_open. apply Z.eqb_neq. congruence.
Qed.

(** X2.  [load_elf] does not notice a failed [mmap]: the call reports
    [MAP_FAILED], the test of line 43 looks for [NULL], and [load_elf]
    returns true with [ctx->elf] = [MAP_FAILED], the descriptor open and
    nothing mapped. *)
Theorem load_elf_misses_failed_mmap o path p st_size ctx :
  stat_size o path = Some st_size -> 0 <= to_int st_size ->
  open_fd o path <> -1 ->
  mmap_addr o (to_int st_size) (open_fd o path) = MAP_FAILED ->
  malloc_addr o (sizeof_drow_ctx o) = ctx -> ctx <> 0 ->
  load_elf o path p
  = (true,
     Some (ctx, {| drow_ctx.fd := open_fd o path;
                   drow_ctx.size := to_int st_size;
                   drow_ctx.elf := MAP_FAILED |}),
     {| fds := open_fd o path :: fds p;
        maps := maps p;
        heap := ctx :: heap p |}).
Proof.
  intros Hs Hsz Hfd Hmap Hmal Hctx.
  unfold load_elf, _get_file_size. rewrite Hs.
  replace (to_int st_size <? 0) with false by (symmetry; apply Z.ltb_ge; lia).
  unfold sys_open. apply Z.eqb_neq in Hfd. rewrite Hfd.
  unfold sys_mmap. rewrite Hmap. cbn [MAP_FAILED].
  change (2 ^ 64 - 1 =? 2 ^ 64 - 1) with true.
  change (2 ^ 64 - 1 =? 0) with false.
  unfold sys_malloc. rewrite Hmal. apply Z.eqb_neq in Hctx. rewrite Hctx.
  reflexivity.
Qed.

(** X3.  The size of the file goes through an [int]: a file of 2^31 to
    2^32 - 1 bytes is refused, and whenever [load_elf] succeeds
    [ctx->size] is [st_size] cut to 32 bits, below 2^31, and equal to the
    true size only for files below 2 GiB. *)
Theorem load_elf_size_is_int o path p st_size :
  stat_size o path = Some st_size -> 0 <= st_size ->
  (2 ^ 31 <= st_size < 2 ^ 32 -> load_elf o path p = (false, None, p)) /\
  (forall a ctx p',
      load_elf o path p = (true, Some (a, ctx), p') ->
      drow_ctx.size ctx = st_size mod 2 ^ 32 /\
      0 <= drow_ctx.size ctx < 2 ^ 31 /\
      (drow_ctx.size ctx = st_size <-> st_size < 2 ^ 31)).
Proof.
  intros Hs Hpos. unfold load_elf, _get_file_size. rewrite Hs. split.
  - intros Hr.
    replace (to_int st_size <? 0) with true; [reflexivity|].
    symmetry. apply Z.ltb_lt. unfold to_int.
    replace (st_size + 2 ^ 31) with (st_size - 2 ^ 31 + 1 * 2 ^ 32) by lia.
    rewrite Z.mod_add, Z.mod_small by lia. lia.
  - intros a ctx p'.
    destruct (to_int st_size <? 0) eqn:E; [discriminate|].
    apply Z.ltb_ge in E.
    destruct (sys_open o path p) as [fd p1].
    destruct (fd =? -1); [discriminate|].
    destruct (sys_mmap o (to_int st_size) fd p1) as [elf p2].
    destruct (elf =? 0); [discriminate|].
    destruct (sys_malloc o (sizeof_drow_ctx o) p2) as [c p3].
    destruct (c =? 0); [discriminate|].
    intros [= _ <- _]. cbn [drow_ctx.size].
    assert (R : - 2 ^ 31 <= to_int st_size < 2 ^ 31).
    { unfold to_int.
      pose proof (Z.mod_pos_bound (st_size + 2 ^ 31) (2 ^ 32) ltac:(lia)).
      lia. }
    assert (M : to_int st_size = st_size mod 2 ^ 32).
    { pose proof (wrap32_to_int st_size) as W. unfold wrap in W.
      rewrite (Z.mod_small (to_int st_size)) in W by lia. exact W. }
    split; [exact M|]. split; [lia|]. split.
    + intros Eq. lia.
    + intros Hlt. rewrite M. apply Z.mod_small. lia.
Qed.

Lemma unload_elf_after o path p a ctx p' :
  load_elf o path p = (true, Some (a, ctx), p') ->
  unload_elf (Some ctx) p'
  = {| fds := fds p; maps := maps p; heap := a :: heap p |}.
Proof.
  unfold load_elf.
  destruct (_get_file_size o path <? 0); [discriminate|].
  destruct (sys_open o path p) as [fd p1] eqn:Eo.
  destruct (fd =? -1) eqn:Efd; [discriminate|].
  destruct (sys_mmap o (_get_file_size o path) fd p1) as [elf p2] eqn:Em.
  destruct (elf =? 0) eqn:E0; [discriminate|].
  destruct (sys_malloc o (sizeof_drow_ctx o) p2) as [c p3] eqn:Ea.
  destruct (c =? 0) eqn:Ec; [discriminate|].
  intros [= <- <- <-].
  unfold unload_elf. cbn [drow_ctx.elf drow_ctx.size drow_ctx.fd].
  rewrite E0, Efd.
  unfold sys_malloc in Ea. injection Ea as E1 E2. rewrite E1, Ec in E2.
  subst p3.
  unfold sys_mmap in Em. injection Em as E3 E4.
  unfold sys_open in Eo. injection Eo as E5 E6. rewrite E5, Efd in E6.
  subst p1. unfold sys_munmap, sys_close.
  rewrite E3 in E4. destruct (elf =? MAP_FAILED); subst p2; cbn.
  - now rewrite Z.eqb_refl.
  - now rewrite pair_eqb_refl, Z.eqb_refl.
Qed.

Lemma load_payload_failure o path p c p' :
  (forall size fd, mmap_addr o size fd <> 0) ->
  load_payload o path p = (false, c, p') ->
  c = None /\ p' = p.
Proof.
  intros Hm. unfold load_payload.
  destruct (_get_file_size o path <? 0); [intros [= <- <-]; auto|].
  destruct (sys_open o path p) as [fd p1] eqn:Eo.
  destruct (fd =? -1) eqn:Efd.
  { intros [= <- <-]. split; [reflexivity|].
    unfold sys_open in Eo. injection Eo as E1 E2. rewrite E1, Efd in E2.
    congruence. }
  destruct (sys_mmap o (_get_file_size o path) fd p1) as [data p2] eqn:Em.
  assert (Edata : data = mmap_addr o (_get_file_size o path) fd)
    by (unfold sys_mmap in Em; congruence).
  destruct (data =? 0) eqn:E0.
  { apply Z.eqb_eq in E0. rewrite Edata in E0. destruct (Hm _ _ E0). }
  destruct (sys_malloc o (sizeof_payload o) p2) as [pl p3] eqn:Ea.
  destruct (pl =? 0) eqn:Ec; [|discriminate].
  intros [= <- <-]. split; [reflexivity|].
  unfold sys_malloc in Ea. injection Ea as E1 E2. rewrite E1, Ec in E2.
  subst p3. unfold sys_free. rewrite Ec.
  assert (Ep2 : p2 = snd (sys_mmap o (_get_file_size o path) fd p1))
    by now rewrite Em.
  assert (Ep1 : p1 = snd (sys_open o path p)) by now rewrite Eo.
  assert (Efd' : fd = open_fd o path)
    by (unfold sys_open in Eo; congruence).
  rewrite Ep2, Edata, munmap_after_mmap, Ep1, Efd'.
  apply close_after_open. apply Z.eqb_neq. congruence.
Qed.

Lemma load_elf_true o path p :
  fst (fst (load_elf o path p)) = true ->
  exists a ctx p', load_elf o path p = (true, Some (a, ctx), p').
Proof.
  unfold load_elf.
  destruct (_get_file_size o path <? 0); [discriminate|].
  destruct (sys_open o path p) as [fd p1].
  destruct (fd =? -1); [discriminate|].
  destruct (sys_mmap o (_get_file_size o path) fd p1) as [elf p2].
  destruct (elf =? 0); [discriminate|].
  destruct (sys_malloc o (sizeof_drow_ctx o) p2) as [c p3].
  destruct (c =? 0); [discriminate|].
  intros _. eauto.
Qed.

End Loaders.

(** X1.  When [load_elf] returns false it leaves [*ctx] at [NULL] and
    the process as it found it: no descriptor stays open and no mapping
    stays in place.  ([mmap] never returns [NULL]: a failure is
    [MAP_FAILED].) *)
Theorem load_elf_failure_releases (o : os) path (p : process) :
  (forall size fd, mmap_addr o size fd <> 0) ->
  fst (fst (load_elf o path p)) = false ->
  load_elf o path p = (false, None, p).
Proof.
  intros Hm Hf. destruct (load_elf o path p) as [[r c] p'] eqn:E.
  cbn [fst] in Hf. subst r.
  destruct (load_elf_failure o path p c p' Hm E) as [-> ->]. reflexivity.
Qed.

(** X4.  [load_elf] followed by [unload_elf] leaves the descriptors and
    the mappings of the process as they were before the load, also when
    the [mmap] had failed unnoticed; the block that [load_elf] allocated
    for the context is still allocated: [unload_elf] does not free it. *)
Theorem unload_elf_after_load_elf (o : os) path (p : process) :
  fst (fst (load_elf o path p)) = true ->
  exists a ctx p',
    load_elf o path p = (true, Some (a, ctx), p') /\
    unload_elf (Some ctx) p'
    = {| fds := fds p; maps := maps p; heap := a :: heap p |}.
Proof.
  intros Ht. destruct (load_elf_true o path p Ht) as (a & ctx & p' & E).
  exists a, ctx, p'. split; [exact E|].
  exact (unload_elf_after o path p a ctx p' E).
Qed.

(** X5.  When [load_payload] returns false it leaves [*payload] at [NULL]
    and the process as it found it. *)
Theorem load_payload_failure_releases (o : os) path (p : process) :
  (forall size fd, mmap_addr o size fd <> 0) ->
  fst (fst (load_payload o path p)) = false ->
  load_payload o path p = (false, None, p).
Proof.
  intros Hm Hf. destruct (load_payload o path p) as [[r c] p'] eqn:E.
  cbn [fst] in Hf. subst r.
  destruct (load_payload_failure o path p c p' Hm E) as [-> ->]. reflexivity.
Qed.

(** ** What the relocator leaves alone *)

Lemma expand_section_untouched e (m : image) j sinfo phoff phnum shoff shnum :
  tables_ok m = true -> describes e m j sinfo = true -> page_ok e = true ->
  e_phoff m = Some phoff -> e_phnum m = Some phnum ->
  e_shoff m = Some shoff -> e_shnum m = Some shnum ->
  exists m' pinfo,
    expand_section e m sinfo = Some (m', pinfo) /\
    length m' = length m /\
    forall k off, untouched phoff phnum shoff shnum j k off ->
                  load k m' off = load k m off.
Proof.
  intros T D P Hphoff Hphnum Hshoff Hshnum.
  pose proof (tables_ok_inv _ _ _ _ _ T Hphoff Hphnum Hshoff Hshnum)
    as (Pl & Ph & Sl & Sh & Dis & Np & Ns).
  pose proof (describes_inv _ _ _ _ _ _ D Hshoff Hshnum) as (Hj & Eo & Es & Esl).
  pose proof (page_ok_inv _ P) as Hp.
  set (page := getpagesize e) in *.
  assert (Wp : wrap 64 page = page)
    by (apply wrap_small; change (2 ^ 64) with (2 ^ 31 * 2 ^ 33); lia).
  destruct (load_Some 4 m (sh_size_p shoff j)) as [size32 Hsz];
    [unfold sh_size_p; lia | unfold sh_size_p; lia |].
  destruct (load_Some 4 m (sh_offset_p shoff j)) as [off32 Hof];
    [unfold sh_offset_p; lia | unfold sh_offset_p; lia |].
  set (base := wrap 32 (off32 + size32)).
  destruct (store_Some 4 m (sh_size_p shoff j)
              (wrap 64 (size32 + shinfo.slackspace sinfo))) as [m1 Hs1];
    [unfold sh_size_p; lia | unfold sh_size_p; lia |].
  pose proof (store_length _ _ _ _ _ Hs1) as L1.
  assert (F1 : forall k off,
             off + Z.of_nat k <= sh_size_p shoff j \/
             sh_size_p shoff j + 4 <= off ->
             load k m1 off = load k m off).
  { intros. eapply load_store_other; eauto. }
  destruct (adjust_sections_spec loop_fuel m1 shoff base page 0 shnum)
    as (m2 & R2 & L2 & F2 & _); try lia.
  { unfold e_shnum. rewrite F1; auto. unfold sh_size_p. lia. }
  { pose proof (load_inv _ _ _ _ Hshnum) as X. unfold loop_fuel.
    change (2 ^ (8 * Z.of_nat 2)) with 65536 in X. lia. }
  assert (F02 : forall k off, 0 <= off -> off + Z.of_nat k <= 64 ->
                              load k m2 off = load k m off).
  { intros k off H0 H64. rewrite F2, F1; auto.
    - unfold sh_size_p. lia.
    - intros t Ht. unfold sh_offset_p. lia. }
  destruct (adjust_segments_spec loop_fuel m2 phoff base page 0 phnum)
    as (m3 & R3 & L3 & F3 & _); try lia.
  { unfold e_phnum. rewrite F02; auto; lia. }
  { pose proof (load_inv _ _ _ _ Hphnum) as X. unfold loop_fuel.
    change (2 ^ (8 * Z.of_nat 2)) with 65536 in X. lia. }
  assert (F03 : forall k off, 0 <= off -> off + Z.of_nat k <= 64 ->
                              load k m3 off = load k m off).
  { intros k off H0 H64. rewrite F3, F02; auto.
    intros t Ht. unfold off_phdr_fields, p_offset_p, p_filesz_p. lia. }
  destruct (store_if_spec m3 (base <? shoff) e_shoff_p (wrap 64 (shoff + page)))
    as (m4 & R4 & L4 & F4 & _);
    [unfold e_shoff_p; lia | unfold e_shoff_p; lia | apply wrap_range; lia |].
  destruct (store_if_spec m4 (base <? phoff) e_phoff_p (wrap 64 (phoff + page)))
    as (m5 & R5 & L5 & F5 & _);
    [unfold e_phoff_p; lia | unfold e_phoff_p; lia | apply wrap_range; lia |].
  exists m5, {| patchinfo.base := base; patchinfo.size := page |}.
  split; [|split; [congruence|]].
  - unfold expand_section. rewrite Es, Eo, Hsz. cbn [bind]. rewrite Hof.
    cbn [bind]. rewrite Hs1. cbn [bind].
    replace (e_shoff m1) with (Some shoff)
      by (unfold e_shoff in *; rewrite F1; auto;
          unfold sh_size_p, e_shoff_p; lia).
    cbn [bind]. fold page. rewrite Wp, wrap32_wrap64. fold base.
    rewrite R2. cbn [bind].
    replace (e_phoff m2) with (Some phoff)
      by (unfold e_phoff in *; rewrite F02; auto; unfold e_phoff_p; lia).
    cbn [bind]. rewrite R3. cbn [bind].
    replace (e_shoff m3) with (Some shoff)
      by (unfold e_shoff in *; rewrite F03; auto; unfold e_shoff_p; lia).
    cbn [bind]. rewrite R4. cbn [bind].
    replace (e_phoff m4) with (Some phoff).
    2:{ unfold e_phoff in *. rewrite F4, F03; auto;
        unfold e_shoff_p, e_phoff_p; lia. }
    cbn [bind]. rewrite R5. reflexivity.
  - intros k off (U1 & U2 & U3 & U4).
    rewrite F5, F4, F3, F2, F1; auto;
      unfold e_shoff_p, e_phoff_p in *; lia.
Qed.

(** X6.  [expand_section] works in place: the buffer keeps its length, and
    every run of bytes that meets none of the fields it may write
    ([e_phoff], [e_shoff], the low half of the target's [sh_size], the
    [sh_offset] of the sections, the [p_offset], [p_filesz] and [p_memsz]
    of the segments) reads as before.  The contents of the sections are
    such runs. *)
Theorem expand_section_frame e (m : image) j sinfo phoff phnum shoff shnum :
  tables_ok m = true -> describes e m j sinfo = true -> page_ok e = true ->
  e_phoff m = Some phoff -> e_phnum m = Some phnum ->
  e_shoff m = Some shoff -> e_shnum m = Some shnum ->
  exists m' pinfo,
    expand_section e m sinfo = Some (m', pinfo) /\
    length m' = length m /\
    (forall k off, untouched phoff phnum shoff shnum j k off ->
                   load k m' off = load k m off) /\
    (forall k off,
        64 <= off ->
        off + Z.of_nat k <= shoff \/ shoff + 64 * shnum <= off ->
        off + Z.of_nat k <= phoff \/ phoff + 56 * phnum <= off ->
        off + Z.of_nat k <= Z.of_nat (length m) ->
        firstn k (skipn (Z.to_nat off) m')
        = firstn k (skipn (Z.to_nat off) m)).
Proof.
  intros T D P H1 H2 H3 H4.
  destruct (expand_section_untouched e m j sinfo phoff phnum shoff shnum
              T D P H1 H2 H3 H4) as (m' & pinfo & R & L & F).
  pose proof (describes_inv _ _ _ _ _ _ D H3 H4) as (Hj & _).
  exists m', pinfo. split; [exact R|]. split; [exact L|]. split; [exact F|].
  intros k off H64 Hs Hp Hin.
  assert (E : load k m' off = load k m off).
  { apply F. unfold untouched, off_phdr_fields, e_phoff_p, e_shoff_p,
      sh_size_p, sh_offset_p, p_offset_p, p_filesz_p.
    repeat split; try lia; intros t Ht; lia. }
  unfold load, in_bounds in E. rewrite L in E.
  replace ((0 <=? off) && (off + Z.of_nat k <=? Z.of_nat (length m)))
    with true in E
    by (symmetry; rewrite andb_true_iff, !Z.leb_le; lia).
  injection E as E. apply le_combine_inj; [|exact E].
  rewrite !length_firstn, !length_skipn. lia.
Qed.

(** X7.  [expand_section] moves file offsets only: the name index and the
    virtual address of every section, the flags and the virtual address of
    every segment, and the two entry counts of the header are after the
    run what they were before. *)
Theorem expand_section_keeps_addresses
        e (m : image) j sinfo phoff phnum shoff shnum :
  tables_ok m = true -> describes e m j sinfo = true -> page_ok e = true ->
  e_phoff m = Some phoff -> e_phnum m = Some phnum ->
  e_shoff m = Some shoff -> e_shnum m = Some shnum ->
  exists m' pinfo,
    expand_section e m sinfo = Some (m', pinfo) /\
    e_phnum m' = Some phnum /\ e_shnum m' = Some shnum /\
    (forall t, 0 <= t < shnum ->
       sh_name m' shoff t = sh_name m shoff t /\
       sh_addr m' shoff t = sh_addr m shoff t) /\
    (forall t, 0 <= t < phnum ->
       p_flags m' phoff t = p_flags m phoff t /\
       p_vaddr m' phoff t = p_vaddr m phoff t).
Proof.
  intros T D P H1 H2 H3 H4.
  destruct (expand_section_untouched e m j sinfo phoff phnum shoff shnum
              T D P H1 H2 H3 H4) as (m' & pinfo & R & L & F).
  pose proof (tables_ok_inv _ _ _ _ _ T H1 H2 H3 H4)
    as (Pl & Ph & Sl & Sh & Dis & Np & Ns).
  pose proof (describes_inv _ _ _ _ _ _ D H3 H4) as (Hj & _).
  exists m', pinfo. split; [exact R|].
  assert (U : forall k off,
             (0 <= off /\ off + Z.of_nat k <= 32) \/
             (48 <= off /\ off + Z.of_nat k <= 64) \/
             (exists t, 0 <= t < shnum /\ sh_name_p shoff t <= off /\
                        off + Z.of_nat k <= sh_name_p shoff t + 24) \/
             (exists t, 0 <= t < phnum /\ p_flags_p phoff t - 4 <= off /\
                        off + Z.of_nat k <= p_flags_p phoff t + 4) \/
             (exists t, 0 <= t < phnum /\ p_vaddr_p phoff t <= off /\
                        off + Z.of_nat k <= p_vaddr_p phoff t + 16) ->
             load k m' off = load k m off).
  { intros k off C. apply F.
    unfold untouched, off_phdr_fields, e_phoff_p, e_shoff_p, sh_name_p,
      sh_size_p, sh_offset_p, p_flags_p, p_vaddr_p, p_offset_p, p_filesz_p
      in *.
    destruct C as [C|[C|[(t & Ht & C)|[(t & Ht & C)|(t & Ht & C)]]]];
      repeat split; try lia; intros u Hu; lia. }
  unfold e_phnum, e_shnum, sh_name, sh_addr, p_flags, p_vaddr in *.
  split; [rewrite U; auto; right; left; cbn; lia|].
  split; [rewrite U; auto; right; left; cbn; lia|].
  split.
  - intros t Ht. split; apply U; right; right; left; exists t;
      unfold sh_name_p, sh_addr_p; cbn; lia.
  - intros t Ht. split; apply U; right; right; right.
    + left. exists t. unfold p_flags_p. cbn. lia.
    + right. exists t. unfold p_vaddr_p. cbn. lia.
Qed.

(** ** The exporter under the contract of [write] *)

Section Exporter.

Implicit Types (m : image) (payload : list byte).

Lemma layout_length m payload pinfo :
  0 <= patchinfo.base pinfo <= Z.of_nat (length m) ->
  Z.of_nat (length payload) <= patchinfo.size pinfo ->
  Z.of_nat (length (layout m payload pinfo))
  = Z.of_nat (length m) + patchinfo.size pinfo.
Proof.
  intros Hb Hp. unfold layout.
  rewrite !length_app, length_firstn, length_skipn, repeat_length. lia.
Qed.

Lemma write_inv e k file buf count f n :
  posix_writes e -> 0 <= count ->
  write e k file buf count = Some (f, n) ->
  count <= Z.of_nat (length buf) /\ -1 <= n <= count /\
  f = file ++ firstn (Z.to_nat n) buf.
Proof.
  intros W Hc H. unfold write in H.
  destruct (count <=? Z.of_nat (length buf)) eqn:E; [|discriminate].
  apply Z.leb_le in E. injection H as <- <-.
  pose proof (W k count Hc) as B.
  split; [exact E|]. split; [exact B|].
  rewrite firstn_firstn. f_equal. f_equal. lia.
Qed.

Lemma checked_int_32 n c :
  -1 <= n <= c -> 0 <= c < 2 ^ 31 ->
  negb (wrap 32 (to_int n) =? c) = false -> n = c.
Proof.
  intros Hn Hc E. apply negb_false_iff, Z.eqb_eq in E.
  rewrite wrap32_to_int in E. unfold wrap in E.
  destruct (Z.eq_dec n (-1)) as [->|Hne].
  - change ((-1) mod 2 ^ 32) with (2 ^ 32 - 1) in E. lia.
  - rewrite Z.mod_small in E by lia. exact E.
Qed.

Lemma checked_int_64 n c :
  -1 <= n <= c -> 0 <= c < 2 ^ 31 ->
  negb (wrap 64 (to_int n) =? c) = false -> n = c.
Proof.
  intros Hn Hc E. apply negb_false_iff, Z.eqb_eq in E.
  destruct (Z.eq_dec n (-1)) as [->|Hne].
  - change (wrap 64 (to_int (-1))) with (2 ^ 64 - 1) in E. lia.
  - rewrite to_int_small in E by lia. rewrite wrap_small in E; [exact E|].
    change (2 ^ 64) with (2 ^ 31 * 2 ^ 33). lia.
Qed.

Lemma prefix_of_app (A B rest : list byte) n :
  (n <= length B)%nat ->
  A ++ firstn n B = firstn (length A + n) (A ++ B ++ rest).
Proof.
  intros H. rewrite firstn_app_2, firstn_app.
  replace (n - length B)%nat with 0%nat by lia.
  cbn [firstn]. rewrite app_nil_r. reflexivity.
Qed.

Lemma export_elf_file_posix e m payload pinfo r :
  open_ok e = true -> posix_writes e ->
  0 <= patchinfo.base pinfo ->
  Z.of_nat (length m) < 2 ^ 31 ->
  Z.of_nat (length payload) <= patchinfo.size pinfo < 2 ^ 31 ->
  export_elf_file e m payload pinfo = Some r ->
  patchinfo.base pinfo <= Z.of_nat (length m) /\
  exists f,
    outfile r = Some f /\
    (exists k, f = firstn k (layout m payload pinfo)) /\
    (rv r = true -> f = layout m payload pinfo).
Proof.
  intros Ho W Hb Hm Hp H.
  unfold layout.
  set (base := patchinfo.base pinfo) in *.
  set (psz := Z.of_nat (length payload)) in *.
  set (pad := patchinfo.size pinfo - psz) in *.
  assert (Wpad : wrap 64 pad = pad).
  { apply wrap_small. change (2 ^ 64) with (2 ^ 31 * 2 ^ 33). lia. }
  set (A := firstn (Z.to_nat base) m).
  set (Z0 := repeat Byte.x00 (Z.to_nat pad)).
  set (R := skipn (Z.to_nat base) m).
  unfold export_elf_file in H. rewrite Ho in H. cbn [negb] in H.
  fold base psz in H. fold pad in H. rewrite Wpad in H. fold Z0 R in H.
  destruct (write e 0 [] m base) as [[f1 n1]|] eqn:W1; [|discriminate].
  cbn [bind] in H.
  destruct (write_inv _ _ _ _ _ _ _ W Hb W1) as (C1 & N1 & ->).
  split; [exact C1|]. cbn [app] in *.
  assert (P1 : forall n, (n <= length A)%nat ->
                         firstn n m = firstn n (A ++ payload ++ Z0 ++ R)).
  { intros n Hn. rewrite firstn_app.
    replace (n - length A)%nat with 0%nat by lia.
    cbn [firstn]. rewrite app_nil_r. unfold A.
    rewrite firstn_firstn. f_equal. unfold A in Hn.
    rewrite length_firstn in Hn. lia. }
  assert (LA : length A = Z.to_nat base)
    by (unfold A; rewrite length_firstn; lia).
  destruct (negb (wrap 32 (to_int n1) =? base)) eqn:E1.
  { injection H as <-. cbn [outfile rv]. eexists. split; [reflexivity|].
    split; [|discriminate]. exists (Z.to_nat n1). apply P1. lia. }
  apply checked_int_32 in E1; [|lia|lia]. subst n1. fold A in H.
  destruct (write e 1 A payload psz) as [[f2 n2]|] eqn:W2; [|discriminate].
  cbn [bind] in H.
  assert (Hpsz : 0 <= psz) by (unfold psz; lia).
  destruct (write_inv _ _ _ _ _ _ _ W Hpsz W2) as (C2 & N2 & ->).
  destruct (negb (wrap 64 (to_int n2) =? psz)) eqn:E2.
  { injection H as <-. cbn [outfile rv]. eexists. split; [reflexivity|].
    split; [|discriminate]. exists (length A + Z.to_nat n2)%nat.
    apply prefix_of_app. unfold psz in N2. lia. }
  apply checked_int_64 in E2; [|lia|lia]. subst n2.
  replace (firstn (Z.to_nat psz) payload) with payload in H
    by (unfold psz; rewrite Nat2Z.id, firstn_all; reflexivity).
  assert (P2 : A ++ payload
               = firstn (length A + length payload)
                        (A ++ payload ++ Z0 ++ R)).
  { rewrite <- (firstn_all payload) at 1. apply prefix_of_app. lia. }
  destruct (negb (malloc_ok e pad)) eqn:Em.
  { injection H as <-. cbn [outfile rv]. eexists. split; [reflexivity|].
    split; [|discriminate]. eexists. exact P2. }
  destruct (write e 2 (A ++ payload) Z0 pad) as [[f3 n3]|] eqn:W3;
    [|discriminate].
  cbn [bind] in H.
  assert (Hpad : 0 <= pad) by (unfold pad; lia).
  destruct (write_inv _ _ _ _ _ _ _ W Hpad W3) as (C3 & N3 & ->).
  assert (LZ : length Z0 = Z.to_nat pad) by (unfold Z0; apply repeat_length).
  destruct (negb (wrap 64 (to_int n3) =? pad)) eqn:E3.
  { injection H as <-. cbn [outfile rv]. eexists. split; [reflexivity|].
    split; [|discriminate].
    exists (length (A ++ payload) + Z.to_nat n3)%nat.
    rewrite (app_assoc A payload (Z0 ++ R)).
    apply prefix_of_app. lia. }
  apply checked_int_64 in E3; [|lia|lia]. subst n3.
  replace (firstn (Z.to_nat pad) Z0) with Z0 in H
    by (rewrite <- LZ, firstn_all; reflexivity).
  assert (Wr : wrap 64 (Z.of_nat (length m) - base)
               = Z.of_nat (length m) - base).
  { apply wrap_small. change (2 ^ 64) with (2 ^ 31 * 2 ^ 33). lia. }
  rewrite Wr in H.
  assert (LR : Z.of_nat (length R) = Z.of_nat (length m) - base)
    by (unfold R; rewrite length_skipn; lia).
  destruct (Z.of_nat (length m) - base =? 0) eqn:E0.
  { apply Z.eqb_eq in E0. injection H as <-. cbn [outfile rv].
    assert (R = []) as -> by (apply length_zero_iff_nil; lia).
    rewrite !app_nil_r, <- app_assoc.
    eexists. split; [reflexivity|]. split; [|reflexivity].
    exists (length (A ++ payload ++ Z0)). rewrite firstn_all. reflexivity. }
  destruct (write e 3 ((A ++ payload) ++ Z0) R (Z.of_nat (length m) - base))
    as [[f4 n4]|] eqn:W4; [|discriminate].
  cbn [bind] in H.
  assert (Hrem : 0 <= Z.of_nat (length m) - base) by lia.
  destruct (write_inv _ _ _ _ _ _ _ W Hrem W4) as (C4 & N4 & ->).
  destruct (negb (wrap 64 (to_int n4) =? Z.of_nat (length m) - base)) eqn:E4.
  { injection H as <-. cbn [outfile rv]. eexists. split; [reflexivity|].
    split; [|discriminate].
    exists (length ((A ++ payload) ++ Z0) + Z.to_nat n4)%nat.
    replace (A ++ payload ++ Z0 ++ R) with (((A ++ payload) ++ Z0) ++ R ++ [])
      by (rewrite app_nil_r, <- !app_assoc; reflexivity).
    apply prefix_of_app. lia. }
  apply checked_int_64 in E4; [|lia|lia]. subst n4.
  injection H as <-. cbn [outfile rv].
  replace (firstn (Z.to_nat (Z.of_nat (length m) - base)) R) with R
    by (rewrite <- LR, Nat2Z.id, firstn_all; reflexivity).
  rewrite <- !app_assoc.
  eexists. split; [reflexivity|]. split; [|reflexivity].
  exists (length (A ++ payload ++ Z0 ++ R)). rewrite firstn_all. reflexivity.
Qed.

Lemma write_Some e k file buf count :
  count <= Z.of_nat (length buf) ->
  exists f n, write e k file buf count = Some (f, n).
Proof.
  intros H. unfold write.
  replace (count <=? Z.of_nat (length buf)) with true
    by (symmetry; apply Z.leb_le; lia).
  eauto.
Qed.

Lemma export_elf_file_returns e m payload pinfo :
  0 <= patchinfo.base pinfo <= Z.of_nat (length m) ->
  Z.of_nat (length m) < 2 ^ 31 ->
  exists r, export_elf_file e m payload pinfo = Some r.
Proof.
  intros Hb Hm. unfold export_elf_file.
  destruct (negb (open_ok e)); [eauto|].
  destruct (write_Some e 0 [] m (patchinfo.base pinfo)) as (f1 & n1 & ->);
    [lia|].
  cbn [bind]. destruct (negb _); [eauto|].
  destruct (write_Some e 1 f1 payload (Z.of_nat (length payload)))
    as (f2 & n2 & ->); [lia|].
  cbn [bind]. destruct (negb _); [eauto|].
  destruct (negb (malloc_ok e _)); [eauto|].
  set (padsize := wrap 64 (patchinfo.size pinfo - Z.of_nat (length payload))).
  destruct (write_Some e 2 f2 (repeat Byte.x00 (Z.to_nat padsize)) padsize)
    as (f3 & n3 & ->).
  { rewrite repeat_length.
    pose proof (wrap_range 64 (patchinfo.size pinfo
                               - Z.of_nat (length payload)) ltac:(lia)).
    fold padsize in H. lia. }
  cbn [bind]. destruct (negb _); [eauto|].
  rewrite (wrap_small 64 (Z.of_nat (length m) - patchinfo.base pinfo))
    by (change (2 ^ 64) with (2 ^ 31 * 2 ^ 33); lia).
  destruct (_ =? 0); [eauto|].
  destruct (write_Some e 3 f3 (skipn (Z.to_nat (patchinfo.base pinfo)) m)
              (Z.of_nat (length m) - patchinfo.base pinfo))
    as (f4 & n4 & ->); [rewrite length_skipn; lia|].
  cbn [bind]. destruct (negb _); eauto.
Qed.

End Exporter.

(** X8.  Whatever the [write] calls return within their contract (-1, or
    a count of at most the bytes asked for), whether or not [malloc] gives
    the pad: [export_elf_file] returns, the file it leaves behind is a
    prefix of the complete output, and it is the complete output whenever
    the function returns true.  A short or failed write is never taken for
    success. *)
Theorem export_elf_file_true_is_complete
        e (m : image) (payload : list byte) pinfo :
  open_ok e = true -> posix_writes e ->
  0 <= patchinfo.base pinfo <= Z.of_nat (length m) ->
  Z.of_nat (length m) < 2 ^ 31 ->
  Z.of_nat (length payload) <= patchinfo.size pinfo < 2 ^ 31 ->
  exists r f,
    export_elf_file e m payload pinfo = Some r /\
    outfile r = Some f /\
    (exists k, f = firstn k (layout m payload pinfo)) /\
    (rv r = true ->
     f = layout m payload pinfo /\
     Z.of_nat (length f) = Z.of_nat (length m) + patchinfo.size pinfo).
Proof.
  intros Ho W Hb Hm Hp.
  destruct (export_elf_file_returns e m payload pinfo Hb Hm) as (r & H).
  destruct (export_elf_file_posix e m payload pinfo r Ho W ltac:(lia) Hm Hp H)
    as (Hin & f & Hf & Hk & Ht).
  exists r, f. split; [exact H|]. split; [exact Hf|]. split; [exact Hk|].
  intros Hr. specialize (Ht Hr). split; [exact Ht|]. subst f.
  apply layout_length; lia.
Qed.

(** ** Reading the exported file *)

Section Layout.

Implicit Types (m : image) (payload : list byte).

Lemma layout_bytes_below m payload pinfo k off :
  0 <= off -> off + Z.of_nat k <= patchinfo.base pinfo ->
  patchinfo.base pinfo <= Z.of_nat (length m) ->
  firstn k (skipn (Z.to_nat off) (layout m payload pinfo))
  = firstn k (skipn (Z.to_nat off) m).
Proof.
  intros H0 Hk Hb. unfold layout.
  set (base := patchinfo.base pinfo) in *.
  assert (L : length (firstn (Z.to_nat base) m) = Z.to_nat base)
    by (rewrite length_firstn; lia).
  rewrite skipn_app, firstn_app, length_skipn, L.
  replace (k - (Z.to_nat base - Z.to_nat off))%nat with 0%nat by lia.
  cbn [firstn]. rewrite app_nil_r.
  rewrite <- (firstn_skipn (Z.to_nat base) m) at 2.
  rewrite skipn_app, firstn_app, length_skipn, L.
  replace (k - (Z.to_nat base - Z.to_nat off))%nat with 0%nat by lia.
  cbn [firstn]. rewrite app_nil_r. reflexivity.
Qed.

Lemma layout_bytes_above m payload pinfo k off :
  0 <= patchinfo.base pinfo <= off ->
  patchinfo.base pinfo <= Z.of_nat (length m) ->
  Z.of_nat (length payload) <= patchinfo.size pinfo ->
  firstn k (skipn (Z.to_nat (off + patchinfo.size pinfo))
                  (layout m payload pinfo))
  = firstn k (skipn (Z.to_nat off) m).
Proof.
  intros H0 Hb Hp. unfold layout.
  set (base := patchinfo.base pinfo) in *.
  set (A := firstn (Z.to_nat base) m).
  set (Z0 := repeat Byte.x00 _).
  assert (L : length (A ++ payload ++ Z0)
              = Z.to_nat (base + patchinfo.size pinfo)).
  { unfold A, Z0. rewrite !length_app, length_firstn, repeat_length. lia. }
  replace (A ++ payload ++ Z0 ++ skipn (Z.to_nat base) m)
    with ((A ++ payload ++ Z0) ++ skipn (Z.to_nat base) m)
    by (rewrite <- !app_assoc; reflexivity).
  rewrite skipn_app, L.
  rewrite (skipn_all2 (A ++ payload ++ Z0)) by lia.
  cbn [app]. rewrite skipn_skipn. do 2 f_equal. lia.
Qed.

Lemma layout_payload m payload pinfo :
  0 <= patchinfo.base pinfo <= Z.of_nat (length m) ->
  Z.of_nat (length payload) <= patchinfo.size pinfo ->
  firstn (Z.to_nat (patchinfo.size pinfo))
         (skipn (Z.to_nat (patchinfo.base pinfo)) (layout m payload pinfo))
  = payload ++ repeat Byte.x00
                 (Z.to_nat (patchinfo.size pinfo
                            - Z.of_nat (length payload))).
Proof.
  intros Hb Hp. unfold layout.
  set (base := patchinfo.base pinfo) in *.
  set (A := firstn (Z.to_nat base) m).
  set (Z0 := repeat Byte.x00 _).
  assert (L : length A = Z.to_nat base)
    by (unfold A; rewrite length_firstn; lia).
  rewrite skipn_app, L, Nat.sub_diag, skipn_all2 by lia.
  cbn [app skipn].
  replace (payload ++ Z0 ++ skipn (Z.to_nat base) m)
    with ((payload ++ Z0) ++ skipn (Z.to_nat base) m)
    by (rewrite <- !app_assoc; reflexivity).
  assert (L2 : length (payload ++ Z0) = Z.to_nat (patchinfo.size pinfo)).
  { unfold Z0. rewrite length_app, repeat_length. lia. }
  rewrite firstn_app, <- L2, firstn_all, Nat.sub_diag.
  cbn [firstn]. apply app_nil_r.
Qed.

Lemma load_of_bytes k (m1 m2 : image) off1 off2 :
  in_bounds k m1 off1 = in_bounds k m2 off2 ->
  firstn k (skipn (Z.to_nat off1) m1) = firstn k (skipn (Z.to_nat off2) m2) ->
  load k m1 off1 = load k m2 off2.
Proof. intros B E. unfold load. rewrite B, E. reflexivity. Qed.

Lemma layout_load_below m payload pinfo k off :
  0 <= off -> off + Z.of_nat k <= patchinfo.base pinfo ->
  patchinfo.base pinfo <= Z.of_nat (length m) ->
  Z.of_nat (length payload) <= patchinfo.size pinfo ->
  load k (layout m payload pinfo) off = load k m off.
Proof.
  intros H0 Hk Hb Hp. apply load_of_bytes.
  - unfold in_bounds. rewrite layout_length by lia.
    apply eq_true_iff_eq. rewrite !andb_true_iff, !Z.leb_le. lia.
  - apply layout_bytes_below; assumption.
Qed.

Lemma layout_load_above m payload pinfo k off :
  0 <= patchinfo.base pinfo <= off ->
  patchinfo.base pinfo <= Z.of_nat (length m) ->
  Z.of_nat (length payload) <= patchinfo.size pinfo ->
  load k (layout m payload pinfo) (off + patchinfo.size pinfo)
  = load k m off.
Proof.
  intros H0 Hb Hp. apply load_of_bytes.
  - unfold in_bounds. rewrite layout_length by lia.
    apply eq_true_iff_eq. rewrite !andb_true_iff, !Z.leb_le. lia.
  - apply layout_bytes_above; assumption.
Qed.

End Layout.

(** X9.  When [export_elf_file] returns true (with [write] calls inside
    their contract), the file it wrote is the buffer with [pinfo->size]
    bytes inserted at [pinfo->base]: every byte before [base] is at its
    old offset, every byte from [base] on is [pinfo->size] further, and the
    inserted bytes are the payload followed by zeros. *)
Theorem export_elf_file_inserts_at_base
        e (m : image) (payload : list byte) pinfo f :
  open_ok e = true -> posix_writes e ->
  0 <= patchinfo.base pinfo ->
  Z.of_nat (length m) < 2 ^ 31 ->
  Z.of_nat (length payload) <= patchinfo.size pinfo < 2 ^ 31 ->
  export_elf_file e m payload pinfo
  = Some {| rv := true; outfile := Some f |} ->
  (forall k off,
      0 <= off -> off + Z.of_nat k <= patchinfo.base pinfo ->
      load k f off = load k m off) /\
  (forall k off,
      patchinfo.base pinfo <= off ->
      load k f (off + patchinfo.size pinfo) = load k m off) /\
  firstn (Z.to_nat (patchinfo.size pinfo))
         (skipn (Z.to_nat (patchinfo.base pinfo)) f)
  = payload ++ repeat Byte.x00
                 (Z.to_nat (patchinfo.size pinfo
                            - Z.of_nat (length payload))).
Proof.
  intros Ho W Hb Hm Hp H.
  destruct (export_elf_file_posix e m payload pinfo _ Ho W Hb Hm Hp H)
    as (Hin & f' & Hf & _ & Ht).
  cbn [outfile rv] in Hf, Ht. injection Hf as <-.
  rewrite (Ht eq_refl). split; [|split].
  - intros k off H0 Hk. apply layout_load_below; lia.
  - intros k off H0. apply layout_load_above; lia.
  - apply layout_payload; lia.
Qed.

(** ** The patched file as a reader of its own headers finds it *)

Section PatchedFile.

Variables (e : env) (m : image) (payload : list byte).
Variables (j : Z) (sinfo : shinfo.t) (b phoff phnum shoff shnum : Z).

Hypothesis T : tables_ok m = true.
Hypothesis D : describes e m j sinfo = true.
Hypothesis P : page_ok e = true.
Hypothesis Hphoff : e_phoff m = Some phoff.
Hypothesis Hphnum : e_phnum m = Some phnum.
Hypothesis Hshoff : e_shoff m = Some shoff.
Hypothesis Hshnum : e_shnum m = Some shnum.
Hypothesis Hopen : open_ok e = true.
Hypothesis W : forall k c, write_ret e k c = c.
Hypothesis Hmal :
  malloc_ok e (getpagesize e - Z.of_nat (length payload)) = true.
Hypothesis Hb : patch_base m sinfo = Some b.
Hypothesis Hin : b <= Z.of_nat (length m).
Hypothesis Hlen : Z.of_nat (length m) < 2 ^ 31.
Hypothesis Hpay : Z.of_nat (length payload) <= getpagesize e.

Lemma pipeline_run :
  exists m' size32,
    let pinfo := {| patchinfo.base := b;
                    patchinfo.size := getpagesize e |} in
    0 <= b /\
    expand_section e m sinfo = Some (m', pinfo) /\
    export_elf_file e m' payload pinfo
    = Some {| rv := true; outfile := Some (layout m' payload pinfo) |} /\
    length m' = length m /\
    (forall k off, untouched phoff phnum shoff shnum j k off ->
                   load k m' off = load k m off) /\
    e_shnum m' = Some shnum /\
    e_shoff m' = Some (if b <? shoff
                       then wrap 64 (shoff + getpagesize e) else shoff) /\
    (forall t o, 0 <= t < shnum ->
       sh_offset m shoff t = Some o ->
       sh_offset m' shoff t
       = Some (shifted_sh_offset b (getpagesize e) o)) /\
    load 4 m (sh_size_p shoff j) = Some size32 /\
    load 4 m' (sh_size_p shoff j)
    = Some (wrap 32 (size32 + getpagesize e)) /\
    load 4 m' (sh_size_p shoff j + 4) = load 4 m (sh_size_p shoff j + 4) /\
    (exists off32, load 4 m (sh_offset_p shoff j) = Some off32 /\
                   b = wrap 32 (off32 + size32)).
Proof.
  pose proof (describes_inv _ _ _ _ _ _ D Hshoff Hshnum) as (Hj & Eo & Es & _).
  pose proof (page_ok_inv _ P) as Hp.
  destruct (expand_section_ok e m j sinfo phoff phnum shoff shnum
              T D P Hphoff Hphnum Hshoff Hshnum)
    as (_ & m' & off32 & size32 & Hof & Hsz & R & L & _ & Hn & Hs & _ & Ho
        & Hlo & Hhi & _).
  destruct (expand_section_untouched e m j sinfo phoff phnum shoff shnum
              T D P Hphoff Hphnum Hshoff Hshnum) as (m2 & pinfo2 & R2 & _ & F).
  assert (m2 = m') by congruence. subst m2. clear R2 pinfo2.
  pose proof Hb as Hb'. unfold patch_base in Hb'. rewrite Es, Eo in Hb'.
  rewrite Hsz, Hof in Hb'. cbn [bind] in Hb'. rewrite wrap32_wrap64 in Hb'.
  injection Hb' as Hb'.
  pose proof (wrap_range 32 (off32 + size32) ltac:(lia)) as Rb.
  rewrite Hb' in *.
  exists m', size32. cbn zeta.
  split; [lia|]. split; [exact R|]. split.
  { apply (export_elf_file_layout e m' payload
             {| patchinfo.base := b; patchinfo.size := getpagesize e |});
      cbn [patchinfo.base patchinfo.size]; auto; try lia. }
  split; [exact L|]. split; [exact F|]. split; [exact Hn|].
  split; [exact Hs|]. split; [exact Ho|]. split; [exact Hsz|].
  split; [exact Hlo|]. split; [exact Hhi|].
  exists off32. split; [exact Hof|symmetry; exact Hb'].
Qed.

End PatchedFile.

Lemma bytes_of_load k (m1 m2 : image) off :
  load k m1 off = load k m2 off ->
  length m1 = length m2 ->
  0 <= off -> off + Z.of_nat k <= Z.of_nat (length m2) ->
  firstn k (skipn (Z.to_nat off) m1) = firstn k (skipn (Z.to_nat off) m2).
Proof.
  intros E L H0 H1. unfold load, in_bounds in E. rewrite L in E.
  replace ((0 <=? off) && (off + Z.of_nat k <=? Z.of_nat (length m2)))
    with true in E
    by (symmetry; rewrite andb_true_iff, !Z.leb_le; lia).
  injection E as E. apply le_combine_inj; [|exact E].
  rewrite !length_firstn, !length_skipn. lia.
Qed.

Lemma firstn_plus {A} (a n : nat) (l : list A) :
  firstn (a + n) l = firstn a l ++ firstn n (skipn a l).
Proof.
  revert l. induction a as [|a IH]; intros l; [reflexivity|].
  destruct l as [|x l]; cbn [Nat.add firstn skipn app].
  - rewrite firstn_nil. reflexivity.
  - rewrite IH. reflexivity.
Qed.

Lemma untouched_section_fields phoff phnum shoff shnum j t :
  64 <= phoff -> 64 <= shoff ->
  phoff + 56 * phnum <= shoff \/ shoff + 64 * shnum <= phoff ->
  0 <= t < shnum ->
  untouched phoff phnum shoff shnum j 4 (sh_name_p shoff t) /\
  untouched phoff phnum shoff shnum j 8 (sh_addr_p shoff t) /\
  (t <> j -> untouched phoff phnum shoff shnum j 8 (sh_size_p shoff t)).
Proof.
  intros Hp Hs Dis Ht.
  unfold untouched, off_phdr_fields, e_phoff_p, e_shoff_p, sh_name_p,
    sh_addr_p, sh_size_p, sh_offset_p, p_offset_p, p_filesz_p.
  repeat split; try lia; intros u Hu; lia.
Qed.

Lemma untouched_contents phoff phnum shoff shnum j k off :
  0 <= j < shnum ->
  64 <= off ->
  off + Z.of_nat k <= phoff \/ phoff + 56 * phnum <= off ->
  off + Z.of_nat k <= shoff \/ shoff + 64 * shnum <= off ->
  untouched phoff phnum shoff shnum j k off.
Proof.
  intros Hj H0 Hp Hs.
  unfold untouched, off_phdr_fields, e_phoff_p, e_shoff_p,
    sh_size_p, sh_offset_p, p_offset_p, p_filesz_p.
  repeat split; try lia; intros u Hu; lia.
Qed.

(** X10.  The patched file, read through its own header.  When the patch
    boundary lies behind the ELF header and before the section header
    table, [e_shoff] of the exported file is the old one plus one page, the
    table is there, and its entries have the names and addresses of the
    input and the offsets that [expand_section] computed; the sizes of all
    sections but the target are those of the input. *)
Theorem patched_file_section_table
        e (m : image) (payload : list byte) j sinfo b phoff phnum shoff shnum :
  tables_ok m = true -> describes e m j sinfo = true -> page_ok e = true ->
  e_phoff m = Some phoff -> e_phnum m = Some phnum ->
  e_shoff m = Some shoff -> e_shnum m = Some shnum ->
  open_ok e = true -> (forall k c, write_ret e k c = c) ->
  malloc_ok e (getpagesize e - Z.of_nat (length payload)) = true ->
  patch_base m sinfo = Some b -> 64 <= b < shoff ->
  Z.of_nat (length m) < 2 ^ 31 ->
  Z.of_nat (length payload) <= getpagesize e ->
  exists m' pinfo f,
    expand_section e m sinfo = Some (m', pinfo) /\
    export_elf_file e m' payload pinfo
    = Some {| rv := true; outfile := Some f |} /\
    e_shoff f = Some (shoff + getpagesize e) /\
    e_shnum f = Some shnum /\
    forall t, 0 <= t < shnum ->
      sh_name f (shoff + getpagesize e) t = sh_name m shoff t /\
      sh_addr f (shoff + getpagesize e) t = sh_addr m shoff t /\
      (forall o, sh_offset m shoff t = Some o ->
                 sh_offset f (shoff + getpagesize e) t
                 = Some (shifted_sh_offset b (getpagesize e) o)) /\
      (t <> j -> sh_size f (shoff + getpagesize e) t = sh_size m shoff t).
Proof.
  intros T D P H1 H2 H3 H4 Hopen W Hmal Hb Hb64 Hlen Hpay.
  pose proof (tables_ok_inv _ _ _ _ _ T H1 H2 H3 H4)
    as (Pl & Ph & Sl & Sh & Dis & Np & Ns).
  pose proof (page_ok_inv _ P) as Hp.
  pose proof (describes_inv _ _ _ _ _ _ D H3 H4) as (Hj & _).
  assert (Hin : b <= Z.of_nat (length m)) by lia.
  destruct (pipeline_run e m payload j sinfo b phoff phnum shoff shnum
              T D P H1 H2 H3 H4 Hopen W Hmal Hb Hin Hlen Hpay)
    as (m' & size32 & _ & R & X & L & F & Hn & Hs & Ho & _).
  set (page := getpagesize e) in *.
  set (pinfo := {| patchinfo.base := b; patchinfo.size := page |}) in *.
  exists m', pinfo, (layout m' payload pinfo).
  split; [exact R|]. split; [exact X|].
  assert (Below : forall k off, 0 <= off -> off + Z.of_nat k <= b ->
                    load k (layout m' payload pinfo) off = load k m' off).
  { intros. apply layout_load_below; cbn [pinfo patchinfo.base patchinfo.size];
      lia. }
  assert (Above : forall k off, b <= off ->
                    load k (layout m' payload pinfo) (off + page)
                    = load k m' off).
  { intros k off Hoff.
    apply (layout_load_above m' payload pinfo k off);
      cbn [pinfo patchinfo.base patchinfo.size]; lia. }
  split.
  { unfold e_shoff in *. rewrite Below by (unfold e_shoff_p; lia).
    rewrite Hs. replace (b <? shoff) with true by (symmetry; apply Z.ltb_lt; lia).
    rewrite wrap_small; [reflexivity|].
    change (2 ^ 64) with (2 ^ 31 * 2 ^ 33). lia. }
  split.
  { unfold e_shnum in *. rewrite Below by (cbn; lia). exact Hn. }
  intros t Ht.
  destruct (untouched_section_fields phoff phnum shoff shnum j t
              Pl Sl Dis Ht) as (U1 & U2 & U3).
  unfold sh_name, sh_addr, sh_offset, sh_size in *.
  replace (sh_name_p (shoff + page) t) with (sh_name_p shoff t + page)
    by (unfold sh_name_p; lia).
  replace (sh_addr_p (shoff + page) t) with (sh_addr_p shoff t + page)
    by (unfold sh_addr_p; lia).
  replace (sh_offset_p (shoff + page) t) with (sh_offset_p shoff t + page)
    by (unfold sh_offset_p; lia).
  replace (sh_size_p (shoff + page) t) with (sh_size_p shoff t + page)
    by (unfold sh_size_p; lia).
  rewrite !Above by (unfold sh_name_p, sh_addr_p, sh_offset_p, sh_size_p; lia).
  split; [apply F, U1|]. split; [apply F, U2|]. split.
  - intros o Eo. apply Ho; assumption.
  - intros Hne. apply F, U3, Hne.
Qed.

(** X11.  Sections other than the target keep their bytes.  For a
    well-formed image of less than 2^31 bytes and a payload of at most one
    page, with [open], [malloc] and every [write] succeeding, and with the
    patch boundary behind the ELF header and before the section header
    table (64 <= base < [e_shoff]): in the exported file, the section table
    found at the old [e_shoff] plus one page gives for every section other
    than the target an offset and a size at which the file holds the bytes
    that the input held for it, provided the section lies behind the ELF
    header, inside the file, clear of the two header tables, and wholly on
    one side of the patch boundary. *)
Theorem patched_file_keeps_sections
        e (m : image) (payload : list byte) j sinfo b phoff phnum shoff shnum :
  tables_ok m = true -> describes e m j sinfo = true -> page_ok e = true ->
  e_phoff m = Some phoff -> e_phnum m = Some phnum ->
  e_shoff m = Some shoff -> e_shnum m = Some shnum ->
  open_ok e = true -> (forall k c, write_ret e k c = c) ->
  malloc_ok e (getpagesize e - Z.of_nat (length payload)) = true ->
  patch_base m sinfo = Some b -> 64 <= b < shoff ->
  Z.of_nat (length m) < 2 ^ 31 ->
  Z.of_nat (length payload) <= getpagesize e ->
  exists m' pinfo f,
    expand_section e m sinfo = Some (m', pinfo) /\
    export_elf_file e m' payload pinfo
    = Some {| rv := true; outfile := Some f |} /\
    forall t o s,
      0 <= t < shnum -> t <> j ->
      sh_offset m shoff t = Some o -> sh_size m shoff t = Some s ->
      64 <= o -> o + s <= Z.of_nat (length m) ->
      o + s <= phoff \/ phoff + 56 * phnum <= o ->
      o + s <= shoff \/ shoff + 64 * shnum <= o ->
      o + s <= b \/ b <= o ->
      section_bytes m shoff t
      = Some (firstn (Z.to_nat s) (skipn (Z.to_nat o) m)) /\
      section_bytes f (shoff + getpagesize e) t = section_bytes m shoff t.
Proof.
  intros T D P H1 H2 H3 H4 Hopen W Hmal Hb Hb64 Hlen Hpay.
  pose proof (tables_ok_inv _ _ _ _ _ T H1 H2 H3 H4)
    as (Pl & Ph & Sl & Sh & Dis & Np & Ns).
  pose proof (page_ok_inv _ P) as Hp.
  pose proof (describes_inv _ _ _ _ _ _ D H3 H4) as (Hj & _).
  assert (Hin : b <= Z.of_nat (length m)) by lia.
  destruct (pipeline_run e m payload j sinfo b phoff phnum shoff shnum
              T D P H1 H2 H3 H4 Hopen W Hmal Hb Hin Hlen Hpay)
    as (m' & size32 & _ & R & X & L & F & Hn & Hs & Ho & _).
  set (page := getpagesize e) in *.
  set (pinfo := {| patchinfo.base := b; patchinfo.size := page |}) in *.
  exists m', pinfo, (layout m' payload pinfo).
  split; [exact R|]. split; [exact X|].
  intros t o s Ht Hne Eo Es Ho64 Hend Cp Cs Cb.
  assert (Hs0 : 0 <= s) by (apply load_inv in Es; lia).
  assert (Sm : section_bytes m shoff t
               = Some (firstn (Z.to_nat s) (skipn (Z.to_nat o) m))).
  { unfold section_bytes. rewrite Eo, Es. cbn [bind].
    replace (o + s <=? Z.of_nat (length m)) with true
      by (symmetry; apply Z.leb_le; lia).
    reflexivity. }
  split; [exact Sm|]. rewrite Sm.
  destruct (untouched_section_fields phoff phnum shoff shnum j t
              Pl Sl Dis Ht) as (_ & _ & U3).
  assert (Lf : Z.of_nat (length (layout m' payload pinfo))
               = Z.of_nat (length m) + page).
  { rewrite layout_length; cbn [pinfo patchinfo.base patchinfo.size]; lia. }
  assert (Fb : firstn (Z.to_nat s) (skipn (Z.to_nat o) m')
               = firstn (Z.to_nat s) (skipn (Z.to_nat o) m)).
  { apply bytes_of_load; [|exact L|lia|lia].
    apply F, untouched_contents; try lia. }
  unfold section_bytes, sh_offset, sh_size in *.
  replace (sh_offset_p (shoff + page) t) with (sh_offset_p shoff t + page)
    by (unfold sh_offset_p; lia).
  replace (sh_size_p (shoff + page) t) with (sh_size_p shoff t + page)
    by (unfold sh_size_p; lia).
  rewrite !(layout_load_above m' payload pinfo)
    by (cbn [pinfo patchinfo.base patchinfo.size];
        unfold sh_offset_p, sh_size_p; lia).
  rewrite (Ho t o Ht Eo), (F _ _ (U3 Hne)), Es. cbn [bind].
  unfold shifted_sh_offset. destruct (o <? b) eqn:Eob.
  - apply Z.ltb_lt in Eob.
    replace (o + s <=? Z.of_nat (length (layout m' payload pinfo))) with true
      by (symmetry; apply Z.leb_le; lia).
    f_equal. rewrite <- Fb.
    apply layout_bytes_below; cbn [pinfo patchinfo.base]; lia.
  - apply Z.ltb_ge in Eob.
    rewrite (wrap_small 64), (wrap_small 32);
      [|lia|change (2 ^ 64) with (2 ^ 31 * 2 ^ 33); lia].
    replace (o + page + s <=? Z.of_nat (length (layout m' payload pinfo)))
      with true by (symmetry; apply Z.leb_le; lia).
    f_equal. rewrite <- Fb.
    apply (layout_bytes_above m' payload pinfo);
      cbn [pinfo patchinfo.base patchinfo.size]; lia.
Qed.

(** X12.  The target section of the patched file.  For a well-formed image
    of less than 2^31 bytes and a payload of at most one page, with [open],
    [malloc] and every [write] succeeding, with the patch boundary before
    the section header table (base < [e_shoff]), and for a non-empty
    target that lies behind the ELF header, clear of the program header
    table, and whose offset and size add up below 2^32: the patch boundary
    is the end of the section, and in the exported file the section (found
    in the table at the old [e_shoff] plus one page, at its old offset and
    with its size grown by one page) consists of its old bytes followed by
    the payload and the zero pad. *)
Theorem patched_file_target_section
        e (m : image) (payload : list byte) j sinfo b phoff phnum shoff shnum
        o s :
  tables_ok m = true -> describes e m j sinfo = true -> page_ok e = true ->
  e_phoff m = Some phoff -> e_phnum m = Some phnum ->
  e_shoff m = Some shoff -> e_shnum m = Some shnum ->
  open_ok e = true -> (forall k c, write_ret e k c = c) ->
  malloc_ok e (getpagesize e - Z.of_nat (length payload)) = true ->
  patch_base m sinfo = Some b -> b < shoff ->
  Z.of_nat (length m) < 2 ^ 31 ->
  Z.of_nat (length payload) <= getpagesize e ->
  sh_offset m shoff j = Some o -> sh_size m shoff j = Some s ->
  64 <= o -> 0 < s -> o + s < 2 ^ 32 ->
  o + s <= phoff \/ phoff + 56 * phnum <= o ->
  exists m' pinfo f,
    expand_section e m sinfo = Some (m', pinfo) /\
    export_elf_file e m' payload pinfo
    = Some {| rv := true; outfile := Some f |} /\
    b = o + s /\
    sh_offset f (shoff + getpagesize e) j = Some o /\
    sh_size f (shoff + getpagesize e) j = Some (s + getpagesize e) /\
    section_bytes f (shoff + getpagesize e) j
    = Some (firstn (Z.to_nat s) (skipn (Z.to_nat o) m)
            ++ payload
            ++ repeat Byte.x00
                 (Z.to_nat (getpagesize e - Z.of_nat (length payload)))).
Proof.
  intros T D P H1 H2 H3 H4 Hopen W Hmal Hb Hbs Hlen Hpay Eo Es Ho64 Hs0
         Hfit Cp.
  pose proof (tables_ok_inv _ _ _ _ _ T H1 H2 H3 H4)
    as (Pl & Ph & Sl & Sh & Dis & Np & Ns).
  pose proof (page_ok_inv _ P) as Hp.
  pose proof (describes_inv _ _ _ _ _ _ D H3 H4) as (Hj & _).
  assert (Hin : b <= Z.of_nat (length m)) by lia.
  destruct (pipeline_run e m payload j sinfo b phoff phnum shoff shnum
              T D P H1 H2 H3 H4 Hopen W Hmal Hb Hin Hlen Hpay)
    as (m' & size32 & _ & R & X & L & F & Hn & Hs & Ho & Hsz & Hlo & Hhi
        & off32 & Hof & Hbeq).
  set (page := getpagesize e) in *.
  set (pinfo := {| patchinfo.base := b; patchinfo.size := page |}) in *.
  pose proof (load_inv _ _ _ _ Eo) as (_ & _ & Ro).
  pose proof (load_inv _ _ _ _ Es) as (_ & _ & Rs).
  destruct (load4_of_load8 _ _ _ Eo) as (Eo4 & _).
  destruct (load4_of_load8 _ _ _ Es) as (Es4 & Es4h).
  unfold sh_offset, sh_size in Eo, Es.
  assert (off32 = o)
    by (rewrite Hof in Eo4; injection Eo4 as ->; apply Z.mod_small; lia).
  assert (size32 = s)
    by (rewrite Hsz in Es4; injection Es4 as ->; apply Z.mod_small; lia).
  subst off32 size32.
  assert (Hbo : b = o + s) by (rewrite Hbeq; apply wrap_small; lia).
  rewrite (wrap_small 32) in Hlo by lia.
  rewrite Es4h in Hhi. rewrite (Z.div_small s) in Hhi by lia.
  destruct (load8_of_load4 _ _ _ _ Hlo Hhi) as (v & Ev & Vlo & Vhi).
  assert (v = s + page).
  { pose proof (Z.div_mod v (2 ^ 32) ltac:(lia)) as Q. lia. }
  subst v.
  assert (Lf : Z.of_nat (length (layout m' payload pinfo))
               = Z.of_nat (length m) + page).
  { rewrite layout_length; cbn [pinfo patchinfo.base patchinfo.size]; lia. }
  assert (Eo' : load 8 (layout m' payload pinfo)
                     (sh_offset_p (shoff + page) j) = Some o).
  { replace (sh_offset_p (shoff + page) j) with (sh_offset_p shoff j + page)
      by (unfold sh_offset_p; lia).
    rewrite (layout_load_above m' payload pinfo)
      by (cbn [pinfo patchinfo.base patchinfo.size];
          unfold sh_offset_p; lia).
    change (sh_offset m' shoff j = Some o).
    rewrite (Ho j o Hj Eo). unfold shifted_sh_offset.
    replace (o <? b) with true by (symmetry; apply Z.ltb_lt; lia).
    reflexivity. }
  assert (Es' : load 8 (layout m' payload pinfo)
                     (sh_size_p (shoff + page) j) = Some (s + page)).
  { replace (sh_size_p (shoff + page) j) with (sh_size_p shoff j + page)
      by (unfold sh_size_p; lia).
    rewrite (layout_load_above m' payload pinfo)
      by (cbn [pinfo patchinfo.base patchinfo.size];
          unfold sh_size_p; lia).
    exact Ev. }
  exists m', pinfo, (layout m' payload pinfo).
  split; [exact R|]. split; [exact X|]. split; [exact Hbo|].
  split; [exact Eo'|]. split; [exact Es'|].
  unfold section_bytes, sh_offset, sh_size. rewrite Eo', Es'. cbn [bind].
  replace (o + (s + page) <=? Z.of_nat (length (layout m' payload pinfo)))
    with true by (symmetry; apply Z.leb_le; lia).
  f_equal.
  replace (Z.to_nat (s + page)) with (Z.to_nat s + Z.to_nat page)%nat by lia.
  rewrite firstn_plus, skipn_skipn.
  replace (Z.to_nat s + Z.to_nat o)%nat with (Z.to_nat b) by lia.
  f_equal.
  - rewrite layout_bytes_below by (cbn [pinfo patchinfo.base]; lia).
    apply bytes_of_load; [|exact L|lia|lia].
    apply F, untouched_contents; try lia.
  - apply (layout_payload m' payload pinfo);
      cbn [pinfo patchinfo.base patchinfo.size]; lia.
Qed.

(** X13.  A section header table that starts exactly at the patch boundary
    is left behind: [expand_section] moves [e_shoff] only when it is
    greater than [base], while [export_elf_file] inserts the page at
    [base].  The exported file then has the old [e_shoff], and what lies
    there is the payload and its pad, not the table. *)
Theorem patched_file_table_at_base
        e (m : image) (payload : list byte) j sinfo phoff phnum shoff shnum :
  tables_ok m = true -> describes e m j sinfo = true -> page_ok e = true ->
  e_phoff m = Some phoff -> e_phnum m = Some phnum ->
  e_shoff m = Some shoff -> e_shnum m = Some shnum ->
  open_ok e = true -> (forall k c, write_ret e k c = c) ->
  malloc_ok e (getpagesize e - Z.of_nat (length payload)) = true ->
  patch_base m sinfo = Some shoff ->
  Z.of_nat (length m) < 2 ^ 31 ->
  Z.of_nat (length payload) <= getpagesize e ->
  exists m' pinfo f,
    expand_section e m sinfo = Some (m', pinfo) /\
    export_elf_file e m' payload pinfo
    = Some {| rv := true; outfile := Some f |} /\
    e_shoff f = Some shoff /\
    firstn (Z.to_nat (getpagesize e)) (skipn (Z.to_nat shoff) f)
    = payload ++ repeat Byte.x00
                   (Z.to_nat (getpagesize e - Z.of_nat (length payload))) /\
    forall k off, shoff <= off ->
                  load k f (off + getpagesize e) = load k m' off.
Proof.
  intros T D P H1 H2 H3 H4 Hopen W Hmal Hb Hlen Hpay.
  pose proof (tables_ok_inv _ _ _ _ _ T H1 H2 H3 H4)
    as (Pl & Ph & Sl & Sh & Dis & Np & Ns).
  pose proof (page_ok_inv _ P) as Hp.
  assert (Hin : shoff <= Z.of_nat (length m)) by lia.
  destruct (pipeline_run e m payload j sinfo shoff phoff phnum shoff shnum
              T D P H1 H2 H3 H4 Hopen W Hmal Hb Hin Hlen Hpay)
    as (m' & size32 & _ & R & X & L & F & Hn & Hs & _).
  set (page := getpagesize e) in *.
  set (pinfo := {| patchinfo.base := shoff; patchinfo.size := page |}) in *.
  exists m', pinfo, (layout m' payload pinfo).
  split; [exact R|]. split; [exact X|]. split; [|split].
  - unfold e_shoff in *.
    rewrite layout_load_below
      by (cbn [pinfo patchinfo.base patchinfo.size]; unfold e_shoff_p; lia).
    rewrite Hs, Z.ltb_irrefl. reflexivity.
  - apply (layout_payload m' payload pinfo);
      cbn [pinfo patchinfo.base patchinfo.size]; lia.
  - intros k off Hoff. apply (layout_load_above m' payload pinfo k off);
      cbn [pinfo patchinfo.base patchinfo.size]; lia.
Qed.

(** ** More on the locator *)

Lemma load1_nth (l : list byte) k :
  (k < length l)%nat ->
  load 1 l (Z.of_nat k) = Some (byte.unsigned (nth k l Byte.x00)).
Proof.
  intros H. unfold load.
  replace (in_bounds 1 l (Z.of_nat k)) with true
    by (symmetry; apply in_bounds_spec; lia).
  rewrite Nat2Z.id. f_equal.
  revert l H. induction k as [|k IH]; intros [|x l] H; cbn [length] in H;
    try lia.
  - cbn [skipn firstn nth le_combine]. rewrite ?Z.shiftl_0_l.
    apply Z.lor_0_r.
  - cbn [skipn nth]. apply IH. lia.
Qed.

Lemma strncpy_spec n : forall (m : image) src l,
  strncpy n m src = Some l ->
  length l = n /\
  forall k, (k < n)%nat ->
    ((forall i, (i <= k)%nat -> load 1 m (src + Z.of_nat i) <> Some 0) ->
     load 1 l (Z.of_nat k) = load 1 m (src + Z.of_nat k)) /\
    ((exists i, (i <= k)%nat /\ load 1 m (src + Z.of_nat i) = Some 0) ->
     load 1 l (Z.of_nat k) = Some 0).
Proof.
  induction n as [|n IH]; intros m src l H.
  { cbn [strncpy] in H. injection H as <-. split; [reflexivity|]. lia. }
  cbn [strncpy] in H.
  destruct (load 1 m src) as [c|] eqn:Ec; [|discriminate]. cbn [bind] in H.
  destruct (c =? 0) eqn:E0.
  - apply Z.eqb_eq in E0. subst c.
    assert (Hl : l = repeat Byte.x00 (S n)) by congruence.
    clear H. subst l.
    split; [apply repeat_length|]. intros k Hk. split.
    + intros N. exfalso. apply (N 0%nat); [lia|].
      rewrite Z.add_0_r. exact Ec.
    + intros _. rewrite load1_nth by (rewrite repeat_length; lia).
      rewrite nth_repeat. reflexivity.
  - apply Z.eqb_neq in E0.
    destruct (strncpy n m (src + 1)) as [rest|] eqn:Er; [|discriminate].
    cbn [bind] in H. injection H as <-.
    destruct (IH m (src + 1) rest Er) as (Lr & Hr).
    split; [cbn [length]; lia|].
    intros k Hk.
    rewrite load1_nth by (cbn [length]; lia).
    destruct k as [|k].
    + cbn [nth]. split.
      * intros _. rewrite Z.add_0_r, Ec. f_equal.
        rewrite byte.unsigned_of_Z. apply load_inv in Ec.
        unfold byte.wrap. apply Z.mod_small.
        change (2 ^ (8 * Z.of_nat 1)) with 256 in Ec.
        change (2 ^ 8) with 256. lia.
      * intros (i & Hi & Z0). exfalso. apply E0.
        assert (i = 0%nat) by lia. subst i.
        rewrite Z.add_0_r, Ec in Z0. congruence.
    + cbn [nth]. destruct (Hr k ltac:(lia)) as (Hc & Hz).
      rewrite <- load1_nth by lia.
      replace (src + Z.of_nat (S k)) with (src + 1 + Z.of_nat k) by lia.
      split.
      * intros N. apply Hc. intros i Hi.
        replace (src + 1 + Z.of_nat i) with (src + Z.of_nat (S i)) by lia.
        apply N. lia.
      * intros (i & Hi & Z0). apply Hz. destruct i as [|i].
        -- exfalso. apply E0. rewrite Z.add_0_r, Ec in Z0. congruence.
        -- exists i. split; [lia|].
           replace (src + 1 + Z.of_nat i) with (src + Z.of_nat (S i)) by lia.
           exact Z0.
Qed.

Section LocatorWithoutMemory.

Variables (e : env) (m : image) (phdr shtable shstr phnum shnum : Z).
Hypothesis Hphnum : e_phnum m = Some phnum.
Hypothesis Hshnum : e_shnum m = Some shnum.
Hypothesis Hph : 0 <= phdr /\ phdr + 56 * phnum <= Z.of_nat (length m).
Hypothesis Hsh : 0 <= shtable /\ shtable + 64 * shnum <= Z.of_nat (length m).
Hypothesis Hnomem : malloc_ok e (sizeof_shinfo e) = false.

Lemma find_sections_no_memory send fuel : forall j s,
  0 <= j -> (Z.to_nat (shnum - j) < fuel)%nat ->
  find_sections fuel e m shtable shstr send j s = Some (Scanning s) \/
  find_sections fuel e m shtable shstr send j s = Some (Returned None).
Proof.
  induction fuel as [|fuel IH]; intros j s Hj Hf; [lia|].
  cbn [find_sections]. rewrite Hshnum. cbn [bind].
  destruct (j <? shnum) eqn:Ej; [|left; reflexivity].
  apply Z.ltb_lt in Ej.
  destruct (load_Some 8 m (sh_addr_p shtable j)) as [a Ha];
    [unfold sh_addr_p; lia | unfold sh_addr_p; lia |].
  destruct (load_Some 8 m (sh_size_p shtable j)) as [sz Hsz];
    [unfold sh_size_p; lia | unfold sh_size_p; lia |].
  unfold sh_addr, sh_size. rewrite Ha, Hsz. cbn [bind].
  destruct (wrap 64 (a + sz) =? send).
  - rewrite Hnomem. right. reflexivity.
  - apply IH; lia.
Qed.

Lemma find_segments_no_memory fuel : forall i,
  0 <= i -> (Z.to_nat (phnum - i) < fuel)%nat ->
  find_segments fuel e m phdr shtable shstr i None = Some (Scanning None) \/
  find_segments fuel e m phdr shtable shstr i None = Some (Returned None).
Proof.
  induction fuel as [|fuel IH]; intros i Hi Hf; [lia|].
  cbn [find_segments]. rewrite Hphnum. cbn [bind].
  destruct (i <? phnum) eqn:Ei; [|left; reflexivity].
  apply Z.ltb_lt in Ei.
  destruct (load_Some 4 m (p_flags_p phdr i)) as [fl Hfl];
    [unfold p_flags_p; lia | unfold p_flags_p; lia |].
  destruct (load_Some 8 m (p_vaddr_p phdr i)) as [va Hva];
    [unfold p_vaddr_p; lia | unfold p_vaddr_p; lia |].
  destruct (load_Some 8 m (p_memsz_p phdr i)) as [ms Hms];
    [unfold p_memsz_p; lia | unfold p_memsz_p; lia |].
  unfold p_flags, p_vaddr, p_memsz. rewrite Hfl. cbn [bind].
  destruct (Z.land fl PF_X =? 0); [apply IH; lia|].
  rewrite Hva, Hms. cbn [bind].
  destruct (find_sections_no_memory (wrap 32 (wrap 64 (va + ms)))
              loop_fuel 0 None) as [R|R]; [lia | | |].
  { apply load_inv in Hshnum. unfold loop_fuel.
    change (2 ^ (8 * Z.of_nat 2)) with 65536 in Hshnum. lia. }
  - rewrite R. cbn [bind]. apply IH; lia.
  - rewrite R. cbn [bind]. right. reflexivity.
Qed.

End LocatorWithoutMemory.

(** X14.  Out of memory, the locator finds nothing: when [malloc] refuses
    the descriptor, [find_exe_seg_last_section] runs to its end on every
    image with proper tables and returns [NULL], whether a section closes
    an executable segment or not. *)
Theorem locator_out_of_memory e (m : image) shoff ndx shstr :
  tables_ok m = true ->
  malloc_ok e (sizeof_shinfo e) = false ->
  e_shoff m = Some shoff -> e_shstrndx m = Some ndx ->
  sh_offset m shoff ndx = Some shstr ->
  find_exe_seg_last_section e m = Some None.
Proof.
  intros T Hno H3 Hndx Hstr.
  destruct (tables_ok_headers m T)
    as (phoff & phnum & shoff' & shnum & H1 & H2 & H3' & H4).
  assert (shoff' = shoff) by congruence. subst shoff'.
  pose proof (tables_ok_inv _ _ _ _ _ T H1 H2 H3 H4) as B.
  unfold find_exe_seg_last_section. rewrite H1, H3, Hndx. cbn [bind].
  rewrite Hstr. cbn [bind].
  destruct (find_segments_no_memory e m phoff shoff shstr phnum shnum
              H2 H4 ltac:(lia) ltac:(lia) Hno loop_fuel 0) as [R|R];
    [lia | | rewrite R; reflexivity | rewrite R; reflexivity].
  pose proof (load_inv _ _ _ _ H2) as X. unfold loop_fuel.
  change (2 ^ (8 * Z.of_nat 2)) with 65536 in X. lia.
Qed.

(** X15.  The name in the descriptor.  What the locator returns for a
    section carries in [name] exactly [MAX_SH_NAMELEN] bytes: the bytes of
    the section's name in the string table up to its first NUL, and NULs
    from there on.  A name of [MAX_SH_NAMELEN] characters or more is cut
    and left without a terminator. *)
Theorem locator_copies_section_name
        e (m : image) phoff phnum shoff shnum ndx shstr :
  tables_ok m = true -> locator_ok e m = true ->
  e_phoff m = Some phoff -> e_phnum m = Some phnum ->
  e_shoff m = Some shoff -> e_shnum m = Some shnum ->
  e_shstrndx m = Some ndx -> sh_offset m shoff ndx = Some shstr ->
  exists r,
    find_exe_seg_last_section e m = Some r /\
    forall s, r = Some s ->
      exists j n,
        0 <= j < shnum /\ describes e m j s = true /\
        sh_name m shoff j = Some n /\
        length (shinfo.name s) = MAX_SH_NAMELEN e /\
        forall k, (k < MAX_SH_NAMELEN e)%nat ->
          ((forall i, (i <= k)%nat ->
                      load 1 m (shstr + n + Z.of_nat i) <> Some 0) ->
           load 1 (shinfo.name s) (Z.of_nat k)
           = load 1 m (shstr + n + Z.of_nat k) /\
           load 1 (shinfo.name s) (Z.of_nat k) <> Some 0) /\
          ((exists i, (i <= k)%nat /\
                      load 1 m (shstr + n + Z.of_nat i) = Some 0) ->
           load 1 (shinfo.name s) (Z.of_nat k) = Some 0).
Proof.
  intros T Lk H1 H2 H3 H4 Hndx Hstr.
  pose proof (tables_ok_inv _ _ _ _ _ T H1 H2 H3 H4) as B.
  pose proof Lk as Lk'. unfold locator_ok in Lk'. rewrite H3, H4, Hndx in Lk'.
  apply andb_true_iff in Lk'. destruct Lk' as [Hmal Lk'].
  rewrite Hstr in Lk'.
  assert (Hnames : forall t, 0 <= t < shnum ->
            exists nm, section_name e m shoff shstr t = Some nm).
  { intros t Ht. rewrite forallb_forall in Lk'.
    specialize (Lk' t). destruct (section_name e m shoff shstr t); eauto.
    assert (false = true); [|discriminate]. apply Lk'.
    rewrite <- (Z2Nat.id t) by lia. apply in_map, in_seq. lia. }
  destruct (find_segments_spec e m phoff shoff shstr phnum shnum
              H2 H4 ltac:(lia) ltac:(lia) Hmal Hnames loop_fuel 0 None)
    as (s' & R & C); [lia | |].
  { pose proof (load_inv _ _ _ _ H2) as X. unfold loop_fuel.
    change (2 ^ (8 * Z.of_nat 2)) with 65536 in X. lia. }
  exists s'. split.
  { unfold find_exe_seg_last_section. rewrite H1, H3, Hndx. cbn [bind].
    rewrite Hstr. cbn [bind]. rewrite R. reflexivity. }
  intros s Es.
  destruct C as [[E N] | (i & j & nm & Hi & Hj & M & Hn & E & N)];
    [congruence|].
  assert (s = descriptor e shoff j nm) by congruence. subst s.
  unfold section_name in Hn.
  destruct (sh_name m shoff j) as [n|] eqn:En; [|discriminate].
  cbn [bind] in Hn.
  destruct (strncpy_spec _ _ _ _ Hn) as (Ll & Hk).
  exists j, n. split; [lia|].
  split; [apply (describes_descriptor e m shoff shnum); auto; lia|].
  split; [exact En|]. cbn [descriptor shinfo.name].
  split; [exact Ll|].
  intros k Hlt. destruct (Hk k Hlt) as (Hc & Hz). split; [|exact Hz].
  intros Nz. split; [apply Hc, Nz|]. rewrite (Hc Nz). apply Nz. lia.
Qed.

(** X16.  Where the payload ends up.  When the program header table lies
    before the patch boundary and an executable segment ends in the file
    exactly at the boundary, the exported file still has its program
    headers at [e_phoff]; that segment starts where it did, at the same
    virtual address, its [p_filesz] and [p_memsz] are one page larger, and
    the page it gained in the file is the payload followed by its pad. *)
Theorem patched_file_executable_segment
        e (m : image) (payload : list byte) j sinfo b phoff phnum shoff shnum
        i fl po fs ms :
  tables_ok m = true -> describes e m j sinfo = true -> page_ok e = true ->
  e_phoff m = Some phoff -> e_phnum m = Some phnum ->
  e_shoff m = Some shoff -> e_shnum m = Some shnum ->
  open_ok e = true -> (forall k c, write_ret e k c = c) ->
  malloc_ok e (getpagesize e - Z.of_nat (length payload)) = true ->
  patch_base m sinfo = Some b ->
  phoff + 56 * phnum <= b <= Z.of_nat (length m) ->
  Z.of_nat (length m) < 2 ^ 31 ->
  Z.of_nat (length payload) <= getpagesize e ->
  0 <= i < phnum ->
  p_flags m phoff i = Some fl -> Z.land fl PF_X <> 0 ->
  p_offset m phoff i = Some po -> p_filesz m phoff i = Some fs ->
  p_memsz m phoff i = Some ms ->
  po + fs = b ->
  exists m' pinfo f,
    expand_section e m sinfo = Some (m', pinfo) /\
    export_elf_file e m' payload pinfo
    = Some {| rv := true; outfile := Some f |} /\
    e_phoff f = Some phoff /\ e_phnum f = Some phnum /\
    p_flags f phoff i = Some fl /\
    p_vaddr f phoff i = p_vaddr m phoff i /\
    p_offset f phoff i = Some po /\
    p_filesz f phoff i = Some (fs + getpagesize e) /\
    p_memsz f phoff i = Some (wrap 64 (ms + getpagesize e)) /\
    firstn (Z.to_nat (getpagesize e)) (skipn (Z.to_nat (po + fs)) f)
    = payload ++ repeat Byte.x00
                   (Z.to_nat (getpagesize e - Z.of_nat (length payload))).
Proof.
  intros T D P H1 H2 H3 H4 Hopen W Hmal Hb Hbb Hlen Hpay Hi Efl Hx Epo Efs
         Ems Hend.
  pose proof (tables_ok_inv _ _ _ _ _ T H1 H2 H3 H4)
    as (Pl & Ph & Sl & Sh & Dis & Np & Ns).
  pose proof (page_ok_inv _ P) as Hp.
  pose proof (describes_inv _ _ _ _ _ _ D H3 H4) as (Hj & _).
  destruct (pipeline_run e m payload j sinfo b phoff phnum shoff shnum
              T D P H1 H2 H3 H4 Hopen W Hmal Hb ltac:(lia) Hlen Hpay)
    as (m' & size32 & _ & R & X & L & F & _).
  destruct (expand_section_ok e m j sinfo phoff phnum shoff shnum
              T D P H1 H2 H3 H4)
    as (_ & m2 & off32 & size32' & _ & _ & R2 & _ & Hn & _ & _ & Hph & _ & _
        & _ & Hseg).
  assert (m2 = m') by congruence. subst m2.
  assert (Eb : wrap 32 (off32 + size32') = b) by congruence.
  rewrite Eb in *. clear R2.
  set (page := getpagesize e) in *.
  set (pinfo := {| patchinfo.base := b; patchinfo.size := page |}) in *.
  assert (Below : forall k off, 0 <= off -> off + Z.of_nat k <= b ->
                    load k (layout m' payload pinfo) off = load k m' off).
  { intros. apply layout_load_below; cbn [pinfo patchinfo.base patchinfo.size];
      lia. }
  destruct (Hseg i Hi) as (o' & fl' & fs' & ms' & Eo' & Efl' & Efs' & Ems'
                           & Xo & Xfl & Xfs & Xms).
  assert (o' = po) by congruence. assert (fl' = fl) by congruence.
  assert (fs' = fs) by congruence. assert (ms' = ms) by congruence.
  subst o' fl' fs' ms'.
  pose proof (load_inv _ _ _ _ Epo) as (_ & _ & Rpo).
  pose proof (load_inv _ _ _ _ Efs) as (_ & _ & Rfs).
  exists m', pinfo, (layout m' payload pinfo).
  split; [exact R|]. split; [exact X|].
  split.
  { unfold e_phoff in *. rewrite Below by (unfold e_phoff_p; lia).
    rewrite Hph. replace (b <? phoff) with false
      by (symmetry; apply Z.ltb_ge; lia). reflexivity. }
  split.
  { unfold e_phnum in *. rewrite Below by lia. exact Hn. }
  unfold p_flags, p_vaddr, p_offset, p_filesz, p_memsz in *.
  rewrite !Below
    by (unfold p_flags_p, p_vaddr_p, p_offset_p, p_filesz_p, p_memsz_p; lia).
  split; [exact Xfl|]. split.
  { apply F. unfold untouched, off_phdr_fields, e_phoff_p, e_shoff_p,
      sh_size_p, sh_offset_p, p_vaddr_p, p_offset_p, p_filesz_p.
    repeat split; try lia; intros u Hu; lia. }
  split.
  { rewrite Xo. unfold shifted_p_offset.
    replace (b <? po) with false by (symmetry; apply Z.ltb_ge; lia).
    reflexivity. }
  split.
  { rewrite Xfs. unfold grown. apply Z.eqb_neq in Hx. rewrite Hx.
    rewrite wrap_small; [reflexivity|].
    change (2 ^ 64) with (2 ^ 31 * 2 ^ 33). lia. }
  split.
  { rewrite Xms. unfold grown. apply Z.eqb_neq in Hx. rewrite Hx.
    reflexivity. }
  rewrite Hend.
  apply (layout_payload m' payload pinfo);
    cbn [pinfo patchinfo.base patchinfo.size]; lia.
Qed.

(** X17.  An empty target section is moved itself.  Its offset is not
    below the patch boundary, which for a size of zero is that offset, so
    the first loop shifts it like the sections behind it: afterwards (for
    an offset that stays below 2^32 when a page is added) the section
    starts one page after the boundary and has the size of one page, and
    the page inserted at the boundary lies before it. *)
Theorem expand_section_empty_target
        e (m : image) j sinfo phoff phnum shoff shnum o :
  tables_ok m = true -> describes e m j sinfo = true -> page_ok e = true ->
  e_phoff m = Some phoff -> e_phnum m = Some phnum ->
  e_shoff m = Some shoff -> e_shnum m = Some shnum ->
  sh_offset m shoff j = Some o -> sh_size m shoff j = Some 0 ->
  o + getpagesize e < 2 ^ 32 ->
  exists m' pinfo,
    expand_section e m sinfo = Some (m', pinfo) /\
    patchinfo.base pinfo = o /\
    sh_offset m' shoff j = Some (o + getpagesize e) /\
    sh_size m' shoff j = Some (getpagesize e).
Proof.
  intros T D P H1 H2 H3 H4 Eo Es Hfit.
  pose proof (page_ok_inv _ P) as Hp.
  destruct (expand_section_ok e m j sinfo phoff phnum shoff shnum
              T D P H1 H2 H3 H4)
    as (Hj & m' & off32 & size32 & Hof & Hsz & R & _ & _ & _ & _ & _ & Ho
        & Hlo & Hhi & _).
  pose proof (load_inv _ _ _ _ Eo) as (_ & _ & Ro).
  destruct (load4_of_load8 _ _ _ Eo) as (Eo4 & _).
  destruct (load4_of_load8 _ _ _ Es) as (Es4 & Es4h).
  assert (off32 = o)
    by (rewrite Hof in Eo4; injection Eo4 as ->; apply Z.mod_small; lia).
  assert (size32 = 0) by (rewrite Hsz in Es4; injection Es4 as ->; reflexivity).
  subst off32 size32.
  rewrite Z.add_0_r in *. rewrite (wrap_small 32 o) in * by lia.
  rewrite Z.add_0_l, (wrap_small 32 (getpagesize e)) in Hlo by lia.
  rewrite Es4h in Hhi. change (0 / 2 ^ 32) with 0 in Hhi.
  destruct (load8_of_load4 _ _ _ _ Hlo Hhi) as (v & Ev & Vlo & Vhi).
  assert (v = getpagesize e).
  { pose proof (Z.div_mod v (2 ^ 32) ltac:(lia)) as Q. lia. }
  subst v.
  eexists _, _. split; [exact R|]. split; [reflexivity|].
  split; [|exact Ev].
  rewrite (Ho j o Hj Eo). unfold shifted_sh_offset.
  rewrite Z.ltb_irrefl, (wrap_small 64), (wrap_small 32);
    [reflexivity|lia|change (2 ^ 64) with (2 ^ 32 * 2 ^ 32); lia].
Qed.

(** X18.  A payload of exactly [pinfo->size] bytes needs a pad of zero
    bytes, and the exporter asks [malloc] for it.  Where [malloc(0)]
    returns [NULL] the exporter takes that for a failure: it returns false
    and leaves only the bytes before [base] and the payload, although
    every [write] succeeded and nothing more than the rest of the image
    was left to write. *)
Theorem export_elf_file_pad_of_zero_bytes
        e (m : image) (payload : list byte) pinfo :
  open_ok e = true -> (forall k c, write_ret e k c = c) ->
  0 <= patchinfo.base pinfo <= Z.of_nat (length m) ->
  Z.of_nat (length m) < 2 ^ 31 ->
  Z.of_nat (length payload) = patchinfo.size pinfo ->
  patchinfo.size pinfo < 2 ^ 31 ->
  malloc_ok e 0 = false ->
  export_elf_file e m payload pinfo
  = Some {| rv := false;
            outfile := Some (firstn (Z.to_nat (patchinfo.base pinfo)) m
                             ++ payload) |}.
Proof.
  intros Ho W Hb Hm Hp Hlen Hmal.
  set (base := patchinfo.base pinfo) in *.
  set (psz := Z.of_nat (length payload)) in *.
  unfold export_elf_file. rewrite Ho. cbn [negb].
  fold base. fold psz.
  rewrite (write_complete e 0 [] m base W) by lia. cbn [bind app].
  rewrite wrap32_to_int, (wrap_small 32 base), Z.eqb_refl by lia.
  cbn [negb].
  rewrite (write_complete e 1 _ payload psz W) by lia. cbn [bind].
  rewrite to_int_small, wrap_small, Z.eqb_refl by lia. cbn [negb].
  rewrite <- Hp, Z.sub_diag. change (wrap 64 0) with 0.
  rewrite Hmal. cbn [negb]. unfold psz.
  rewrite Nat2Z.id, firstn_all. reflexivity.
Qed.

(** ** The hypotheses of the further properties hold on the samples *)

(** X1, witness: [malloc] fails after a successful [mmap]. *)
Lemma load_elf_failure_releases_witness :
  load_elf sample_os_no_memory paths.elf sample_process
  = (false, None, sample_process).
Proof.
  apply (load_elf_failure_releases sample_os_no_memory paths.elf
           sample_process).
  - intros size fd. vm_compute. discriminate.
  - reflexivity.
Defined.

(** X2, witness: an operating system whose [mmap] fails. *)
Lemma load_elf_misses_failed_mmap_witness :
  load_elf sample_os_no_mapping paths.elf sample_process
  = (true,
     Some (0x55550000,
           {| drow_ctx.fd := open_fd sample_os_no_mapping paths.elf;
              drow_ctx.size := to_int 480;
              drow_ctx.elf := MAP_FAILED |}),
     {| fds := open_fd sample_os_no_mapping paths.elf :: fds sample_process;
        maps := maps sample_process;
        heap := 0x55550000 :: heap sample_process |}).
Proof.
  apply (load_elf_misses_failed_mmap sample_os_no_mapping paths.elf
           sample_process 480 0x55550000); by_computation.
Defined.

(** X3, witness: a file of 4 GiB and 480 bytes. *)
Lemma load_elf_size_is_int_witness :
  (2 ^ 31 <= 2 ^ 32 + 480 < 2 ^ 32 ->
   load_elf sample_os_huge_file paths.elf sample_process
   = (false, None, sample_process)) /\
  (forall a ctx p',
      load_elf sample_os_huge_file paths.elf sample_process
      = (true, Some (a, ctx), p') ->
      drow_ctx.size ctx = (2 ^ 32 + 480) mod 2 ^ 32 /\
      0 <= drow_ctx.size ctx < 2 ^ 31 /\
      (drow_ctx.size ctx = 2 ^ 32 + 480 <-> 2 ^ 32 + 480 < 2 ^ 31)).
Proof.
  apply (load_elf_size_is_int sample_os_huge_file paths.elf sample_process
           (2 ^ 32 + 480)); [reflexivity | lia].
Defined.

(** X4, witness: a load that succeeds. *)
Lemma unload_elf_after_load_elf_witness :
  exists a ctx p',
    load_elf sample_os paths.elf sample_process
    = (true, Some (a, ctx), p') /\
    unload_elf (Some ctx) p'
    = {| fds := fds sample_process; maps := maps sample_process;
         heap := a :: heap sample_process |}.
Proof.
  apply (unload_elf_after_load_elf sample_os paths.elf sample_process).
  reflexivity.
Defined.

(** X5, witness: [malloc] fails after the payload was mapped. *)
Lemma load_payload_failure_releases_witness :
  load_payload sample_os_no_memory paths.blob sample_process
  = (false, None, sample_process).
Proof.
  apply (load_payload_failure_releases sample_os_no_memory paths.blob
           sample_process).
  - intros size fd. vm_compute. discriminate.
  - reflexivity.
Defined.

(** X6, witness: [sample_image] and the descriptor of [.text]. *)
Lemma expand_section_frame_witness :
  exists m' pinfo,
    expand_section sample_env sample_image sample_site = Some (m', pinfo) /\
    length m' = length sample_image /\
    (forall k off, untouched 64 2 224 4 1 k off ->
                   load k m' off = load k sample_image off) /\
    (forall k off,
        64 <= off ->
        off + Z.of_nat k <= 224 \/ 224 + 64 * 4 <= off ->
        off + Z.of_nat k <= 64 \/ 64 + 56 * 2 <= off ->
        off + Z.of_nat k <= Z.of_nat (length sample_image) ->
        firstn k (skipn (Z.to_nat off) m')
        = firstn k (skipn (Z.to_nat off) sample_image)).
Proof.
  apply (expand_section_frame sample_env sample_image 1 sample_site
           64 2 224 4); by_computation.
Defined.

(** X7, witness: the same run. *)
Lemma expand_section_keeps_addresses_witness :
  exists m' pinfo,
    expand_section sample_env sample_image sample_site = Some (m', pinfo) /\
    e_phnum m' = Some 2 /\ e_shnum m' = Some 4 /\
    (forall t, 0 <= t < 4 ->
       sh_name m' 224 t = sh_name sample_image 224 t /\
       sh_addr m' 224 t = sh_addr sample_image 224 t) /\
    (forall t, 0 <= t < 2 ->
       p_flags m' 64 t = p_flags sample_image 64 t /\
       p_vaddr m' 64 t = p_vaddr sample_image 64 t).
Proof.
  apply (expand_section_keeps_addresses sample_env sample_image 1
           sample_site 64 2 224 4); by_computation.
Defined.

(** X8, witness: [sample_image], patched at 192 with one page. *)
Lemma export_elf_file_true_is_complete_witness :
  exists r f,
    export_elf_file sample_env sample_image sample_payload
      {| patchinfo.base := 192; patchinfo.size := 4096 |} = Some r /\
    outfile r = Some f /\
    (exists k, f = firstn k (layout sample_image sample_payload
                               {| patchinfo.base := 192;
                                  patchinfo.size := 4096 |})) /\
    (rv r = true ->
     f = layout sample_image sample_payload
           {| patchinfo.base := 192; patchinfo.size := 4096 |} /\
     Z.of_nat (length f) = Z.of_nat (length sample_image) + 4096).
Proof.
  apply (export_elf_file_true_is_complete sample_env sample_image
           sample_payload {| patchinfo.base := 192; patchinfo.size := 4096 |}).
  - reflexivity.
  - intros k count Hc. cbn. lia.
  - by_bounds.
  - by_bounds.
  - by_bounds.
Defined.

(** X9, witness: the same export. *)
Lemma export_elf_file_inserts_at_base_witness :
  (forall k off,
      0 <= off -> off + Z.of_nat k <= 192 ->
      load k (layout sample_image sample_payload
                {| patchinfo.base := 192; patchinfo.size := 4096 |}) off
      = load k sample_image off) /\
  (forall k off,
      192 <= off ->
      load k (layout sample_image sample_payload
                {| patchinfo.base := 192; patchinfo.size := 4096 |})
           (off + 4096)
      = load k sample_image off) /\
  firstn (Z.to_nat 4096)
         (skipn (Z.to_nat 192)
                (layout sample_image sample_payload
                   {| patchinfo.base := 192; patchinfo.size := 4096 |}))
  = sample_payload
    ++ repeat Byte.x00 (Z.to_nat (4096 - Z.of_nat (length sample_payload))).
Proof.
  apply (export_elf_file_inserts_at_base sample_env sample_image
           sample_payload {| patchinfo.base := 192; patchinfo.size := 4096 |}
           (layout sample_image sample_payload
              {| patchinfo.base := 192; patchinfo.size := 4096 |})).
  - reflexivity.
  - intros k count Hc. cbn. lia.
  - by_bounds.
  - by_bounds.
  - by_bounds.
  - vm_compute. reflexivity.
Defined.

(** X10, witness: the pipeline on [sample_image]; the boundary is 192. *)
Lemma patched_file_section_table_witness :
  exists m' pinfo f,
    expand_section sample_env sample_image sample_site = Some (m', pinfo) /\
    export_elf_file sample_env m' sample_payload pinfo
    = Some {| rv := true; outfile := Some f |} /\
    e_shoff f = Some (224 + getpagesize sample_env) /\
    e_shnum f = Some 4 /\
    forall t, 0 <= t < 4 ->
      sh_name f (224 + getpagesize sample_env) t = sh_name sample_image 224 t /\
      sh_addr f (224 + getpagesize sample_env) t = sh_addr sample_image 224 t /\
      (forall o, sh_offset sample_image 224 t = Some o ->
                 sh_offset f (224 + getpagesize sample_env) t
                 = Some (shifted_sh_offset 192 (getpagesize sample_env) o)) /\
      (t <> 1 -> sh_size f (224 + getpagesize sample_env) t
                 = sh_size sample_image 224 t).
Proof.
  apply (patched_file_section_table sample_env sample_image sample_payload
           1 sample_site 192 64 2 224 4);
    first [lia | by_computation].
Defined.

(** X11, witness: the same run. *)
Lemma patched_file_keeps_sections_witness :
  exists m' pinfo f,
    expand_section sample_env sample_image sample_site = Some (m', pinfo) /\
    export_elf_file sample_env m' sample_payload pinfo
    = Some {| rv := true; outfile := Some f |} /\
    forall t o s,
      0 <= t < 4 -> t <> 1 ->
      sh_offset sample_image 224 t = Some o ->
      sh_size sample_image 224 t = Some s ->
      64 <= o -> o + s <= Z.of_nat (length sample_image) ->
      o + s <= 64 \/ 64 + 56 * 2 <= o ->
      o + s <= 224 \/ 224 + 64 * 4 <= o ->
      o + s <= 192 \/ 192 <= o ->
      section_bytes sample_image 224 t
      = Some (firstn (Z.to_nat s) (skipn (Z.to_nat o) sample_image)) /\
      section_bytes f (224 + getpagesize sample_env) t
      = section_bytes sample_image 224 t.
Proof.
  apply (patched_file_keeps_sections sample_env sample_image sample_payload
           1 sample_site 192 64 2 224 4);
    first [lia | by_computation].
Defined.

(** X12, witness: [.text] of [sample_image], 16 bytes at offset 176. *)
Lemma patched_file_target_section_witness :
  exists m' pinfo f,
    expand_section sample_env sample_image sample_site = Some (m', pinfo) /\
    export_elf_file sample_env m' sample_payload pinfo
    = Some {| rv := true; outfile := Some f |} /\
    192 = 176 + 16 /\
    sh_offset f (224 + getpagesize sample_env) 1 = Some 176 /\
    sh_size f (224 + getpagesize sample_env) 1
    = Some (16 + getpagesize sample_env) /\
    section_bytes f (224 + getpagesize sample_env) 1
    = Some (firstn (Z.to_nat 16) (skipn (Z.to_nat 176) sample_image)
            ++ sample_payload
            ++ repeat Byte.x00
                 (Z.to_nat (getpagesize sample_env
                            - Z.of_nat (length sample_payload)))).
Proof.
  apply (patched_file_target_section sample_env sample_image sample_payload
           1 sample_site 192 64 2 224 4 176 16);
    first [lia | by_computation].
Defined.

(** X13, witness: [.shstrtab] of [sample_image] ends at 224, where the
    section header table starts. *)
Lemma patched_file_table_at_base_witness :
  exists m' pinfo f,
    expand_section sample_env sample_image sample_site_shstrtab
    = Some (m', pinfo) /\
    export_elf_file sample_env m' sample_payload pinfo
    = Some {| rv := true; outfile := Some f |} /\
    e_shoff f = Some 224 /\
    firstn (Z.to_nat (getpagesize sample_env)) (skipn (Z.to_nat 224) f)
    = sample_payload
      ++ repeat Byte.x00
           (Z.to_nat (getpagesize sample_env
                      - Z.of_nat (length sample_payload))) /\
    forall k off, 224 <= off ->
                  load k f (off + getpagesize sample_env) = load k m' off.
Proof.
  apply (patched_file_table_at_base sample_env sample_image sample_payload
           3 sample_site_shstrtab 64 2 224 4);
    first [lia | by_computation].
Defined.

(** X14, witness: [sample_image] with a [malloc] that always fails. *)
Lemma locator_out_of_memory_witness :
  find_exe_seg_last_section sample_env_no_memory sample_image = Some None.
Proof.
  apply (locator_out_of_memory sample_env_no_memory sample_image 224 3 200);
    by_computation.
Defined.

(** X15, witness: the locator on [sample_image]. *)
Lemma locator_copies_section_name_witness :
  exists r,
    find_exe_seg_last_section sample_env sample_image = Some r /\
    forall s, r = Some s ->
      exists j n,
        0 <= j < 4 /\ describes sample_env sample_image j s = true /\
        sh_name sample_image 224 j = Some n /\
        length (shinfo.name s) = MAX_SH_NAMELEN sample_env /\
        forall k, (k < MAX_SH_NAMELEN sample_env)%nat ->
          ((forall i, (i <= k)%nat ->
                      load 1 sample_image (200 + n + Z.of_nat i) <> Some 0) ->
           load 1 (shinfo.name s) (Z.of_nat k)
           = load 1 sample_image (200 + n + Z.of_nat k) /\
           load 1 (shinfo.name s) (Z.of_nat k) <> Some 0) /\
          ((exists i, (i <= k)%nat /\
                      load 1 sample_image (200 + n + Z.of_nat i) = Some 0) ->
           load 1 (shinfo.name s) (Z.of_nat k) = Some 0).
Proof.
  apply (locator_copies_section_name sample_env sample_image 64 2 224 4
           3 200); by_computation.
Defined.

(** X16, witness: the executable segment of [sample_image], 192 bytes
    from offset 0. *)
Lemma patched_file_executable_segment_witness :
  exists m' pinfo f,
    expand_section sample_env sample_image sample_site = Some (m', pinfo) /\
    export_elf_file sample_env m' sample_payload pinfo
    = Some {| rv := true; outfile := Some f |} /\
    e_phoff f = Some 64 /\ e_phnum f = Some 2 /\
    p_flags f 64 0 = Some 5 /\
    p_vaddr f 64 0 = p_vaddr sample_image 64 0 /\
    p_offset f 64 0 = Some 0 /\
    p_filesz f 64 0 = Some (192 + getpagesize sample_env) /\
    p_memsz f 64 0 = Some (wrap 64 (192 + getpagesize sample_env)) /\
    firstn (Z.to_nat (getpagesize sample_env)) (skipn (Z.to_nat (0 + 192)) f)
    = sample_payload
      ++ repeat Byte.x00
           (Z.to_nat (getpagesize sample_env
                      - Z.of_nat (length sample_payload))).
Proof.
  apply (patched_file_executable_segment sample_env sample_image
           sample_payload 1 sample_site 192 64 2 224 4 0 5 0 192 192);
    first [lia | by_bounds | by_computation].
Defined.

(** X17, witness: section 0 of [sample_image] is empty, at offset 0. *)
Lemma expand_section_empty_target_witness :
  exists m' pinfo,
    expand_section sample_env sample_image sample_site_null
    = Some (m', pinfo) /\
    patchinfo.base pinfo = 0 /\
    sh_offset m' 224 0 = Some (0 + getpagesize sample_env) /\
    sh_size m' 224 0 = Some (getpagesize sample_env).
Proof.
  apply (expand_section_empty_target sample_env sample_image 0
           sample_site_null 64 2 224 4 0); by_computation.
Defined.

(** X18, witness: a payload of one page and a [malloc] that returns
    [NULL] for a request of zero bytes. *)
Lemma export_elf_file_pad_of_zero_bytes_witness :
  export_elf_file sample_env_no_empty_block sample_image sample_page_payload
    {| patchinfo.base := 192; patchinfo.size := 4096 |}
  = Some {| rv := false;
            outfile := Some (firstn (Z.to_nat 192) sample_image
                             ++ sample_page_payload) |}.
Proof.
  apply (export_elf_file_pad_of_zero_bytes sample_env_no_empty_block
           sample_image sample_page_payload
           {| patchinfo.base := 192; patchinfo.size := 4096 |});
    first [by_bounds | by_computation].
Defined.
